(** * Assigning coordinates to bird sightings: a model of [script.py]

    The script joins a table of sightings with a master table of
    coordinates.  Names are matched after normalisation, every sighting of
    a species known to the master table receives one of its coordinate pairs
    drawn with a seeded generator, and species without a match are reported.

    The development follows the script function by function:
    [normalize_species], [find_col], [load_master], [assign_coords] and the
    part of [main] that computes the no-match report. *)

From Stdlib Require Import ZArith NArith Ascii String Decimal DecimalPos SpecFloat Lia.
From stdpp Require Import base option list sorting gmap.

Local Open Scope N_scope.
#[local] Set Warnings "-clear-no-such-hyp".

(** ** Python text

    A Python [str] is a sequence of Unicode code points.  Code points are
    numbers, so that the whitespace class of [re] and [str.strip], and the
    order used by [sorted], are the ones Python has. *)

Abbreviation char := N (only parsing).
Abbreviation str := (list N) (only parsing).

(** Text of the source written as a literal (ASCII only). *)
Definition lit (s : string) : str := N_of_ascii <$> list_ascii_of_string s.

Definition LF : N := 10.
Definition SPACE : N := 32.
Definition LPAREN : N := 40.
Definition RPAREN : N := 41.

(** [\s] of [re] on [str] patterns and the characters removed by
    [str.strip()]: the code points for which [str.isspace] holds. *)
Definition is_space (c : N) : bool :=
  ((9 <=? c) && (c <=? 13)) || ((28 <=? c) && (c <=? 32))
  || (c =? 133) || (c =? 160) || (c =? 5760)
  || ((8192 <=? c) && (c <=? 8202))
  || (c =? 8232) || (c =? 8233) || (c =? 8239) || (c =? 8287) || (c =? 12288).

(** [str.casefold] acts code point by code point: each one is replaced by
    its full case folding.  The table lists every code point that
    [casefold] changes, in ascending order, with what it becomes (the data
    of Unicode 14.0, which Python 3.11 carries: 1530 code points, 104 of
    them with a folding of two or three code points); every other code
    point is left as it is. *)
Definition casefold_table : list (N * list N) :=
  [
   (65, [97]); (66, [98]); (67, [99]); (68, [100]);
   (69, [101]); (70, [102]); (71, [103]); (72, [104]);
   (73, [105]); (74, [106]); (75, [107]); (76, [108]);
   (77, [109]); (78, [110]); (79, [111]); (80, [112]);
   (81, [113]); (82, [114]); (83, [115]); (84, [116]);
   (85, [117]); (86, [118]); (87, [119]); (88, [120]);
   (89, [121]); (90, [122]); (181, [956]); (192, [224]);
   (193, [225]); (194, [226]); (195, [227]); (196, [228]);
   (197, [229]); (198, [230]); (199, [231]); (200, [232]);
   (201, [233]); (202, [234]); (203, [235]); (204, [236]);
   (205, [237]); (206, [238]); (207, [239]); (208, [240]);
   (209, [241]); (210, [242]); (211, [243]); (212, [244]);
   (213, [245]); (214, [246]); (216, [248]); (217, [249]);
   (218, [250]); (219, [251]); (220, [252]); (221, [253]);
   (222, [254]); (223, [115; 115]); (256, [257]); (258, [259]);
   (260, [261]); (262, [263]); (264, [265]); (266, [267]);
   (268, [269]); (270, [271]); (272, [273]); (274, [275]);
   (276, [277]); (278, [279]); (280, [281]); (282, [283]);
   (284, [285]); (286, [287]); (288, [289]); (290, [291]);
   (292, [293]); (294, [295]); (296, [297]); (298, [299]);
   (300, [301]); (302, [303]); (304, [105; 775]); (306, [307]);
   (308, [309]); (310, [311]); (313, [314]); (315, [316]);
   (317, [318]); (319, [320]); (321, [322]); (323, [324]);
   (325, [326]); (327, [328]); (329, [700; 110]); (330, [331]);
   (332, [333]); (334, [335]); (336, [337]); (338, [339]);
   (340, [341]); (342, [343]); (344, [345]); (346, [347]);
   (348, [349]); (350, [351]); (352, [353]); (354, [355]);
   (356, [357]); (358, [359]); (360, [361]); (362, [363]);
   (364, [365]); (366, [367]); (368, [369]); (370, [371]);
   (372, [373]); (374, [375]); (376, [255]); (377, [378]);
   (379, [380]); (381, [382]); (383, [115]); (385, [595]);
   (386, [387]); (388, [389]); (390, [596]); (391, [392]);
   (393, [598]); (394, [599]); (395, [396]); (398, [477]);
   (399, [601]); (400, [603]); (401, [402]); (403, [608]);
   (404, [611]); (406, [617]); (407, [616]); (408, [409]);
   (412, [623]); (413, [626]); (415, [629]); (416, [417]);
   (418, [419]); (420, [421]); (422, [640]); (423, [424]);
   (425, [643]); (428, [429]); (430, [648]); (431, [432]);
   (433, [650]); (434, [651]); (435, [436]); (437, [438]);
   (439, [658]); (440, [441]); (444, [445]); (452, [454]);
   (453, [454]); (455, [457]); (456, [457]); (458, [460]);
   (459, [460]); (461, [462]); (463, [464]); (465, [466]);
   (467, [468]); (469, [470]); (471, [472]); (473, [474]);
   (475, [476]); (478, [479]); (480, [481]); (482, [483]);
   (484, [485]); (486, [487]); (488, [489]); (490, [491]);
   (492, [493]); (494, [495]); (496, [106; 780]); (497, [499]);
   (498, [499]); (500, [501]); (502, [405]); (503, [447]);
   (504, [505]); (506, [507]); (508, [509]); (510, [511]);
   (512, [513]); (514, [515]); (516, [517]); (518, [519]);
   (520, [521]); (522, [523]); (524, [525]); (526, [527]);
   (528, [529]); (530, [531]); (532, [533]); (534, [535]);
   (536, [537]); (538, [539]); (540, [541]); (542, [543]);
   (544, [414]); (546, [547]); (548, [549]); (550, [551]);
   (552, [553]); (554, [555]); (556, [557]); (558, [559]);
   (560, [561]); (562, [563]); (570, [11365]); (571, [572]);
   (573, [410]); (574, [11366]); (577, [578]); (579, [384]);
   (580, [649]); (581, [652]); (582, [583]); (584, [585]);
   (586, [587]); (588, [589]); (590, [591]); (837, [953]);
   (880, [881]); (882, [883]); (886, [887]); (895, [1011]);
   (902, [940]); (904, [941]); (905, [942]); (906, [943]);
   (908, [972]); (910, [973]); (911, [974]); (912, [953; 776; 769]);
   (913, [945]); (914, [946]); (915, [947]); (916, [948]);
   (917, [949]); (918, [950]); (919, [951]); (920, [952]);
   (921, [953]); (922, [954]); (923, [955]); (924, [956]);
   (925, [957]); (926, [958]); (927, [959]); (928, [960]);
   (929, [961]); (931, [963]); (932, [964]); (933, [965]);
   (934, [966]); (935, [967]); (936, [968]); (937, [969]);
   (938, [970]); (939, [971]); (944, [965; 776; 769]); (962, [963]);
   (975, [983]); (976, [946]); (977, [952]); (981, [966]);
   (982, [960]); (984, [985]); (986, [987]); (988, [989]);
   (990, [991]); (992, [993]); (994, [995]); (996, [997]);
   (998, [999]); (1000, [1001]); (1002, [1003]); (1004, [1005]);
   (1006, [1007]); (1008, [954]); (1009, [961]); (1012, [952]);
   (1013, [949]); (1015, [1016]); (1017, [1010]); (1018, [1019]);
   (1021, [891]); (1022, [892]); (1023, [893]); (1024, [1104]);
   (1025, [1105]); (1026, [1106]); (1027, [1107]); (1028, [1108]);
   (1029, [1109]); (1030, [1110]); (1031, [1111]); (1032, [1112]);
   (1033, [1113]); (1034, [1114]); (1035, [1115]); (1036, [1116]);
   (1037, [1117]); (1038, [1118]); (1039, [1119]); (1040, [1072]);
   (1041, [1073]); (1042, [1074]); (1043, [1075]); (1044, [1076]);
   (1045, [1077]); (1046, [1078]); (1047, [1079]); (1048, [1080]);
   (1049, [1081]); (1050, [1082]); (1051, [1083]); (1052, [1084]);
   (1053, [1085]); (1054, [1086]); (1055, [1087]); (1056, [1088]);
   (1057, [1089]); (1058, [1090]); (1059, [1091]); (1060, [1092]);
   (1061, [1093]); (1062, [1094]); (1063, [1095]); (1064, [1096]);
   (1065, [1097]); (1066, [1098]); (1067, [1099]); (1068, [1100]);
   (1069, [1101]); (1070, [1102]); (1071, [1103]); (1120, [1121]);
   (1122, [1123]); (1124, [1125]); (1126, [1127]); (1128, [1129]);
   (1130, [1131]); (1132, [1133]); (1134, [1135]); (1136, [1137]);
   (1138, [1139]); (1140, [1141]); (1142, [1143]); (1144, [1145]);
   (1146, [1147]); (1148, [1149]); (1150, [1151]); (1152, [1153]);
   (1162, [1163]); (1164, [1165]); (1166, [1167]); (1168, [1169]);
   (1170, [1171]); (1172, [1173]); (1174, [1175]); (1176, [1177]);
   (1178, [1179]); (1180, [1181]); (1182, [1183]); (1184, [1185]);
   (1186, [1187]); (1188, [1189]); (1190, [1191]); (1192, [1193]);
   (1194, [1195]); (1196, [1197]); (1198, [1199]); (1200, [1201]);
   (1202, [1203]); (1204, [1205]); (1206, [1207]); (1208, [1209]);
   (1210, [1211]); (1212, [1213]); (1214, [1215]); (1216, [1231]);
   (1217, [1218]); (1219, [1220]); (1221, [1222]); (1223, [1224]);
   (1225, [1226]); (1227, [1228]); (1229, [1230]); (1232, [1233]);
   (1234, [1235]); (1236, [1237]); (1238, [1239]); (1240, [1241]);
   (1242, [1243]); (1244, [1245]); (1246, [1247]); (1248, [1249]);
   (1250, [1251]); (1252, [1253]); (1254, [1255]); (1256, [1257]);
   (1258, [1259]); (1260, [1261]); (1262, [1263]); (1264, [1265]);
   (1266, [1267]); (1268, [1269]); (1270, [1271]); (1272, [1273]);
   (1274, [1275]); (1276, [1277]); (1278, [1279]); (1280, [1281]);
   (1282, [1283]); (1284, [1285]); (1286, [1287]); (1288, [1289]);
   (1290, [1291]); (1292, [1293]); (1294, [1295]); (1296, [1297]);
   (1298, [1299]); (1300, [1301]); (1302, [1303]); (1304, [1305]);
   (1306, [1307]); (1308, [1309]); (1310, [1311]); (1312, [1313]);
   (1314, [1315]); (1316, [1317]); (1318, [1319]); (1320, [1321]);
   (1322, [1323]); (1324, [1325]); (1326, [1327]); (1329, [1377]);
   (1330, [1378]); (1331, [1379]); (1332, [1380]); (1333, [1381]);
   (1334, [1382]); (1335, [1383]); (1336, [1384]); (1337, [1385]);
   (1338, [1386]); (1339, [1387]); (1340, [1388]); (1341, [1389]);
   (1342, [1390]); (1343, [1391]); (1344, [1392]); (1345, [1393]);
   (1346, [1394]); (1347, [1395]); (1348, [1396]); (1349, [1397]);
   (1350, [1398]); (1351, [1399]); (1352, [1400]); (1353, [1401]);
   (1354, [1402]); (1355, [1403]); (1356, [1404]); (1357, [1405]);
   (1358, [1406]); (1359, [1407]); (1360, [1408]); (1361, [1409]);
   (1362, [1410]); (1363, [1411]); (1364, [1412]); (1365, [1413]);
   (1366, [1414]); (1415, [1381; 1410]); (4256, [11520]); (4257, [11521]);
   (4258, [11522]); (4259, [11523]); (4260, [11524]); (4261, [11525]);
   (4262, [11526]); (4263, [11527]); (4264, [11528]); (4265, [11529]);
   (4266, [11530]); (4267, [11531]); (4268, [11532]); (4269, [11533]);
   (4270, [11534]); (4271, [11535]); (4272, [11536]); (4273, [11537]);
   (4274, [11538]); (4275, [11539]); (4276, [11540]); (4277, [11541]);
   (4278, [11542]); (4279, [11543]); (4280, [11544]); (4281, [11545]);
   (4282, [11546]); (4283, [11547]); (4284, [11548]); (4285, [11549]);
   (4286, [11550]); (4287, [11551]); (4288, [11552]); (4289, [11553]);
   (4290, [11554]); (4291, [11555]); (4292, [11556]); (4293, [11557]);
   (4295, [11559]); (4301, [11565]); (5112, [5104]); (5113, [5105]);
   (5114, [5106]); (5115, [5107]); (5116, [5108]); (5117, [5109]);
   (7296, [1074]); (7297, [1076]); (7298, [1086]); (7299, [1089]);
   (7300, [1090]); (7301, [1090]); (7302, [1098]); (7303, [1123]);
   (7304, [42571]); (7312, [4304]); (7313, [4305]); (7314, [4306]);
   (7315, [4307]); (7316, [4308]); (7317, [4309]); (7318, [4310]);
   (7319, [4311]); (7320, [4312]); (7321, [4313]); (7322, [4314]);
   (7323, [4315]); (7324, [4316]); (7325, [4317]); (7326, [4318]);
   (7327, [4319]); (7328, [4320]); (7329, [4321]); (7330, [4322]);
   (7331, [4323]); (7332, [4324]); (7333, [4325]); (7334, [4326]);
   (7335, [4327]); (7336, [4328]); (7337, [4329]); (7338, [4330]);
   (7339, [4331]); (7340, [4332]); (7341, [4333]); (7342, [4334]);
   (7343, [4335]); (7344, [4336]); (7345, [4337]); (7346, [4338]);
   (7347, [4339]); (7348, [4340]); (7349, [4341]); (7350, [4342]);
   (7351, [4343]); (7352, [4344]); (7353, [4345]); (7354, [4346]);
   (7357, [4349]); (7358, [4350]); (7359, [4351]); (7680, [7681]);
   (7682, [7683]); (7684, [7685]); (7686, [7687]); (7688, [7689]);
   (7690, [7691]); (7692, [7693]); (7694, [7695]); (7696, [7697]);
   (7698, [7699]); (7700, [7701]); (7702, [7703]); (7704, [7705]);
   (7706, [7707]); (7708, [7709]); (7710, [7711]); (7712, [7713]);
   (7714, [7715]); (7716, [7717]); (7718, [7719]); (7720, [7721]);
   (7722, [7723]); (7724, [7725]); (7726, [7727]); (7728, [7729]);
   (7730, [7731]); (7732, [7733]); (7734, [7735]); (7736, [7737]);
   (7738, [7739]); (7740, [7741]); (7742, [7743]); (7744, [7745]);
   (7746, [7747]); (7748, [7749]); (7750, [7751]); (7752, [7753]);
   (7754, [7755]); (7756, [7757]); (7758, [7759]); (7760, [7761]);
   (7762, [7763]); (7764, [7765]); (7766, [7767]); (7768, [7769]);
   (7770, [7771]); (7772, [7773]); (7774, [7775]); (7776, [7777]);
   (7778, [7779]); (7780, [7781]); (7782, [7783]); (7784, [7785]);
   (7786, [7787]); (7788, [7789]); (7790, [7791]); (7792, [7793]);
   (7794, [7795]); (7796, [7797]); (7798, [7799]); (7800, [7801]);
   (7802, [7803]); (7804, [7805]); (7806, [7807]); (7808, [7809]);
   (7810, [7811]); (7812, [7813]); (7814, [7815]); (7816, [7817]);
   (7818, [7819]); (7820, [7821]); (7822, [7823]); (7824, [7825]);
   (7826, [7827]); (7828, [7829]); (7830, [104; 817]); (7831, [116; 776]);
   (7832, [119; 778]); (7833, [121; 778]); (7834, [97; 702]); (7835, [7777]);
   (7838, [115; 115]); (7840, [7841]); (7842, [7843]); (7844, [7845]);
   (7846, [7847]); (7848, [7849]); (7850, [7851]); (7852, [7853]);
   (7854, [7855]); (7856, [7857]); (7858, [7859]); (7860, [7861]);
   (7862, [7863]); (7864, [7865]); (7866, [7867]); (7868, [7869]);
   (7870, [7871]); (7872, [7873]); (7874, [7875]); (7876, [7877]);
   (7878, [7879]); (7880, [7881]); (7882, [7883]); (7884, [7885]);
   (7886, [7887]); (7888, [7889]); (7890, [7891]); (7892, [7893]);
   (7894, [7895]); (7896, [7897]); (7898, [7899]); (7900, [7901]);
   (7902, [7903]); (7904, [7905]); (7906, [7907]); (7908, [7909]);
   (7910, [7911]); (7912, [7913]); (7914, [7915]); (7916, [7917]);
   (7918, [7919]); (7920, [7921]); (7922, [7923]); (7924, [7925]);
   (7926, [7927]); (7928, [7929]); (7930, [7931]); (7932, [7933]);
   (7934, [7935]); (7944, [7936]); (7945, [7937]); (7946, [7938]);
   (7947, [7939]); (7948, [7940]); (7949, [7941]); (7950, [7942]);
   (7951, [7943]); (7960, [7952]); (7961, [7953]); (7962, [7954]);
   (7963, [7955]); (7964, [7956]); (7965, [7957]); (7976, [7968]);
   (7977, [7969]); (7978, [7970]); (7979, [7971]); (7980, [7972]);
   (7981, [7973]); (7982, [7974]); (7983, [7975]); (7992, [7984]);
   (7993, [7985]); (7994, [7986]); (7995, [7987]); (7996, [7988]);
   (7997, [7989]); (7998, [7990]); (7999, [7991]); (8008, [8000]);
   (8009, [8001]); (8010, [8002]); (8011, [8003]); (8012, [8004]);
   (8013, [8005]); (8016, [965; 787]); (8018, [965; 787; 768]); (8020, [965; 787; 769]);
   (8022, [965; 787; 834]); (8025, [8017]); (8027, [8019]); (8029, [8021]);
   (8031, [8023]); (8040, [8032]); (8041, [8033]); (8042, [8034]);
   (8043, [8035]); (8044, [8036]); (8045, [8037]); (8046, [8038]);
   (8047, [8039]); (8064, [7936; 953]); (8065, [7937; 953]); (8066, [7938; 953]);
   (8067, [7939; 953]); (8068, [7940; 953]); (8069, [7941; 953]); (8070, [7942; 953]);
   (8071, [7943; 953]); (8072, [7936; 953]); (8073, [7937; 953]); (8074, [7938; 953]);
   (8075, [7939; 953]); (8076, [7940; 953]); (8077, [7941; 953]); (8078, [7942; 953]);
   (8079, [7943; 953]); (8080, [7968; 953]); (8081, [7969; 953]); (8082, [7970; 953]);
   (8083, [7971; 953]); (8084, [7972; 953]); (8085, [7973; 953]); (8086, [7974; 953]);
   (8087, [7975; 953]); (8088, [7968; 953]); (8089, [7969; 953]); (8090, [7970; 953]);
   (8091, [7971; 953]); (8092, [7972; 953]); (8093, [7973; 953]); (8094, [7974; 953]);
   (8095, [7975; 953]); (8096, [8032; 953]); (8097, [8033; 953]); (8098, [8034; 953]);
   (8099, [8035; 953]); (8100, [8036; 953]); (8101, [8037; 953]); (8102, [8038; 953]);
   (8103, [8039; 953]); (8104, [8032; 953]); (8105, [8033; 953]); (8106, [8034; 953]);
   (8107, [8035; 953]); (8108, [8036; 953]); (8109, [8037; 953]); (8110, [8038; 953]);
   (8111, [8039; 953]); (8114, [8048; 953]); (8115, [945; 953]); (8116, [940; 953]);
   (8118, [945; 834]); (8119, [945; 834; 953]); (8120, [8112]); (8121, [8113]);
   (8122, [8048]); (8123, [8049]); (8124, [945; 953]); (8126, [953]);
   (8130, [8052; 953]); (8131, [951; 953]); (8132, [942; 953]); (8134, [951; 834]);
   (8135, [951; 834; 953]); (8136, [8050]); (8137, [8051]); (8138, [8052]);
   (8139, [8053]); (8140, [951; 953]); (8146, [953; 776; 768]); (8147, [953; 776; 769]);
   (8150, [953; 834]); (8151, [953; 776; 834]); (8152, [8144]); (8153, [8145]);
   (8154, [8054]); (8155, [8055]); (8162, [965; 776; 768]); (8163, [965; 776; 769]);
   (8164, [961; 787]); (8166, [965; 834]); (8167, [965; 776; 834]); (8168, [8160]);
   (8169, [8161]); (8170, [8058]); (8171, [8059]); (8172, [8165]);
   (8178, [8060; 953]); (8179, [969; 953]); (8180, [974; 953]); (8182, [969; 834]);
   (8183, [969; 834; 953]); (8184, [8056]); (8185, [8057]); (8186, [8060]);
   (8187, [8061]); (8188, [969; 953]); (8486, [969]); (8490, [107]);
   (8491, [229]); (8498, [8526]); (8544, [8560]); (8545, [8561]);
   (8546, [8562]); (8547, [8563]); (8548, [8564]); (8549, [8565]);
   (8550, [8566]); (8551, [8567]); (8552, [8568]); (8553, [8569]);
   (8554, [8570]); (8555, [8571]); (8556, [8572]); (8557, [8573]);
   (8558, [8574]); (8559, [8575]); (8579, [8580]); (9398, [9424]);
   (9399, [9425]); (9400, [9426]); (9401, [9427]); (9402, [9428]);
   (9403, [9429]); (9404, [9430]); (9405, [9431]); (9406, [9432]);
   (9407, [9433]); (9408, [9434]); (9409, [9435]); (9410, [9436]);
   (9411, [9437]); (9412, [9438]); (9413, [9439]); (9414, [9440]);
   (9415, [9441]); (9416, [9442]); (9417, [9443]); (9418, [9444]);
   (9419, [9445]); (9420, [9446]); (9421, [9447]); (9422, [9448]);
   (9423, [9449]); (11264, [11312]); (11265, [11313]); (11266, [11314]);
   (11267, [11315]); (11268, [11316]); (11269, [11317]); (11270, [11318]);
   (11271, [11319]); (11272, [11320]); (11273, [11321]); (11274, [11322]);
   (11275, [11323]); (11276, [11324]); (11277, [11325]); (11278, [11326]);
   (11279, [11327]); (11280, [11328]); (11281, [11329]); (11282, [11330]);
   (11283, [11331]); (11284, [11332]); (11285, [11333]); (11286, [11334]);
   (11287, [11335]); (11288, [11336]); (11289, [11337]); (11290, [11338]);
   (11291, [11339]); (11292, [11340]); (11293, [11341]); (11294, [11342]);
   (11295, [11343]); (11296, [11344]); (11297, [11345]); (11298, [11346]);
   (11299, [11347]); (11300, [11348]); (11301, [11349]); (11302, [11350]);
   (11303, [11351]); (11304, [11352]); (11305, [11353]); (11306, [11354]);
   (11307, [11355]); (11308, [11356]); (11309, [11357]); (11310, [11358]);
   (11311, [11359]); (11360, [11361]); (11362, [619]); (11363, [7549]);
   (11364, [637]); (11367, [11368]); (11369, [11370]); (11371, [11372]);
   (11373, [593]); (11374, [625]); (11375, [592]); (11376, [594]);
   (11378, [11379]); (11381, [11382]); (11390, [575]); (11391, [576]);
   (11392, [11393]); (11394, [11395]); (11396, [11397]); (11398, [11399]);
   (11400, [11401]); (11402, [11403]); (11404, [11405]); (11406, [11407]);
   (11408, [11409]); (11410, [11411]); (11412, [11413]); (11414, [11415]);
   (11416, [11417]); (11418, [11419]); (11420, [11421]); (11422, [11423]);
   (11424, [11425]); (11426, [11427]); (11428, [11429]); (11430, [11431]);
   (11432, [11433]); (11434, [11435]); (11436, [11437]); (11438, [11439]);
   (11440, [11441]); (11442, [11443]); (11444, [11445]); (11446, [11447]);
   (11448, [11449]); (11450, [11451]); (11452, [11453]); (11454, [11455]);
   (11456, [11457]); (11458, [11459]); (11460, [11461]); (11462, [11463]);
   (11464, [11465]); (11466, [11467]); (11468, [11469]); (11470, [11471]);
   (11472, [11473]); (11474, [11475]); (11476, [11477]); (11478, [11479]);
   (11480, [11481]); (11482, [11483]); (11484, [11485]); (11486, [11487]);
   (11488, [11489]); (11490, [11491]); (11499, [11500]); (11501, [11502]);
   (11506, [11507]); (42560, [42561]); (42562, [42563]); (42564, [42565]);
   (42566, [42567]); (42568, [42569]); (42570, [42571]); (42572, [42573]);
   (42574, [42575]); (42576, [42577]); (42578, [42579]); (42580, [42581]);
   (42582, [42583]); (42584, [42585]); (42586, [42587]); (42588, [42589]);
   (42590, [42591]); (42592, [42593]); (42594, [42595]); (42596, [42597]);
   (42598, [42599]); (42600, [42601]); (42602, [42603]); (42604, [42605]);
   (42624, [42625]); (42626, [42627]); (42628, [42629]); (42630, [42631]);
   (42632, [42633]); (42634, [42635]); (42636, [42637]); (42638, [42639]);
   (42640, [42641]); (42642, [42643]); (42644, [42645]); (42646, [42647]);
   (42648, [42649]); (42650, [42651]); (42786, [42787]); (42788, [42789]);
   (42790, [42791]); (42792, [42793]); (42794, [42795]); (42796, [42797]);
   (42798, [42799]); (42802, [42803]); (42804, [42805]); (42806, [42807]);
   (42808, [42809]); (42810, [42811]); (42812, [42813]); (42814, [42815]);
   (42816, [42817]); (42818, [42819]); (42820, [42821]); (42822, [42823]);
   (42824, [42825]); (42826, [42827]); (42828, [42829]); (42830, [42831]);
   (42832, [42833]); (42834, [42835]); (42836, [42837]); (42838, [42839]);
   (42840, [42841]); (42842, [42843]); (42844, [42845]); (42846, [42847]);
   (42848, [42849]); (42850, [42851]); (42852, [42853]); (42854, [42855]);
   (42856, [42857]); (42858, [42859]); (42860, [42861]); (42862, [42863]);
   (42873, [42874]); (42875, [42876]); (42877, [7545]); (42878, [42879]);
   (42880, [42881]); (42882, [42883]); (42884, [42885]); (42886, [42887]);
   (42891, [42892]); (42893, [613]); (42896, [42897]); (42898, [42899]);
   (42902, [42903]); (42904, [42905]); (42906, [42907]); (42908, [42909]);
   (42910, [42911]); (42912, [42913]); (42914, [42915]); (42916, [42917]);
   (42918, [42919]); (42920, [42921]); (42922, [614]); (42923, [604]);
   (42924, [609]); (42925, [620]); (42926, [618]); (42928, [670]);
   (42929, [647]); (42930, [669]); (42931, [43859]); (42932, [42933]);
   (42934, [42935]); (42936, [42937]); (42938, [42939]); (42940, [42941]);
   (42942, [42943]); (42944, [42945]); (42946, [42947]); (42948, [42900]);
   (42949, [642]); (42950, [7566]); (42951, [42952]); (42953, [42954]);
   (42960, [42961]); (42966, [42967]); (42968, [42969]); (42997, [42998]);
   (43888, [5024]); (43889, [5025]); (43890, [5026]); (43891, [5027]);
   (43892, [5028]); (43893, [5029]); (43894, [5030]); (43895, [5031]);
   (43896, [5032]); (43897, [5033]); (43898, [5034]); (43899, [5035]);
   (43900, [5036]); (43901, [5037]); (43902, [5038]); (43903, [5039]);
   (43904, [5040]); (43905, [5041]); (43906, [5042]); (43907, [5043]);
   (43908, [5044]); (43909, [5045]); (43910, [5046]); (43911, [5047]);
   (43912, [5048]); (43913, [5049]); (43914, [5050]); (43915, [5051]);
   (43916, [5052]); (43917, [5053]); (43918, [5054]); (43919, [5055]);
   (43920, [5056]); (43921, [5057]); (43922, [5058]); (43923, [5059]);
   (43924, [5060]); (43925, [5061]); (43926, [5062]); (43927, [5063]);
   (43928, [5064]); (43929, [5065]); (43930, [5066]); (43931, [5067]);
   (43932, [5068]); (43933, [5069]); (43934, [5070]); (43935, [5071]);
   (43936, [5072]); (43937, [5073]); (43938, [5074]); (43939, [5075]);
   (43940, [5076]); (43941, [5077]); (43942, [5078]); (43943, [5079]);
   (43944, [5080]); (43945, [5081]); (43946, [5082]); (43947, [5083]);
   (43948, [5084]); (43949, [5085]); (43950, [5086]); (43951, [5087]);
   (43952, [5088]); (43953, [5089]); (43954, [5090]); (43955, [5091]);
   (43956, [5092]); (43957, [5093]); (43958, [5094]); (43959, [5095]);
   (43960, [5096]); (43961, [5097]); (43962, [5098]); (43963, [5099]);
   (43964, [5100]); (43965, [5101]); (43966, [5102]); (43967, [5103]);
   (64256, [102; 102]); (64257, [102; 105]); (64258, [102; 108]); (64259, [102; 102; 105]);
   (64260, [102; 102; 108]); (64261, [115; 116]); (64262, [115; 116]); (64275, [1396; 1398]);
   (64276, [1396; 1381]); (64277, [1396; 1387]); (64278, [1406; 1398]); (64279, [1396; 1389]);
   (65313, [65345]); (65314, [65346]); (65315, [65347]); (65316, [65348]);
   (65317, [65349]); (65318, [65350]); (65319, [65351]); (65320, [65352]);
   (65321, [65353]); (65322, [65354]); (65323, [65355]); (65324, [65356]);
   (65325, [65357]); (65326, [65358]); (65327, [65359]); (65328, [65360]);
   (65329, [65361]); (65330, [65362]); (65331, [65363]); (65332, [65364]);
   (65333, [65365]); (65334, [65366]); (65335, [65367]); (65336, [65368]);
   (65337, [65369]); (65338, [65370]); (66560, [66600]); (66561, [66601]);
   (66562, [66602]); (66563, [66603]); (66564, [66604]); (66565, [66605]);
   (66566, [66606]); (66567, [66607]); (66568, [66608]); (66569, [66609]);
   (66570, [66610]); (66571, [66611]); (66572, [66612]); (66573, [66613]);
   (66574, [66614]); (66575, [66615]); (66576, [66616]); (66577, [66617]);
   (66578, [66618]); (66579, [66619]); (66580, [66620]); (66581, [66621]);
   (66582, [66622]); (66583, [66623]); (66584, [66624]); (66585, [66625]);
   (66586, [66626]); (66587, [66627]); (66588, [66628]); (66589, [66629]);
   (66590, [66630]); (66591, [66631]); (66592, [66632]); (66593, [66633]);
   (66594, [66634]); (66595, [66635]); (66596, [66636]); (66597, [66637]);
   (66598, [66638]); (66599, [66639]); (66736, [66776]); (66737, [66777]);
   (66738, [66778]); (66739, [66779]); (66740, [66780]); (66741, [66781]);
   (66742, [66782]); (66743, [66783]); (66744, [66784]); (66745, [66785]);
   (66746, [66786]); (66747, [66787]); (66748, [66788]); (66749, [66789]);
   (66750, [66790]); (66751, [66791]); (66752, [66792]); (66753, [66793]);
   (66754, [66794]); (66755, [66795]); (66756, [66796]); (66757, [66797]);
   (66758, [66798]); (66759, [66799]); (66760, [66800]); (66761, [66801]);
   (66762, [66802]); (66763, [66803]); (66764, [66804]); (66765, [66805]);
   (66766, [66806]); (66767, [66807]); (66768, [66808]); (66769, [66809]);
   (66770, [66810]); (66771, [66811]); (66928, [66967]); (66929, [66968]);
   (66930, [66969]); (66931, [66970]); (66932, [66971]); (66933, [66972]);
   (66934, [66973]); (66935, [66974]); (66936, [66975]); (66937, [66976]);
   (66938, [66977]); (66940, [66979]); (66941, [66980]); (66942, [66981]);
   (66943, [66982]); (66944, [66983]); (66945, [66984]); (66946, [66985]);
   (66947, [66986]); (66948, [66987]); (66949, [66988]); (66950, [66989]);
   (66951, [66990]); (66952, [66991]); (66953, [66992]); (66954, [66993]);
   (66956, [66995]); (66957, [66996]); (66958, [66997]); (66959, [66998]);
   (66960, [66999]); (66961, [67000]); (66962, [67001]); (66964, [67003]);
   (66965, [67004]); (68736, [68800]); (68737, [68801]); (68738, [68802]);
   (68739, [68803]); (68740, [68804]); (68741, [68805]); (68742, [68806]);
   (68743, [68807]); (68744, [68808]); (68745, [68809]); (68746, [68810]);
   (68747, [68811]); (68748, [68812]); (68749, [68813]); (68750, [68814]);
   (68751, [68815]); (68752, [68816]); (68753, [68817]); (68754, [68818]);
   (68755, [68819]); (68756, [68820]); (68757, [68821]); (68758, [68822]);
   (68759, [68823]); (68760, [68824]); (68761, [68825]); (68762, [68826]);
   (68763, [68827]); (68764, [68828]); (68765, [68829]); (68766, [68830]);
   (68767, [68831]); (68768, [68832]); (68769, [68833]); (68770, [68834]);
   (68771, [68835]); (68772, [68836]); (68773, [68837]); (68774, [68838]);
   (68775, [68839]); (68776, [68840]); (68777, [68841]); (68778, [68842]);
   (68779, [68843]); (68780, [68844]); (68781, [68845]); (68782, [68846]);
   (68783, [68847]); (68784, [68848]); (68785, [68849]); (68786, [68850]);
   (71840, [71872]); (71841, [71873]); (71842, [71874]); (71843, [71875]);
   (71844, [71876]); (71845, [71877]); (71846, [71878]); (71847, [71879]);
   (71848, [71880]); (71849, [71881]); (71850, [71882]); (71851, [71883]);
   (71852, [71884]); (71853, [71885]); (71854, [71886]); (71855, [71887]);
   (71856, [71888]); (71857, [71889]); (71858, [71890]); (71859, [71891]);
   (71860, [71892]); (71861, [71893]); (71862, [71894]); (71863, [71895]);
   (71864, [71896]); (71865, [71897]); (71866, [71898]); (71867, [71899]);
   (71868, [71900]); (71869, [71901]); (71870, [71902]); (71871, [71903]);
   (93760, [93792]); (93761, [93793]); (93762, [93794]); (93763, [93795]);
   (93764, [93796]); (93765, [93797]); (93766, [93798]); (93767, [93799]);
   (93768, [93800]); (93769, [93801]); (93770, [93802]); (93771, [93803]);
   (93772, [93804]); (93773, [93805]); (93774, [93806]); (93775, [93807]);
   (93776, [93808]); (93777, [93809]); (93778, [93810]); (93779, [93811]);
   (93780, [93812]); (93781, [93813]); (93782, [93814]); (93783, [93815]);
   (93784, [93816]); (93785, [93817]); (93786, [93818]); (93787, [93819]);
   (93788, [93820]); (93789, [93821]); (93790, [93822]); (93791, [93823]);
   (125184, [125218]); (125185, [125219]); (125186, [125220]); (125187, [125221]);
   (125188, [125222]); (125189, [125223]); (125190, [125224]); (125191, [125225]);
   (125192, [125226]); (125193, [125227]); (125194, [125228]); (125195, [125229]);
   (125196, [125230]); (125197, [125231]); (125198, [125232]); (125199, [125233]);
   (125200, [125234]); (125201, [125235]); (125202, [125236]); (125203, [125237]);
   (125204, [125238]); (125205, [125239]); (125206, [125240]); (125207, [125241]);
   (125208, [125242]); (125209, [125243]); (125210, [125244]); (125211, [125245]);
   (125212, [125246]); (125213, [125247]); (125214, [125248]); (125215, [125249]);
   (125216, [125250]); (125217, [125251])
  ].

(** The entry of a code point in a table in ascending order. *)
Fixpoint fold_lookup (t : list (N * list N)) (c : N) : option (list N) :=
  match t with
  | [] => None
  | (k, l) :: t' =>
      if c <? k then None else if c =? k then Some l else fold_lookup t' c
  end.

Definition casefold_char (c : N) : str :=
  match fold_lookup casefold_table c with
  | Some l => l
  | None => [c]
  end.
#[global] Arguments casefold_char : simpl never.

Definition casefold (s : str) : str := s ≫= casefold_char.

(** [s.strip()] *)
Fixpoint lstrip (s : str) : str :=
  match s with
  | c :: r => if is_space c then lstrip r else s
  | [] => []
  end.

Definition rstrip (s : str) : str := reverse (lstrip (reverse s)).

Definition strip (s : str) : str := rstrip (lstrip s).

(** [re.sub(r"\s+", " ", s)]: every maximal run of whitespace becomes one
    space.  [in_run] tells that the previous character was whitespace. *)
Fixpoint sub_spaces_from (in_run : bool) (s : str) : str :=
  match s with
  | [] => []
  | c :: r =>
      if is_space c
      then (if in_run then sub_spaces_from true r
            else SPACE :: sub_spaces_from true r)
      else c :: sub_spaces_from false r
  end.

Definition sub_spaces (s : str) : str := sub_spaces_from false s.

(** [.*?\)] : the shortest run of characters other than a line feed that is
    followed by a closing parenthesis; the text after that parenthesis. *)
Fixpoint find_close (s : str) : option str :=
  match s with
  | [] => None
  | c :: r =>
      if c =? RPAREN then Some r
      else if c =? LF then None
      else find_close r
  end.

(** A match of [\s*\(.*?\)\s*] at the head of [s]; the text after it. *)
Definition match_parens (s : str) : option str :=
  match lstrip s with
  | c :: r => if c =? LPAREN then lstrip <$> find_close r else None
  | [] => None
  end.

(** [re.sub(r"\s*\(.*?\)\s*", " ", s)]: scan from the left; where the
    pattern matches, emit one space and resume after the match, otherwise
    copy one character.  [skip] counts the characters of the current match
    that are still to be passed over. *)
Fixpoint sub_parens_from (skip : nat) (s : str) : str :=
  match s with
  | [] => []
  | c :: r =>
      match skip with
      | S k => sub_parens_from k r
      | O =>
          match match_parens s with
          | Some rest => SPACE :: sub_parens_from (length r - length rest) r
          | None => c :: sub_parens_from 0 r
          end
      end
  end.

Definition sub_parens (s : str) : str := sub_parens_from 0 s.

(** Order of [str] under [<=]: lexicographic on code points. *)
Fixpoint str_leb (a b : str) : bool :=
  match a, b with
  | [], _ => true
  | _ :: _, [] => false
  | x :: a', y :: b' => (x <? y) || ((x =? y) && str_leb a' b')
  end.

Definition str_le (a b : str) : Prop := str_leb a b = true.
Definition str_lt (a b : str) : Prop := str_le a b ∧ a ≠ b.

#[global] Instance str_le_dec a b : Decision (str_le a b).
Proof. unfold str_le. apply _. Defined.

(** [sorted] on a list of [str]. *)
Definition sorted (l : list str) : list str := merge_sort str_le l.

(** ** Values and the pieces of the runtime that are taken as given *)

(** A cell of a data frame read from CSV: text, or a float ([nan] is the
    missing value). *)
Inductive cell :=
| Str (s : str)
| Num (x : spec_float).

Definition nan : cell := Num S754_nan.

(** [pd.isna] *)
Definition isna (c : cell) : bool :=
  match c with
  | Num S754_nan => true
  | _ => false
  end.

(** Conversions between text and floats done by Python and pandas.  They
    are not part of the script and are taken as given. *)
Class Runtime := {
  (** [str(x)] on a float *)
  float_str : spec_float → str;
  (** [float(s)] on text; [None] when it raises [ValueError] *)
  py_float : str → option spec_float;
  (** [pd.to_numeric(..., errors="coerce")] on a text cell; [nan] when the
      text is not a number *)
  to_numeric_str : str → spec_float;
}.

(** Exceptions that reach the caller. *)
Inductive exn :=
| ColumnNotFound (candidates columns : list str)
    (** the [KeyError] of [find_col]; its message is
        "No se encontró ninguna de las columnas esperadas: {candidates} en
        {list(df.columns)}" *)
| KeyError (key : str)       (** a column that the frame does not have *)
| IndexError                 (** list index out of range *)
| ValueError.                (** [float] on text that is not a number *)

Inductive result (A : Type) :=
| Ok (a : A)
| Raise (e : exn).
Arguments Ok {A} a.
Arguments Raise {A} e.

Definition bind {A B} (m : result A) (k : A → result B) : result B :=
  match m with
  | Ok a => k a
  | Raise e => Raise e
  end.

Notation "'do' x <- m ; k" := (bind m (λ x, k))
  (at level 10, x pattern, m at level 100, k at level 200).

Definition raise_if_none {A} (e : exn) (o : option A) : result A :=
  match o with
  | Some a => Ok a
  | None => Raise e
  end.

(** A loop whose body may raise. *)
Fixpoint foldM {A B} (f : A → B → result A) (a : A) (l : list B) : result A :=
  match l with
  | [] => Ok a
  | b :: l' => do a' <- f a b; foldM f a' l'
  end.

(** [l[i]] on a Python list: a negative index counts from the end. *)
Definition py_index {A} (l : list A) (i : Z) : result A :=
  let n := Z.of_nat (length l) in
  if (0 <=? i)%Z then raise_if_none IndexError (l !! Z.to_nat i)
  else if (- n <=? i)%Z then raise_if_none IndexError (l !! Z.to_nat (n + i))
  else Raise IndexError.

(** ** Data frames

    A frame has a row index and its columns in header order; a column is
    the list of its cells, one for each row.

    The index gives every row a label.  [read_csv] labels the rows
    [0 .. n-1] ([RangeIndex]), unless the rows of the file have one field
    more than the header: then the first field of each row is its label,
    and labels can repeat.  The script never looks inside a label: it
    takes labels from [groupby(...).groups] and hands them to [.loc], which
    selects the rows that carry an equal label.  A label is therefore
    represented by a number, equal labels by the same number. *)
Inductive label := Lbl (n : nat).

#[global] Instance label_eq_dec : EqDecision label.
Proof. solve_decision. Defined.

Record DataFrame := {
  index : list label;
  columns : list (str * list cell);
}.

(** [len(df)] *)
Definition nrows (df : DataFrame) : nat := length (index df).

(** [RangeIndex(n)] *)
Definition range_index (n : nat) : list label := Lbl <$> seq 0 n.

Definition names (df : DataFrame) : list str := (columns df).*1.

(** [df[c]]: the first column with that header *)
Definition find_column (cols : list (str * list cell)) (c : str)
  : result (list cell) :=
  match list_find (λ p, p.1 = c) cols with
  | Some (_, (_, v)) => Ok v
  | None => Raise (KeyError c)
  end.

Definition get_col (df : DataFrame) (c : str) : result (list cell) :=
  find_column (columns df) c.

(** [df[c] = v]: an existing column is replaced where it stands, a new one
    is added last. *)
Fixpoint set_column (cols : list (str * list cell)) (c : str) (v : list cell)
  : list (str * list cell) :=
  match cols with
  | [] => [(c, v)]
  | (c', v') :: r =>
      if decide (c' = c) then (c, v) :: r else (c', v') :: set_column r c v
  end.

Definition set_col (df : DataFrame) (c : str) (v : list cell) : DataFrame :=
  {| index := index df; columns := set_column (columns df) c v |}.

(** The cells of a column after [x] is written to every row that carries
    the label [l]. *)
Definition write_label {A} (idx : list label) (l : label) (x : A) (v : list A)
  : list A :=
  zip_with (λ l' y, if decide (l' = l) then x else y) idx v.

(** [df.loc[l, c] = x] on a column that exists: a write to the column [c]
    of every row whose label is [l]. *)
Definition loc_set (df : DataFrame) (l : label) (c : str) (x : cell) : DataFrame :=
  {| index := index df;
     columns := (λ p, if decide (p.1 = c)
                      then (p.1, write_label (index df) l x p.2) else p)
                  <$> columns df |}.

(** [df.drop(columns=[c], errors="ignore")] *)
Definition drop_col (df : DataFrame) (c : str) : DataFrame :=
  {| index := index df; columns := filter (λ p, p.1 ≠ c) (columns df) |}.

(** The groups of [groupby(key)]: the distinct keys in ascending order,
    each with the positions of its rows in row order. *)
Definition indices_of (k : str) (keys : list str) : list nat :=
  filter (λ i, keys !! i = Some k) (seq 0 (length keys)).

Definition groups (keys : list str) : list (str * list nat) :=
  (λ k, (k, indices_of k keys)) <$> sorted (remove_dups keys).

(** The labels of the rows at the positions [pos]. *)
Definition labels_of (idx : list label) (pos : list nat) : list label :=
  omap (λ i, idx !! i) pos.

(** [groupby(key).groups]: the same groups, each with the labels of its
    rows in row order. *)
Definition label_groups (idx : list label) (keys : list str)
  : list (str * list label) :=
  (λ g, (g.1, labels_of idx g.2)) <$> groups keys.

(** ** Formatting a float with [:.6f] *)

Definition is_nan (x : spec_float) : bool :=
  match x with
  | S754_nan => true
  | _ => false
  end.

Definition digit (d : N) : N := 48 + d.

Fixpoint uint_digits (u : Decimal.uint) : str :=
  match u with
  | Nil => []
  | D0 u => digit 0 :: uint_digits u
  | D1 u => digit 1 :: uint_digits u
  | D2 u => digit 2 :: uint_digits u
  | D3 u => digit 3 :: uint_digits u
  | D4 u => digit 4 :: uint_digits u
  | D5 u => digit 5 :: uint_digits u
  | D6 u => digit 6 :: uint_digits u
  | D7 u => digit 7 :: uint_digits u
  | D8 u => digit 8 :: uint_digits u
  | D9 u => digit 9 :: uint_digits u
  end.

Definition decimal (n : N) : str := uint_digits (N.to_uint n).

(** [num / den] rounded to the nearest integer, ties to even: the rounding
    of [float.__format__]. *)
Definition round_half_even (num den : N) : N :=
  let q := num / den in
  let r := num mod den in
  if 2 * r <? den then q
  else if den <? 2 * r then q + 1
  else if N.even q then q else q + 1.

(** [m * 2^e] in millionths, rounded. *)
Definition millionths (m : positive) (e : Z) : N :=
  match e with
  | Zneg p => round_half_even (Npos m * 1000000) (2 ^ Npos p)
  | _ => Npos m * 1000000 * 2 ^ Z.to_N e
  end.

Definition six_digits (n : N) : str :=
  [digit (n / 100000 mod 10); digit (n / 10000 mod 10); digit (n / 1000 mod 10);
   digit (n / 100 mod 10); digit (n / 10 mod 10); digit (n mod 10)].

Definition fixed6 (n : N) : str :=
  decimal (n / 1000000) ++ lit "." ++ six_digits (n mod 1000000).

Definition sign_str (s : bool) : str := if s then lit "-" else [].

(** [f"{x:.6f}"] *)
Definition format_6f (x : spec_float) : str :=
  match x with
  | S754_nan => lit "nan"
  | S754_infinity s => sign_str s ++ lit "inf"
  | S754_zero s => sign_str s ++ fixed6 0
  | S754_finite s m e => sign_str s ++ fixed6 (millionths m e)
  end.

(** ** The generator

    [np.random.Generator] as the script uses it: a state that every draw
    advances. *)
Class Generator := {
  rng : Type;
  (** [rng.integers(low, high)] *)
  integers : rng → Z → Z → Z * rng;
  (** [rng.integers(low, high, size=n)] *)
  integers_n : rng → Z → Z → nat → list Z * rng;
}.

(** What numpy promises of the draws: they lie in [[low, high)], and an
    array draw has the size asked for. *)
Record generator_ok (G : Generator) : Prop := {
  integers_range g low high :
    (low < high)%Z → (low ≤ (integers g low high).1 < high)%Z;
  integers_n_length g low high n :
    length (integers_n g low high n).1 = n;
  integers_n_range g low high n :
    (low < high)%Z → Forall (λ i, (low ≤ i < high)%Z) (integers_n g low high n).1;
}.

Section Script.
Context {RT : Runtime} {G : Generator}.

(** [str(name)] *)
Definition py_str (c : cell) : str :=
  match c with
  | Str s => s
  | Num x => float_str x
  end.

(** [float(a)] *)
Definition as_float (c : cell) : result spec_float :=
  match c with
  | Num x => Ok x
  | Str s => raise_if_none ValueError (py_float s)
  end.

(** [pd.to_numeric(column, errors="coerce")], cell by cell *)
Definition to_numeric (c : cell) : spec_float :=
  match c with
  | Num x => x
  | Str s => to_numeric_str s
  end.

(** ** [normalize_species] *)

(** The two substitutions, the strip and the case folding, on the text of
    the name. *)
Definition normalize_text (s : str) : str :=
  let s := sub_parens s in
  let s := strip (sub_spaces s) in
  casefold s.

Definition normalize_species (name : cell) : str :=
  if isna name then []
  else normalize_text (py_str name).

(** ** [find_col] *)

Definition find_col (df : DataFrame) (candidates : list str) : result str :=
  let norm_map := (λ c, (c, casefold (strip (sub_spaces c)))) <$> names df in
  let targets := casefold <$> candidates in
  match list_find (λ cn, cn.2 ∈ targets) norm_map with
  | Some (_, (col, _)) => Ok col
  | None => Raise (ColumnNotFound candidates (names df))
  end.

(** ** [load_master] *)

Definition nombre_candidates : list str :=
  [lit "nombre de ave"; lit "nombre_de_ave"; lit "nombre"; lit "especie"; lit "species"].
Definition lat_candidates : list str := [lit "latitud"; lit "lat"].
Definition lon_candidates : list str :=
  [lit "longitud"; lit "lon"; lit "long"; lit "lopnong"].

(** [dropna(subset=["_nombre_norm", "_lat", "_lon"])] on the three columns
    that are read afterwards, row by row. *)
Definition dropna (rows : list (cell * (cell * cell))) : list (cell * (cell * cell)) :=
  filter (λ r, isna r.1 = false ∧ isna r.2.1 = false ∧ isna r.2.2 = false) rows.

(** The loop over [groupby("_nombre_norm")]: [rows] are the rows that
    [dropna] kept, as (name, (lat, lon)). *)
Definition index_rows (rows : list (str * (spec_float * spec_float)))
  : gmap (list N) (list (spec_float * spec_float)) :=
  foldl (λ master g,
           let coords := omap (λ i, snd <$> rows !! i) g.2 in
           match coords with
           | [] => master
           | _ => <[g.1 := coords]> master
           end)
        ∅ (groups (rows.*1)).

(** [dfm] is the frame that [read_csv] returned for the master table. *)
Definition load_master (dfm : DataFrame)
  : result (gmap (list N) (list (spec_float * spec_float))) :=
  do col_nombre <- find_col dfm nombre_candidates;
  do col_lat <- find_col dfm lat_candidates;
  do col_lon <- find_col dfm lon_candidates;
  do nombres <- get_col dfm col_nombre;
  let dfm := set_col dfm (lit "_nombre_norm") (Str <$> (normalize_species <$> nombres)) in
  do lats <- get_col dfm col_lat;
  let dfm := set_col dfm (lit "_lat") (Num <$> (to_numeric <$> lats)) in
  do lons <- get_col dfm col_lon;
  let dfm := set_col dfm (lit "_lon") (Num <$> (to_numeric <$> lons)) in
  do nombre_norm <- get_col dfm (lit "_nombre_norm");
  do lat <- get_col dfm (lit "_lat");
  do lon <- get_col dfm (lit "_lon");
  let kept := dropna (zip nombre_norm (zip lat lon)) in
  Ok (index_rows ((λ r, (py_str r.1, (to_numeric r.2.1, to_numeric r.2.2))) <$> kept)).

(** ** [assign_coords] *)

(** [out.loc[row, "lat"] = lat; out.loc[row, "lopnong"] = lon] *)
Definition place (out : DataFrame) (row : label) (c : spec_float * spec_float)
  : DataFrame :=
  loc_set (loc_set out row (lit "lat") (Num c.1)) row (lit "lopnong") (Num c.2).

(** The body of the loop over the groups. *)
Definition assign_group (master : gmap (list N) (list (spec_float * spec_float)))
    (st : DataFrame * rng) (g : str * list label) : result (DataFrame * rng) :=
  let sp := g.1 in
  let idx_list := g.2 in
  match master !! sp with
  | None | Some [] => Ok st
  | Some coords_list =>
      let k := Z.of_nat (length coords_list) in
      match idx_list with
      | [row] =>
          let draw := integers st.2 0 k in
          do c <- py_index coords_list draw.1;
          Ok (place st.1 row c, draw.2)
      | _ =>
          let draw := integers_n st.2 0 k (length idx_list) in
          do out <- foldM (λ out rc, do c <- py_index coords_list rc.2;
                                     Ok (place out rc.1 c))
                          st.1 (zip idx_list draw.1);
          Ok (out, draw.2)
      end
  end.

(** [fmt_pair]: the [try] turns a failing [float] into the empty text. *)
Definition fmt_pair (a b : cell) : str :=
  if isna a || isna b then []
  else match as_float a, as_float b with
       | Ok x, Ok y => format_6f x ++ lit "," ++ format_6f y
       | _, _ => []
       end.

(** [lambda x: "" if pd.isna(x) else f"{float(x):.6f}"] *)
Definition fmt_coord (x : cell) : result cell :=
  if isna x then Ok (Str [])
  else do f <- as_float x; Ok (Str (format_6f f)).

(** [Series.map] with a function that may raise *)
Fixpoint mapM {A B} (f : A → result B) (l : list A) : result (list B) :=
  match l with
  | [] => Ok []
  | a :: l' => do b <- f a; do bs <- mapM f l'; Ok (b :: bs)
  end.

(** [rng] is threaded through the loop; the frame and the generator it
    leaves behind are returned. *)
Definition assign_coords (df : DataFrame) (species_col : str)
    (master : gmap (list N) (list (spec_float * spec_float))) (g : rng)
  : result (DataFrame * rng) :=
  let out := df in
  do species <- get_col out species_col;
  let species_norm := normalize_species <$> species in
  let out := set_col out (lit "_species_norm") (Str <$> species_norm) in
  let out := set_col out (lit "lat") (replicate (nrows out) nan) in
  let out := set_col out (lit "lopnong") (replicate (nrows out) nan) in
  do st <- foldM (assign_group master) (out, g)
             (label_groups (index out) species_norm);
  let out := st.1 in
  do lat <- get_col out (lit "lat");
  do lon <- get_col out (lit "lopnong");
  let out := set_col out (lit "lat_lon") (Str <$> zip_with fmt_pair lat lon) in
  do lat' <- mapM fmt_coord lat;
  let out := set_col out (lit "lat") lat' in
  do lon' <- mapM fmt_coord lon;
  let out := set_col out (lit "lopnong") lon' in
  let out := drop_col out (lit "_species_norm") in
  Ok (out, st.2).

(** ** The no-match report of [main] *)

Definition species_candidates : list str :=
  [lit "species"; lit "especie"; lit "nombre de ave"; lit "nombre"].

Definition no_match_report (df : DataFrame) (species_col : str)
    (master : gmap (list N) (list (spec_float * spec_float))) : result (list str) :=
  do species <- get_col df species_col;
  let species_norm := normalize_species <$> species in
  let species_in_table : gset (list N) := list_to_set species_norm in
  Ok (sorted (filter (λ s, s ≠ [] ∧ master !! s = None) (elements species_in_table))).

(** [main] between reading the two tables and writing the results: the
    enriched table and the no-match report. *)
Definition main (df dfm : DataFrame) (seed : rng) : result (DataFrame * list str) :=
  do species_col <- find_col df species_candidates;
  do master <- load_master dfm;
  do st <- assign_coords df species_col master seed;
  do no_match <- no_match_report df species_col master;
  Ok (st.1, no_match).

End Script.

(** ** Vocabulary of the statements and proofs *)

Definition is_paren (c : N) : bool := (c =? LPAREN) || (c =? RPAREN).

(** The parentheses of a text, in order. *)
Definition parens (s : str) : str := filter (λ c, is_paren c = true) s.

(** An opening parenthesis with a closing one somewhere after it. *)
Fixpoint has_group (s : str) : bool :=
  match s with
  | [] => false
  | c :: r => ((c =? LPAREN) && bool_decide (RPAREN ∈ r)) || has_group r
  end.

(** The text starts with whitespace. *)
Definition hd_space (s : str) : bool :=
  match s with
  | c :: _ => is_space c
  | [] => false
  end.

(** Whitespace occurs only as single spaces; with [in_run], the text does
    not start with whitespace either. *)
Fixpoint tidy_from (in_run : bool) (s : str) : bool :=
  match s with
  | [] => true
  | c :: r =>
      if is_space c then negb in_run && (c =? SPACE) && tidy_from true r
      else tidy_from false r
  end.


(** What the proofs use of an entry of the case folding table: the code
    point is neither whitespace nor a parenthesis, its folding is not empty
    and holds no whitespace and no parenthesis, and no code point of the
    folding is folded again. *)
Definition entry_ok (kl : N * list N) : bool :=
  negb (is_space kl.1) && negb (is_paren kl.1)
  && match kl.2 with [] => false | _ => true end
  && forallb (λ x, negb (is_space x) && negb (is_paren x)
                   && match fold_lookup casefold_table x with
                      | None => true
                      | Some _ => false
                      end) kl.2.

(** Every entry of the table is found under its code point. *)
Definition entry_found (kl : N * list N) : bool :=
  match fold_lookup casefold_table kl.1 with
  | Some l => bool_decide (l = kl.2)
  | None => false
  end.

(** A decimal numeral with exactly six digits after the point: an optional
    minus sign, at least one digit, the point, six digits. *)
Definition is_digit (c : N) : bool := (48 <=? c) && (c <=? 57).

Fixpoint skip_digits (s : str) : str :=
  match s with
  | c :: r => if is_digit c then skip_digits r else s
  | [] => []
  end.

Definition unsigned_fixed6 (s : str) : bool :=
  match s with
  | c :: _ =>
      is_digit c &&
      match skip_digits s with
      | p :: frac => (p =? 46) && (length frac =? 6)%nat && forallb is_digit frac
      | [] => false
      end
  | [] => false
  end.

Definition is_fixed6 (s : str) : bool :=
  match s with
  | c :: r => if c =? 45 then unsigned_fixed6 r else unsigned_fixed6 s
  | [] => false
  end.

(** What [:.6f] prints for a float that is not [nan]: such a numeral, or
    [inf] with its sign. *)
Definition is_coordinate_text (s : str) : Prop :=
  is_fixed6 s = true ∨ s = lit "inf" ∨ s = lit "-inf".

(** A frame as [read_csv] builds it: distinct headers, and as many cells
    in every column as the index has labels. *)
Record wf_frame (df : DataFrame) : Prop := {
  wf_names : NoDup (names df);
  wf_length : Forall (λ p, length p.2 = nrows df) (columns df);
}.

(** The headers that [assign_coords] writes or removes. *)
Definition reserved : list str :=
  [lit "_species_norm"; lit "lat"; lit "lopnong"; lit "lat_lon"].

(** The four columns that the script resolves with [find_col], and the
    candidates it passes for each. *)
Inductive logical_column := TableSpecies | MasterName | MasterLat | MasterLon.

Definition candidates_of (lc : logical_column) : list str :=
  match lc with
  | TableSpecies => species_candidates
  | MasterName => nombre_candidates
  | MasterLat => lat_candidates
  | MasterLon => lon_candidates
  end.

(** *** The order in which the generator is consumed

    The draws of [assign_coords] spelled out from its loop: the groups are
    visited in the order of [groups]; a group with candidates takes one
    scalar draw when it has one row and one array draw otherwise; the k-th
    drawn index goes to the k-th row of the group.  The rows of a group are
    given by their labels in the loop, and by their positions where the
    order of the rows is stated. *)
Section Schedule.
Context {G : Generator} {A : Type}.

Definition draw (g : rng) (k : Z) (n : nat) : list Z * rng :=
  match n with
  | 1%nat => let d := integers g 0 k in ([d.1], d.2)
  | _ => integers_n g 0 k n
  end.

(** Every served row with the candidates of its species and the index drawn
    for it, in the order of the draws; and the generator left behind. *)
Fixpoint schedule (master : gmap (list N) (list (spec_float * spec_float)))
    (g : rng) (gs : list (str * list A))
  : list (A * (list (spec_float * spec_float) * Z)) * rng :=
  match gs with
  | [] => ([], g)
  | sp_idx :: gs' =>
      match master !! sp_idx.1 with
      | None | Some [] => schedule master g gs'
      | Some cands =>
          let d := draw g (Z.of_nat (length cands)) (length sp_idx.2) in
          let rest := schedule master d.2 gs' in
          (zip sp_idx.2 ((λ ch, (cands, ch)) <$> d.1) ++ rest.1, rest.2)
      end
  end.

End Schedule.

(** [coords_list[choice]] for one entry of the schedule *)
Definition pick {A} (e : A * (list (spec_float * spec_float) * Z))
  : result (A * (spec_float * spec_float)) :=
  do c <- py_index e.2.1 e.2.2; Ok (e.1, c).

(** The pair each row holds after the writes [pk], row by row; [None] for a
    row that was never written.  A write goes to every row that carries its
    label. *)
Definition assignment (idx : list label)
    (pk : list (label * (spec_float * spec_float)))
  : list (option (spec_float * spec_float)) :=
  foldl (λ a e, write_label idx e.1 (Some e.2) a) (replicate (length idx) None) pk.

Definition lat_cell (o : option (spec_float * spec_float)) : cell :=
  match o with Some c => Num c.1 | None => nan end.
Definition lon_cell (o : option (spec_float * spec_float)) : cell :=
  match o with Some c => Num c.2 | None => nan end.

(** The text of a coordinate in the output. *)
Definition coord_text (x : spec_float) : str :=
  if is_nan x then [] else format_6f x.

Definition lat_text (o : option (spec_float * spec_float)) : cell :=
  Str (match o with Some c => coord_text c.1 | None => [] end).
Definition lon_text (o : option (spec_float * spec_float)) : cell :=
  Str (match o with Some c => coord_text c.2 | None => [] end).
Definition pair_text (o : option (spec_float * spec_float)) : cell :=
  Str (match o with
       | Some c =>
           if is_nan c.1 || is_nan c.2 then []
           else format_6f c.1 ++ lit "," ++ format_6f c.2
       | None => []
       end).

(** The frame before the loop of [assign_coords], after the writes [pk] of
    the loop, and at the end, when the rows hold the pairs [a]. *)
Definition start (df : DataFrame) (species_norm : list str) : DataFrame :=
  set_col
    (set_col (set_col df (lit "_species_norm") (Str <$> species_norm))
       (lit "lat") (replicate (nrows df) nan))
    (lit "lopnong") (replicate (nrows df) nan).

Definition place_all (out : DataFrame)
    (pk : list (label * (spec_float * spec_float)))
  : DataFrame :=
  foldl (λ o e, place o e.1 e.2) out pk.

Definition finish (out : DataFrame) (a : list (option (spec_float * spec_float)))
  : DataFrame :=
  drop_col
    (set_col
       (set_col (set_col out (lit "lat_lon") (pair_text <$> a))
          (lit "lat") (lat_text <$> a))
       (lit "lopnong") (lon_text <$> a))
    (lit "_species_norm").

(** The cells of a column after the writes [pk], and a column of the frame
    after them: only [lat] and [lopnong] are written. *)
Definition writes (f : spec_float * spec_float → spec_float) (idx : list label)
    (pk : list (label * (spec_float * spec_float))) (v : list cell) : list cell :=
  foldl (λ v e, write_label idx e.1 (Num (f e.2)) v) v pk.

Definition written (idx : list label)
    (pk : list (label * (spec_float * spec_float)))
    (p : str * list cell) : str * list cell :=
  if decide (p.1 = lit "lat") then (p.1, writes fst idx pk p.2)
  else if decide (p.1 = lit "lopnong") then (p.1, writes snd idx pk p.2)
  else p.

(** The headers after [df[c] = v]. *)
Definition add_name (c : str) (l : list str) : list str :=
  if decide (c ∈ l) then l else l ++ [c].

(** *** Stand-ins used to evaluate the script on examples *)

(** A runtime for tables whose text cells never spell a number and whose
    name cells are text: no text converts to a float, and [float_str] is
    never reached. *)
Definition text_runtime : Runtime :=
  {| float_str := λ _, [];
     py_float := λ _, None;
     to_numeric_str := λ _, S754_nan |}.

(** A generator that counts: the state is the number of values drawn so
    far, and the n-th value is [n] reduced into the range asked for. *)
Definition counter_value (g low high : Z) : Z := (low + g `mod` (high - low))%Z.

Definition counter_rng : Generator :=
  {| rng := Z;
     integers := λ g low high, (counter_value g low high, (g + 1)%Z);
     integers_n := λ g low high n,
       ((λ i : nat, counter_value (g + Z.of_nat i) low high) <$> seq 0 n,
        (g + Z.of_nat n)%Z) |}.

(** 10.0, 20.0 and 0.1 as binary floats. *)
Definition f10 : spec_float := S754_finite false 5 1.
Definition f20 : spec_float := S754_finite false 5 2.
Definition f0_1 : spec_float := S754_finite false 3602879701896397 (-55).

(** The species has at least one candidate in the master index. *)
Definition has_candidates (master : gmap (list N) (list (spec_float * spec_float)))
    (sp : str) : bool :=
  match master !! sp with
  | Some (_ :: _) => true
  | _ => false
  end.

(** The positions of the rows that are served, in the order of the draws:
    the names with candidates in ascending order, and for each name its
    rows in row order. *)
Definition served_rows (master : gmap (list N) (list (spec_float * spec_float)))
    (species_norm : list str) : list nat :=
  mjoin ((λ k, indices_of k species_norm)
           <$> filter (λ k, has_candidates master k = true)
                 (sorted (remove_dups species_norm))).

(** The records of a frame: row by row, the cells in header order. *)
Definition records (df : DataFrame) : list (list (option cell)) :=
  (λ i, (λ p, p.2 !! i) <$> columns df) <$> seq 0 (nrows df).

(** *** Example tables *)

Definition sightings : DataFrame :=
  {| index := range_index 4;
     columns :=
       [(lit "id", [Str (lit "a"); Str (lit "b"); Str (lit "c"); Str (lit "d")]);
        (lit "Species",
         [Str (lit "Heron"); Str (lit "dodo"); Str (lit "HERON (grey)"); nan])] |}.

Definition heron_index : gmap (list N) (list (spec_float * spec_float)) :=
  {[ lit "heron" := [(f10, f20)] ]}.


(** A master table: two rows for the heron, one of them with a latitude
    that is not a number, and one row for the egret. *)
Definition master_table : DataFrame :=
  {| index := range_index 3;
     columns :=
       [(lit "Nombre de Ave",
         [Str (lit "Heron (Ardea)"); Str (lit "heron"); Str (lit "Egret")]);
        (lit "Lat", [Num f10; Str (lit "N/A"); Num f0_1]);
        (lit "LON", [Num f20; Num f20; Num f10])] |}.

Definition master_table_index : gmap (list N) (list (spec_float * spec_float)) :=
  {[ lit "heron" := [(f10, f20)]; lit "egret" := [(f0_1, f10)] ]}.

(** A master table with a row that has coordinates and no name. *)
Definition unnamed_master : DataFrame :=
  {| index := range_index 2;
     columns :=
       [(lit "nombre", [nan; Str (lit "(sin nombre)")]);
        (lit "lat", [Num f10; Num f0_1]);
        (lit "lon", [Num f20; Num f10])] |}.

(** A master table with a latitude that is infinite. *)
Definition polar_master : DataFrame :=
  {| index := range_index 1;
     columns :=
       [(lit "nombre", [Str (lit "Heron")]);
        (lit "lat", [Num (S754_infinity false)]);
        (lit "lon", [Num f20])] |}.

(** Sightings in a table that already has a column called [lat]. *)
Definition sightings_with_lat : DataFrame :=
  {| index := range_index 2;
     columns :=
       [(lit "lat", [Str (lit "north"); Str (lit "south")]);
        (lit "species", [Str (lit "Heron"); Str (lit "Dodo")]);
        (lit "_species_norm", [Str (lit "x"); Str (lit "y")])] |}.

Definition sightings_without_lat : DataFrame :=
  {| index := range_index 2;
     columns := [(lit "species", [Str (lit "Heron"); Str (lit "Dodo")])] |}.

(** Two species with two candidates each, and the same three sightings in
    two row orders. *)
Definition two_species_index : gmap (list N) (list (spec_float * spec_float)) :=
  {[ lit "egret" := [(f0_1, f10); (f10, f0_1)];
     lit "heron" := [(f10, f20); (f20, f10)] ]}.

Definition herons_abc : DataFrame :=
  {| index := range_index 3;
     columns :=
       [(lit "id", [Str (lit "a"); Str (lit "b"); Str (lit "c")]);
        (lit "species", [Str (lit "Heron"); Str (lit "Egret"); Str (lit "Heron")])] |}.

Definition herons_cba : DataFrame :=
  {| index := range_index 3;
     columns :=
       [(lit "id", [Str (lit "c"); Str (lit "b"); Str (lit "a")]);
        (lit "species", [Str (lit "Heron"); Str (lit "Egret"); Str (lit "Heron")])] |}.

(** What the script writes for [sightings] and [master_table]. *)
Definition enriched_sightings : DataFrame :=
  {| index := range_index 4;
     columns :=
       [(lit "id", [Str (lit "a"); Str (lit "b"); Str (lit "c"); Str (lit "d")]);
        (lit "Species",
         [Str (lit "Heron"); Str (lit "dodo"); Str (lit "HERON (grey)"); nan]);
        (lit "lat",
         [Str (lit "10.000000"); Str []; Str (lit "10.000000"); Str []]);
        (lit "lopnong",
         [Str (lit "20.000000"); Str []; Str (lit "20.000000"); Str []]);
        (lit "lat_lon",
         [Str (lit "10.000000,20.000000"); Str [];
          Str (lit "10.000000,20.000000"); Str []])] |}.

(** What it writes for [sightings] and [polar_master]. *)
Definition polar_sightings : DataFrame :=
  {| index := range_index 4;
     columns :=
       [(lit "id", [Str (lit "a"); Str (lit "b"); Str (lit "c"); Str (lit "d")]);
        (lit "Species",
         [Str (lit "Heron"); Str (lit "dodo"); Str (lit "HERON (grey)"); nan]);
        (lit "lat", [Str (lit "inf"); Str []; Str (lit "inf"); Str []]);
        (lit "lopnong",
         [Str (lit "20.000000"); Str []; Str (lit "20.000000"); Str []]);
        (lit "lat_lon",
         [Str (lit "inf,20.000000"); Str []; Str (lit "inf,20.000000"); Str []])] |}.

(** What [assign_coords] returns for the two tables above with
    [heron_index]. *)
Definition enriched_with_lat : DataFrame :=
  {| index := range_index 2;
     columns :=
       [(lit "lat", [Str (lit "10.000000"); Str []]);
        (lit "species", [Str (lit "Heron"); Str (lit "Dodo")]);
        (lit "lopnong", [Str (lit "20.000000"); Str []]);
        (lit "lat_lon", [Str (lit "10.000000,20.000000"); Str []])] |}.

Definition enriched_without_lat : DataFrame :=
  {| index := range_index 2;
     columns :=
       [(lit "species", [Str (lit "Heron"); Str (lit "Dodo")]);
        (lit "lat", [Str (lit "10.000000"); Str []]);
        (lit "lopnong", [Str (lit "20.000000"); Str []]);
        (lit "lat_lon", [Str (lit "10.000000,20.000000"); Str []])] |}.

(** What [assign_coords] returns for the two row orders with the counting
    generator started at 0. *)
Definition enriched_abc : DataFrame :=
  {| index := range_index 3;
     columns :=
       [(lit "id", [Str (lit "a"); Str (lit "b"); Str (lit "c")]);
        (lit "species", [Str (lit "Heron"); Str (lit "Egret"); Str (lit "Heron")]);
        (lit "lat",
         [Str (lit "20.000000"); Str (lit "0.100000"); Str (lit "10.000000")]);
        (lit "lopnong",
         [Str (lit "10.000000"); Str (lit "10.000000"); Str (lit "20.000000")]);
        (lit "lat_lon",
         [Str (lit "20.000000,10.000000"); Str (lit "0.100000,10.000000");
          Str (lit "10.000000,20.000000")])] |}.

Definition enriched_cba : DataFrame :=
  {| index := range_index 3;
     columns :=
       [(lit "id", [Str (lit "c"); Str (lit "b"); Str (lit "a")]);
        (lit "species", [Str (lit "Heron"); Str (lit "Egret"); Str (lit "Heron")]);
        (lit "lat",
         [Str (lit "20.000000"); Str (lit "0.100000"); Str (lit "10.000000")]);
        (lit "lopnong",
         [Str (lit "10.000000"); Str (lit "10.000000"); Str (lit "20.000000")]);
        (lit "lat_lon",
         [Str (lit "20.000000,10.000000"); Str (lit "0.100000,10.000000");
          Str (lit "10.000000,20.000000")])] |}.
(** ** The summary of [main]

    The three counts that [main] prints after writing: the rows of the
    table, the rows of the enriched table whose [lat] is not empty, and the
    names of the no-match report. *)
#[global] Instance spec_float_eq_dec : EqDecision spec_float.
Proof. solve_decision. Defined.

#[global] Instance cell_eq_dec : EqDecision cell.
Proof. solve_decision. Defined.

Definition summary (df enriched : DataFrame) (no_match : list str)
  : result (nat * nat * nat) :=
  do lat <- get_col enriched (lit "lat");
  let total := nrows df in
  let asignadas := length (filter (λ c, c ≠ Str []) lat) in
  let sin_match := length no_match in
  Ok (total, asignadas, sin_match).

(** ** Vocabulary of the further statements *)

(** The pairs of the master rows that carry the normalized name [k] and two
    numbers, in row order: what the index should hold for [k]. *)
Definition valid_pairs {RT : Runtime} (nombres lats lons : list cell) (k : str)
  : list (spec_float * spec_float) :=
  (λ r, (to_numeric r.2.1, to_numeric r.2.2))
    <$> filter (λ r, normalize_species r.1 = k
                     ∧ is_nan (to_numeric r.2.1) = false
                     ∧ is_nan (to_numeric r.2.2) = false)
          (zip nombres (zip lats lons)).

(** The rows of a table whose name has candidates. *)
Definition matched_rows {RT : Runtime}
    (master : gmap (list N) (list (spec_float * spec_float)))
    (species : list cell) : list cell :=
  filter (λ name, has_candidates master (normalize_species name) = true) species.


(** An index that has none of the names of [sightings]. *)
Definition egret_index : gmap (list N) (list (spec_float * spec_float)) :=
  {[ lit "egret" := [(f0_1, f10)] ]}.

(** The table in which a logical column is looked up. *)
Definition table_of (lc : logical_column) (df dfm : DataFrame) : DataFrame :=
  match lc with
  | TableSpecies => df
  | _ => dfm
  end.

(** Whitespace occurs in the text only as single spaces between other
    characters: every whitespace character is a space, no two spaces are
    adjacent, and the text neither starts nor ends with a space. *)
Definition trimmed_single_spaced (t : str) : Prop :=
  (∀ c, c ∈ t → is_space c = true → c = SPACE)
  ∧ (∀ i, t !! i = Some SPACE → t !! S i ≠ Some SPACE)
  ∧ head t ≠ Some SPACE
  ∧ last t ≠ Some SPACE.

(** The example table with two more sightings, of species that the master
    table does not have. *)
Definition sightings_more : DataFrame :=
  {| index := range_index 6;
     columns :=
       [(lit "id", [Str (lit "a"); Str (lit "b"); Str (lit "c"); Str (lit "d");
                    Str (lit "e"); Str (lit "f")]);
        (lit "Species",
         [Str (lit "Heron"); Str (lit "dodo"); Str (lit "HERON (grey)"); nan;
          Str (lit "Moa"); Str (lit "dodo")])] |}.

(** Tables read from files whose rows have one field more than the header,
    such as
<<
species
a,Heron
a,Egret
>>
    [read_csv] takes the first field of each row as its label, so both
    rows carry the label [a]. *)
Definition shared_label_sightings : DataFrame :=
  {| index := [Lbl 0; Lbl 0];
     columns := [(lit "species", [Str (lit "Heron"); Str (lit "Egret")])] |}.

Definition shared_label_dodo : DataFrame :=
  {| index := [Lbl 0; Lbl 0];
     columns := [(lit "species", [Str (lit "Heron"); Str (lit "Dodo")])] |}.

(** A table whose second header is [species] written with capitals, a long
    s (U+017F) and surplus whitespace: "  ſPECIES   " *)
Definition spaced_header : str :=
  [SPACE; SPACE; 383; 80; 69; 67; 73; 69; 83; SPACE; SPACE; SPACE].

Definition spaced_table : DataFrame :=
  {| index := range_index 1;
     columns := [(lit "id", [Str (lit "a")]); (spaced_header, [Str (lit "Heron")])] |}.

(** A master table without a latitude. *)
Definition master_without_lat : DataFrame :=
  {| index := range_index 1;
     columns := [(lit "nombre", [Str (lit "Heron")]); (lit "lon", [Num f20])] |}.

(** The message of an exception that the script raises itself.  There is
    one, the [KeyError] of [find_col], whose message is the f-string
    "No se encontró ninguna de las columnas esperadas: {candidates} en
    {list(df.columns)}": fixed words and the two lists as Python prints
    them.  The messages of the other exceptions are written by pandas and
    Python. *)
Inductive part :=
| Words (s : str)
| Listing (l : list str).

Definition message (e : exn) : option (list part) :=
  match e with
  | ColumnNotFound candidates columns =>
      Some [Words (lit "No se encontr" ++ [243]
                   ++ lit " ninguna de las columnas esperadas: ");
            Listing candidates;
            Words (lit " en ");
            Listing columns]
  | _ => None
  end.
(** ** Facts about code points *)

Lemma is_space_spec c :
  is_space c = true ↔
  (9 ≤ c ≤ 13 ∨ 28 ≤ c ≤ 32 ∨ c = 133 ∨ c = 160 ∨ c = 5760 ∨ 8192 ≤ c ≤ 8202
   ∨ c = 8232 ∨ c = 8233 ∨ c = 8239 ∨ c = 8287 ∨ c = 12288).
Proof.
  unfold is_space.
  rewrite !orb_true_iff, !andb_true_iff, !N.leb_le, !N.eqb_eq. tauto.
Qed.

Lemma not_space_spec c :
  is_space c = false ↔
  ¬ (9 ≤ c ≤ 13 ∨ 28 ≤ c ≤ 32 ∨ c = 133 ∨ c = 160 ∨ c = 5760 ∨ 8192 ≤ c ≤ 8202
     ∨ c = 8232 ∨ c = 8233 ∨ c = 8239 ∨ c = 8287 ∨ c = 12288).
Proof. rewrite <- is_space_spec. destruct (is_space c); naive_solver. Qed.

(** *** The case folding table *)

Lemma fold_lookup_Some t c l : fold_lookup t c = Some l → (c, l) ∈ t.
Proof.
  induction t as [|[k l'] t IH]; [done|]. cbn [fold_lookup].
  destruct (c <? k); [done|]. destruct (N.eqb_spec c k) as [->|_].
  - intros [= ->]. left.
  - intros H. right. by apply IH.
Qed.

Lemma forallb_Forall {A} (f : A → bool) l :
  forallb f l = true → Forall (λ x, f x = true) l.
Proof.
  rewrite forallb_forall, Forall_forall. intros H x Hx. by apply H, list_elem_of_In.
Qed.

Lemma casefold_table_ok : Forall (λ kl, entry_ok kl = true) casefold_table.
Proof. apply forallb_Forall. vm_compute. reflexivity. Qed.

Lemma casefold_table_found : Forall (λ kl, entry_found kl = true) casefold_table.
Proof. apply forallb_Forall. vm_compute. reflexivity. Qed.

(** A code point is left as it is, or it has an entry in the table. *)
Lemma casefold_char_cases c :
  (fold_lookup casefold_table c = None ∧ casefold_char c = [c])
  ∨ (entry_ok (c, casefold_char c) = true).
Proof.
  unfold casefold_char.
  destruct (fold_lookup casefold_table c) as [l|] eqn:Hl; [right|by left].
  apply fold_lookup_Some in Hl.
  pose proof casefold_table_ok as Hok. rewrite Forall_forall in Hok. by apply Hok.
Qed.

Lemma entry_ok_spec k l :
  entry_ok (k, l) = true →
  is_space k = false ∧ is_paren k = false ∧ l ≠ []
  ∧ Forall (λ x, is_space x = false ∧ is_paren x = false
                 ∧ fold_lookup casefold_table x = None) l.
Proof.
  unfold entry_ok. cbn [fst snd].
  rewrite !andb_true_iff, !negb_true_iff, forallb_forall.
  intros [[[Hs Hp] Hne] Hl]. split_and!; [done..|by destruct l|].
  apply Forall_forall. intros x Hx%list_elem_of_In%Hl.
  rewrite !andb_true_iff, !negb_true_iff in Hx. destruct Hx as [[? ?] Hx].
  split_and!; [done..|]. by destruct (fold_lookup casefold_table x).
Qed.

Lemma casefold_char_space c : is_space c = true → casefold_char c = [c].
Proof.
  intros Hc. destruct (casefold_char_cases c) as [[_ ?]|Hok]; [done|].
  apply entry_ok_spec in Hok as (Hs & _). congruence.
Qed.

Lemma casefold_char_not_space c x :
  is_space c = false → x ∈ casefold_char c → is_space x = false.
Proof.
  intros Hc Hx. destruct (casefold_char_cases c) as [[_ Heq]|Hok].
  - rewrite Heq in Hx. by apply list_elem_of_singleton in Hx as ->.
  - apply entry_ok_spec in Hok as (_ & _ & _ & Hl).
    rewrite Forall_forall in Hl. by apply Hl in Hx as [? _].
Qed.

Lemma casefold_char_nonempty c : casefold_char c ≠ [].
Proof.
  destruct (casefold_char_cases c) as [[_ ->]|Hok]; [done|].
  by apply entry_ok_spec in Hok as (_ & _ & ? & _).
Qed.

Lemma casefold_char_paren c : is_paren c = true → casefold_char c = [c].
Proof.
  intros Hc. destruct (casefold_char_cases c) as [[_ ?]|Hok]; [done|].
  apply entry_ok_spec in Hok as (_ & Hp & _). congruence.
Qed.

Lemma casefold_char_not_paren c x :
  is_paren c = false → x ∈ casefold_char c → is_paren x = false.
Proof.
  intros Hc Hx. destruct (casefold_char_cases c) as [[_ Heq]|Hok].
  - rewrite Heq in Hx. by apply list_elem_of_singleton in Hx as ->.
  - apply entry_ok_spec in Hok as (_ & _ & _ & Hl).
    rewrite Forall_forall in Hl. by apply Hl in Hx as (_ & ? & _).
Qed.

Lemma casefold_fixed l :
  Forall (λ x, fold_lookup casefold_table x = None) l → l ≫= casefold_char = l.
Proof.
  induction 1 as [|x l Hx _ IH]; [done|]. cbn [mbind list_bind].
  fold (l ≫= casefold_char). rewrite IH. unfold casefold_char. by rewrite Hx.
Qed.

Lemma casefold_char_idem c : casefold_char c ≫= casefold_char = casefold_char c.
Proof.
  destruct (casefold_char_cases c) as [[Hc Heq]|Hok].
  - rewrite Heq. apply casefold_fixed. by constructor.
  - apply entry_ok_spec in Hok as (_ & _ & _ & Hl). apply casefold_fixed.
    eapply Forall_impl; [exact Hl|]. by intros x (_ & _ & ?).
Qed.

Lemma casefold_cons c s : casefold (c :: s) = casefold_char c ++ casefold s.
Proof. done. Qed.

Lemma casefold_app a b : casefold (a ++ b) = casefold a ++ casefold b.
Proof. unfold casefold. apply bind_app. Qed.

Lemma casefold_idem s : casefold (casefold s) = casefold s.
Proof.
  induction s as [|c s IH]; [done|].
  rewrite casefold_cons, casefold_app, IH. f_equal. apply casefold_char_idem.
Qed.

Lemma space_not_paren c : is_space c = true → is_paren c = false.
Proof.
  rewrite is_space_spec. unfold is_paren, LPAREN, RPAREN.
  rewrite orb_false_iff, !N.eqb_neq. lia.
Qed.

(** *** [lstrip], [rstrip] *)

Lemma lstrip_suffix s :
  ∃ w, s = w ++ lstrip s ∧ Forall (λ c, is_space c = true) w.
Proof.
  induction s as [|c s (w & Hw & Hs)]; [by exists []|]. simpl.
  destruct (is_space c) eqn:Hc.
  - exists (c :: w). split; [by rewrite Hw at 1|by constructor].
  - by exists [].
Qed.

Lemma rstrip_prefix s :
  ∃ w, s = rstrip s ++ w ∧ Forall (λ c, is_space c = true) w.
Proof.
  destruct (lstrip_suffix (reverse s)) as (w & Hw & Hs).
  exists (reverse w). split.
  - unfold rstrip. rewrite <- reverse_app, <- Hw. by rewrite reverse_involutive.
  - by apply Forall_reverse.
Qed.

Lemma hd_space_lstrip s : hd_space (lstrip s) = false.
Proof. induction s as [|c s IH]; [done|]. simpl. by destruct (is_space c) eqn:Hc. Qed.

Lemma lstrip_id s : hd_space s = false → lstrip s = s.
Proof. destruct s as [|c s]; [done|]. simpl. by intros ->. Qed.

Lemma hd_space_prefix a w : hd_space (a ++ w) = false → hd_space a = false.
Proof. by destruct a. Qed.

Lemma hd_space_rstrip s : hd_space s = false → hd_space (rstrip s) = false.
Proof.
  destruct (rstrip_prefix s) as (w & Hw & _). rewrite Hw at 1. apply hd_space_prefix.
Qed.

Lemma hd_space_reverse_rstrip s : hd_space (reverse (rstrip s)) = false.
Proof. unfold rstrip. rewrite reverse_involutive. apply hd_space_lstrip. Qed.

Lemma strip_id s :
  hd_space s = false → hd_space (reverse s) = false → strip s = s.
Proof.
  intros H1 H2. unfold strip, rstrip. rewrite (lstrip_id s) by done.
  rewrite lstrip_id by done. apply reverse_involutive.
Qed.

(** *** Parentheses are left alone by everything but [sub_parens] *)

Lemma parens_cons c s :
  parens (c :: s) = if is_paren c then c :: parens s else parens s.
Proof.
  unfold parens. destruct (is_paren c) eqn:Hc.
  - by rewrite filter_cons_True.
  - rewrite filter_cons_False; [done|]. by rewrite Hc.
Qed.

Lemma parens_app a b : parens (a ++ b) = parens a ++ parens b.
Proof. apply filter_app. Qed.

Lemma parens_none l : Forall (λ c, is_paren c = false) l → parens l = [].
Proof.
  induction 1 as [|c l Hc _ IH]; [done|]. by rewrite parens_cons, Hc.
Qed.

Lemma parens_spaces w : Forall (λ c, is_space c = true) w → parens w = [].
Proof.
  induction 1 as [|c w Hc _ IH]; [done|].
  by rewrite parens_cons, (space_not_paren c), IH.
Qed.

Lemma parens_reverse s : parens (reverse s) = reverse (parens s).
Proof.
  induction s as [|c s IH]; [done|].
  rewrite reverse_cons, parens_app, IH, !parens_cons.
  destruct (is_paren c); simpl; [by rewrite reverse_cons|by rewrite app_nil_r].
Qed.

Lemma parens_lstrip s : parens (lstrip s) = parens s.
Proof.
  destruct (lstrip_suffix s) as (w & Hw & Hs).
  transitivity (parens (w ++ lstrip s)); [|by rewrite <- Hw].
  by rewrite parens_app, (parens_spaces w).
Qed.

Lemma parens_strip s : parens (strip s) = parens s.
Proof.
  unfold strip, rstrip.
  by rewrite parens_reverse, parens_lstrip, parens_reverse, reverse_involutive,
    parens_lstrip.
Qed.

Lemma parens_sub_spaces_from b s : parens (sub_spaces_from b s) = parens s.
Proof.
  revert b. induction s as [|c s IH]; intros b; [done|]. simpl.
  destruct (is_space c) eqn:Hc.
  - rewrite (parens_cons c), (space_not_paren c) by done.
    destruct b; [done|]. by rewrite parens_cons, IH.
  - by rewrite !parens_cons, IH.
Qed.

Lemma parens_casefold s : parens (casefold s) = parens s.
Proof.
  induction s as [|c s IH]; [done|].
  rewrite casefold_cons, parens_app, IH, parens_cons.
  destruct (is_paren c) eqn:Hc.
  - rewrite casefold_char_paren by done. by rewrite parens_cons, Hc.
  - replace (parens (casefold_char c)) with (@nil N); [done|].
    symmetry. apply parens_none, Forall_forall.
    intros x Hx. by apply (casefold_char_not_paren c x).
Qed.

Lemma elem_of_parens x s : is_paren x = true → x ∈ parens s ↔ x ∈ s.
Proof. intros Hx. unfold parens. rewrite list_elem_of_filter. tauto. Qed.

Lemma has_group_parens s : has_group (parens s) = has_group s.
Proof.
  induction s as [|c s IH]; [done|]. rewrite parens_cons. simpl.
  destruct (is_paren c) eqn:Hc; simpl; rewrite IH.
  - f_equal. f_equal. apply bool_decide_ext. by apply elem_of_parens.
  - unfold is_paren in Hc. apply orb_false_iff in Hc as [-> _]. done.
Qed.

Lemma has_group_app w s : has_group s = true → has_group (w ++ s) = true.
Proof.
  intros Hs. induction w as [|c w IH]; [done|]. simpl. rewrite IH.
  apply orb_true_r.
Qed.

(** *** [sub_parens] *)

Lemma find_close_Some s r : find_close s = Some r → ∃ w, s = w ++ RPAREN :: r.
Proof.
  revert r. induction s as [|c s IH]; intros r; [done|]. simpl.
  destruct (N.eqb_spec c RPAREN) as [->|_].
  - intros [= ->]. by exists [].
  - destruct (c =? LF); [done|]. intros (w & ->)%IH. by exists (c :: w).
Qed.

Lemma find_close_None s : find_close s = None → LF ∉ s → RPAREN ∉ s.
Proof.
  induction s as [|c s IH]; simpl; [intros _ _; apply not_elem_of_nil|].
  destruct (N.eqb_spec c RPAREN) as [->|Hc]; [done|].
  destruct (N.eqb_spec c LF) as [->|Hc'].
  - intros _ []. left.
  - rewrite !not_elem_of_cons. intros Hs [_ Hlf]. split; [done|by apply IH].
Qed.

Lemma match_parens_Some s rest :
  match_parens s = Some rest →
  ∃ w, s = w ++ rest ∧ w ≠ [] ∧ has_group s = true.
Proof.
  unfold match_parens. destruct (lstrip_suffix s) as (w & Hw & _).
  destruct (lstrip s) as [|c r] eqn:Hl; [done|].
  destruct (N.eqb_spec c LPAREN) as [->|_]; [|done].
  destruct (find_close r) as [r'|] eqn:Hr; [|done]. intros [= <-].
  apply find_close_Some in Hr as (w1 & ->).
  destruct (lstrip_suffix r') as (w2 & Hw2 & _).
  exists (w ++ LPAREN :: w1 ++ RPAREN :: w2). split_and!.
  - rewrite Hw at 1. rewrite Hw2 at 1. by simplify_list_eq.
  - by destruct w.
  - rewrite Hw. apply has_group_app. simpl.
    rewrite bool_decide_eq_true_2; [done|]. set_solver.
Qed.

Lemma sub_parens_from_drop k s : sub_parens_from k s = sub_parens (drop k s).
Proof.
  revert k. induction s as [|c s IH]; intros [|k]; try done. simpl. apply IH.
Qed.

Lemma sub_parens_cons c r :
  sub_parens (c :: r) =
    match match_parens (c :: r) with
    | Some rest => SPACE :: sub_parens rest
    | None => c :: sub_parens r
    end.
Proof.
  unfold sub_parens at 1. simpl.
  destruct (match_parens (c :: r)) as [rest|] eqn:Hm; [|done].
  rewrite sub_parens_from_drop. do 2 f_equal.
  apply match_parens_Some in Hm as (w & Hw & Hne & _).
  destruct w as [|c' w]; [done|]. simplify_list_eq.
  rewrite length_app. replace (length w + length rest - length rest)%nat with (length w) by lia.
  by rewrite drop_app_length.
Qed.

Lemma sub_parens_id s : has_group s = false → sub_parens s = s.
Proof.
  induction s as [|c s IH]; [done|]. intros Hs. rewrite sub_parens_cons.
  destruct (match_parens (c :: s)) as [rest|] eqn:Hm.
  - apply match_parens_Some in Hm as (_ & _ & _ & Hg). congruence.
  - simpl in Hs. apply orb_false_iff in Hs as [_ Hs]. by rewrite IH.
Qed.

Lemma elem_of_sub_parens x s : x ∈ sub_parens s → x = SPACE ∨ x ∈ s.
Proof.
  remember (length s) as n eqn:Hn. revert s Hn.
  induction n as [n IH] using lt_wf_ind. intros [|c r] ->.
  { by intros ?%elem_of_nil. }
  rewrite sub_parens_cons.
  destruct (match_parens (c :: r)) as [rest|] eqn:Hm.
  - apply match_parens_Some in Hm as (w & Hw & Hne & _).
    rewrite elem_of_cons. intros [->|Hx]; [by left|].
    assert (length rest < length (c :: r))%nat as Hlt.
    { rewrite Hw, length_app. destruct w; [done|]. simpl. lia. }
    destruct (IH _ Hlt rest eq_refl Hx) as [->|Hx']; [by left|].
    right. rewrite Hw. set_solver.
  - rewrite !elem_of_cons. intros [->|Hx]; [by right; left|].
    destruct (IH (length r) (Nat.lt_succ_diag_r _) r eq_refl Hx) as [->|Hx']; auto.
Qed.

Lemma has_group_sub_parens s : LF ∉ s → has_group (sub_parens s) = false.
Proof.
  remember (length s) as n eqn:Hn. revert s Hn.
  induction n as [n IH] using lt_wf_ind. intros [|c r] -> Hlf; [done|].
  rewrite sub_parens_cons.
  destruct (match_parens (c :: r)) as [rest|] eqn:Hm.
  - pose proof Hm as (w & Hw & Hne & _)%match_parens_Some.
    assert (length rest < length (c :: r))%nat as Hlt.
    { rewrite Hw, length_app. destruct w; [done|]. simpl. lia. }
    simpl. apply (IH _ Hlt rest eq_refl). rewrite Hw in Hlf. set_solver.
  - simpl. rewrite (IH (length r) (Nat.lt_succ_diag_r _) r eq_refl) by set_solver.
    rewrite orb_false_r. destruct (N.eqb_spec c LPAREN) as [->|_]; [|done].
    simpl. apply bool_decide_eq_false_2. intros [?|Hin]%elem_of_sub_parens; [done|].
    revert Hin. apply find_close_None; [|set_solver].
    unfold match_parens in Hm. simpl in Hm.
    by destruct (find_close r).
Qed.

(** *** [sub_spaces] *)

Lemma tidy_from_weaken s : tidy_from true s = true → tidy_from false s = true.
Proof. destruct s as [|c s]; [done|]. simpl. by destruct (is_space c). Qed.

Lemma sub_spaces_from_id b s : tidy_from b s = true → sub_spaces_from b s = s.
Proof.
  revert b. induction s as [|c s IH]; intros b; [done|]. simpl.
  destruct (is_space c).
  - rewrite !andb_true_iff, negb_true_iff, N.eqb_eq. intros [[-> ->] Hs].
    by rewrite IH.
  - intros Hs. by rewrite IH.
Qed.

Lemma tidy_sub_spaces_from b s : tidy_from b (sub_spaces_from b s) = true.
Proof.
  revert b. induction s as [|c s IH]; intros b; [done|]. simpl.
  destruct (is_space c) eqn:Hc.
  - destruct b; [apply IH|]. simpl. apply IH.
  - simpl. rewrite Hc. apply IH.
Qed.

Lemma tidy_from_app_l b a w : tidy_from b (a ++ w) = true → tidy_from b a = true.
Proof.
  revert b. induction a as [|c a IH]; intros b; [done|]. simpl.
  destruct (is_space c).
  - rewrite !andb_true_iff. intros [Hc Hs]. split; [done|by apply IH].
  - apply IH.
Qed.

Lemma tidy_from_app_r b w s :
  Forall (λ c, is_space c = true) w →
  tidy_from b (w ++ s) = true → tidy_from false s = true.
Proof.
  intros Hw. revert b. induction Hw as [|c w Hc _ IH]; intros b.
  - destruct b; [apply tidy_from_weaken|done].
  - simpl. rewrite Hc, !andb_true_iff. intros [_ ?]. eauto.
Qed.

Lemma tidy_strip s : tidy_from false s = true → tidy_from false (strip s) = true.
Proof.
  intros Hs. unfold strip.
  destruct (rstrip_prefix (lstrip s)) as (w & Hw & _).
  apply (tidy_from_app_l _ _ w). rewrite <- Hw.
  destruct (lstrip_suffix s) as (w' & Hw' & Hsp). rewrite Hw' in Hs.
  by apply tidy_from_app_r in Hs.
Qed.

Lemma tidy_from_not_space b l s :
  l ≠ [] → Forall (λ c, is_space c = false) l →
  tidy_from b (l ++ s) = tidy_from false s.
Proof.
  intros Hne Hl. revert b. induction Hl as [|c l Hc Hl IH]; intros b; [done|].
  simpl. rewrite Hc. destruct l as [|c' l]; [done|]. by apply IH.
Qed.

Lemma tidy_casefold b s : tidy_from b s = true → tidy_from b (casefold s) = true.
Proof.
  revert b. induction s as [|c s IH]; intros b; [done|].
  rewrite casefold_cons. simpl. destruct (is_space c) eqn:Hc.
  - rewrite casefold_char_space by done. simpl. rewrite Hc.
    rewrite !andb_true_iff. intros [Hb Hs]. split; [done|by apply IH].
  - intros Hs. rewrite tidy_from_not_space; [by apply IH|apply casefold_char_nonempty|].
    apply Forall_forall. intros x. by apply casefold_char_not_space.
Qed.

Lemma hd_space_casefold s : hd_space s = false → hd_space (casefold s) = false.
Proof.
  destruct s as [|c s]; [done|]. rewrite casefold_cons. simpl. intros Hc.
  pose proof (casefold_char_nonempty c) as Hne.
  pose proof (casefold_char_not_space c) as Hns.
  destruct (casefold_char c) as [|x l]; [done|]. simpl. apply Hns; [done|left].
Qed.

Lemma hd_space_reverse_casefold s :
  hd_space (reverse s) = false → hd_space (reverse (casefold s)) = false.
Proof.
  destruct s as [|c s _] using rev_ind; [done|].
  rewrite reverse_snoc, casefold_app, reverse_app. simpl.
  unfold casefold. simpl. rewrite app_nil_r. intros Hc.
  pose proof (casefold_char_nonempty c) as Hne.
  pose proof (casefold_char_not_space c) as Hns.
  destruct (casefold_char c) as [|x l _] using rev_ind; [done|].
  rewrite reverse_snoc. simpl. apply Hns; [done|]. set_solver.
Qed.

Section Idempotence.
Context {RT : Runtime}.

Lemma normalize_text_fixed t :
  has_group t = false → tidy_from false t = true →
  hd_space t = false → hd_space (reverse t) = false →
  casefold t = t → normalize_text t = t.
Proof.
  intros Hg Ht Hh Hr Hc. unfold normalize_text, sub_spaces.
  by rewrite sub_parens_id, sub_spaces_from_id, strip_id.
Qed.

Lemma normalize_text_idem s :
  LF ∉ s → normalize_text (normalize_text s) = normalize_text s.
Proof.
  intros Hs. apply normalize_text_fixed; unfold normalize_text.
  - rewrite <- has_group_parens, parens_casefold, parens_strip.
    unfold sub_spaces. rewrite parens_sub_spaces_from, has_group_parens.
    by apply has_group_sub_parens.
  - apply tidy_casefold, tidy_strip, tidy_sub_spaces_from.
  - apply hd_space_casefold, hd_space_rstrip, hd_space_lstrip.
  - apply hd_space_reverse_casefold, hd_space_reverse_rstrip.
  - apply casefold_idem.
Qed.

End Idempotence.

(** ** The order on text *)

Lemma str_le_cons x a y b :
  str_le (x :: a) (y :: b) ↔ x < y ∨ (x = y ∧ str_le a b).
Proof.
  unfold str_le. simpl.
  by rewrite orb_true_iff, andb_true_iff, N.ltb_lt, N.eqb_eq.
Qed.

#[global] Instance str_le_total : Total str_le.
Proof.
  intros a. induction a as [|x a IH]; intros [|y b]; try by (left + right).
  rewrite !str_le_cons. destruct (IH b); destruct (N.lt_total x y) as [|[|]];
    auto with lia.
Qed.

#[global] Instance str_le_trans : Transitive str_le.
Proof.
  intros a. induction a as [|x a IH]; intros [|y b] [|z c]; try done.
  rewrite !str_le_cons. intros [?|[-> ?]] [?|[-> ?]]; eauto with lia.
Qed.

#[global] Instance str_le_antisym : AntiSymm (=) str_le.
Proof.
  intros a. induction a as [|x a IH]; intros [|y b]; try done.
  rewrite !str_le_cons. intros [?|[-> ?]] [?|[? ?]]; try lia.
  f_equal. by apply IH.
Qed.

Lemma sorted_sorted l : StronglySorted str_le (sorted l).
Proof. apply StronglySorted_merge_sort; apply _. Qed.

Lemma sorted_perm l : sorted l ≡ₚ l.
Proof. apply merge_sort_Permutation. Qed.

Lemma elem_of_sorted x l : x ∈ sorted l ↔ x ∈ l.
Proof. by rewrite sorted_perm. Qed.

Lemma NoDup_sorted l : NoDup l → NoDup (sorted l).
Proof. by rewrite sorted_perm. Qed.

Lemma StronglySorted_lt l :
  NoDup l → StronglySorted str_le l → StronglySorted str_lt l.
Proof.
  intros Hnd Hs. induction Hs as [|x l Hs IH Hx]; [constructor|].
  apply NoDup_cons in Hnd as [Hx' Hnd]. constructor; [by apply IH|].
  apply Forall_forall. intros y Hy. split.
  - by eapply Forall_forall in Hx.
  - by intros ->.
Qed.

(** ** Frames *)

Lemma find_column_cons c' v cols c :
  find_column ((c', v) :: cols) c =
    if decide (c' = c) then Ok v else find_column cols c.
Proof.
  unfold find_column. simpl. case_decide; [done|].
  by destruct (list_find _ cols) as [[? [? ?]]|].
Qed.

Lemma find_column_Ok cols c v : find_column cols c = Ok v → (c, v) ∈ cols.
Proof.
  induction cols as [|[c' v'] cols IH]; [done|]. rewrite find_column_cons.
  case_decide as Hc; [intros [= ->]; subst; left|right; auto].
Qed.

Lemma find_column_Raise cols c e :
  find_column cols c = Raise e ↔ (c ∉ cols.*1) ∧ e = KeyError c.
Proof.
  induction cols as [|[c' v'] cols IH].
  - unfold find_column. simpl. rewrite elem_of_nil. naive_solver.
  - rewrite find_column_cons, fmap_cons, not_elem_of_cons. simpl.
    case_decide; [naive_solver|]. rewrite IH. naive_solver.
Qed.

Lemma find_column_set_eq cols c v : find_column (set_column cols c v) c = Ok v.
Proof.
  induction cols as [|[c' v'] cols IH]; simpl.
  - rewrite find_column_cons. by rewrite decide_True.
  - case_decide; rewrite find_column_cons; [by rewrite decide_True|].
    by rewrite decide_False.
Qed.

Lemma find_column_set_ne cols c v c' :
  c ≠ c' → find_column (set_column cols c v) c' = find_column cols c'.
Proof.
  intros Hne. induction cols as [|[c0 v0] cols IH]; simpl.
  - rewrite find_column_cons. by rewrite decide_False.
  - case_decide; subst; rewrite !find_column_cons.
    + by rewrite !(decide_False (P := c = c')).
    + by rewrite IH.
Qed.

Lemma names_set_column cols c v :
  (set_column cols c v).*1 = if decide (c ∈ cols.*1) then cols.*1 else cols.*1 ++ [c].
Proof.
  induction cols as [|[c0 v0] cols IH].
  - destruct (decide (c ∈ [].*1)) as [[]%elem_of_nil|]; done.
  - cbn [set_column]. rewrite fmap_cons.
    destruct (decide (c0 = c)) as [->|Hc]; rewrite ?fmap_cons; cbn [fst].
    + rewrite decide_True; [done|left].
    + rewrite IH. destruct (decide (c ∈ cols.*1)) as [Hin|Hin].
      * rewrite decide_True; [done|by right].
      * rewrite decide_False; [done|]. rewrite not_elem_of_cons. naive_solver.
Qed.

Lemma set_column_fresh cols c v :
  c ∉ (cols.*1) → set_column cols c v = cols ++ [(c, v)].
Proof.
  induction cols as [|[c0 v0] cols IH]; simpl; [done|].
  rewrite not_elem_of_cons. intros [Hne Hc]. rewrite decide_False by done.
  by rewrite IH.
Qed.

Lemma set_column_app_r cols1 cols2 c v :
  c ∉ (cols1.*1) → set_column (cols1 ++ cols2) c v = cols1 ++ set_column cols2 c v.
Proof.
  induction cols1 as [|[c0 v0] cols1 IH]; simpl; [done|].
  rewrite not_elem_of_cons. intros [Hne Hc]. rewrite decide_False by done.
  by rewrite IH.
Qed.

Lemma find_column_fmap (F : str * list cell → str * list cell) cols c :
  (∀ p, (F p).1 = p.1) →
  find_column (F <$> cols) c =
    match find_column cols c with
    | Ok v => Ok (F (c, v)).2
    | Raise e => Raise e
    end.
Proof.
  intros HF. induction cols as [|[c0 v0] cols IH]; [done|].
  rewrite fmap_cons. specialize (HF (c0, v0)).
  destruct (F (c0, v0)) as [c1 v1] eqn:HF'. simpl in HF. subst c1.
  rewrite !find_column_cons. case_decide; subst; [by rewrite HF'|done].
Qed.

Lemma find_column_filter_ne cols c c' :
  c ≠ c' → find_column (filter (λ p, p.1 ≠ c) cols) c' = find_column cols c'.
Proof.
  intros Hne. induction cols as [|[c0 v0] cols IH]; [done|].
  rewrite find_column_cons. destruct (decide (c0 = c)) as [->|Hc].
  - rewrite filter_cons_False by (simpl; tauto). by rewrite decide_False.
  - rewrite filter_cons_True by done. rewrite find_column_cons. by rewrite IH.
Qed.

(** ** [groupby] *)

Lemma elem_of_indices_of i k keys : i ∈ indices_of k keys ↔ keys !! i = Some k.
Proof.
  unfold indices_of. rewrite list_elem_of_filter, elem_of_seq. split; [tauto|].
  intros Hi. split; [done|]. apply lookup_lt_Some in Hi. lia.
Qed.

Lemma StronglySorted_filter_seq (P : nat → Prop) `{∀ i, Decision (P i)} a n :
  StronglySorted lt (filter P (seq a n)).
Proof.
  revert a. induction n as [|n IH]; intros a; [constructor|]. simpl.
  assert (Forall (lt a) (filter P (seq (S a) n))) as Hlt.
  { apply Forall_forall. intros j [_ Hj%elem_of_seq]%list_elem_of_filter. lia. }
  destruct (decide (P a)).
  - rewrite filter_cons_True by done. constructor; [apply IH|done].
  - rewrite filter_cons_False by done. apply IH.
Qed.

Lemma indices_of_sorted k keys : StronglySorted lt (indices_of k keys).
Proof. apply StronglySorted_filter_seq. Qed.

Lemma StronglySorted_lt_NoDup (l : list nat) : StronglySorted lt l → NoDup l.
Proof.
  induction 1 as [|x l _ IH Hx]; constructor; [|done].
  intros Hin. eapply Forall_forall in Hx; [|done]. lia.
Qed.

Lemma groups_keys keys : (groups keys).*1 = sorted (remove_dups keys).
Proof.
  unfold groups. rewrite <- list_fmap_compose.
  induction (sorted (remove_dups keys)) as [|k l IH]; [done|].
  by rewrite fmap_cons, IH.
Qed.

Lemma groups_keys_sorted keys : StronglySorted str_lt (groups keys).*1.
Proof.
  rewrite groups_keys. apply StronglySorted_lt; [|apply sorted_sorted].
  apply NoDup_sorted, NoDup_remove_dups.
Qed.

Lemma elem_of_groups k idx keys :
  (k, idx) ∈ groups keys ↔ k ∈ keys ∧ idx = indices_of k keys.
Proof.
  unfold groups. rewrite list_elem_of_fmap. split.
  - intros (k' & [= -> ->] & Hk). by rewrite elem_of_sorted, elem_of_remove_dups in Hk.
  - intros [Hk ->]. exists k. by rewrite elem_of_sorted, elem_of_remove_dups.
Qed.

(** ** [find_col] *)

Section FindCol.
Context {RT : Runtime}.

Lemma find_col_Ok df candidates col :
  find_col df candidates = Ok col ↔
  ∃ i, names df !! i = Some col
       ∧ casefold (strip (sub_spaces col)) ∈ casefold <$> candidates
       ∧ ∀ j c, names df !! j = Some c → (j < i)%nat →
                casefold (strip (sub_spaces c)) ∉ casefold <$> candidates.
Proof.
  unfold find_col. rewrite list_find_fmap.
  destruct (list_find _ (names df)) as [[i c]|] eqn:Hf; simpl.
  - apply list_find_Some in Hf as (Hi & Hc & Hfirst). simpl in *. split.
    + intros [= ->]. exists i. split_and!; [done..|]. intros j c' Hj Hlt. by eapply Hfirst.
    + intros (i' & Hi' & Hc' & Hfirst'). f_equal.
      destruct (Nat.lt_total i i') as [Hlt|[->|Hlt]].
      * by destruct (Hfirst' i c Hi Hlt).
      * congruence.
      * by destruct (Hfirst i' col Hi' Hlt).
  - split; [done|]. intros (i & Hi & Hc & _).
    eapply list_find_None, Forall_forall in Hf; [|by eapply list_elem_of_lookup_2].
    by destruct Hf.
Qed.

Lemma find_col_Raise df candidates e :
  find_col df candidates = Raise e ↔
  e = ColumnNotFound candidates (names df)
  ∧ ∀ c, c ∈ names df →
         casefold (strip (sub_spaces c)) ∉ casefold <$> candidates.
Proof.
  unfold find_col. rewrite list_find_fmap.
  destruct (list_find _ (names df)) as [[i c]|] eqn:Hf; simpl.
  - apply list_find_Some in Hf as (Hi & Hc & _). simpl in *. split; [done|].
    intros [_ Hno]. destruct (Hno c); [by eapply list_elem_of_lookup_2|done].
  - apply list_find_None in Hf. rewrite Forall_forall in Hf. split.
    + intros [= <-]. split; [done|]. intros c Hc. by apply Hf.
    + by intros [-> _].
Qed.

End FindCol.

(** ** The no-match report *)

Section Report.
Context {RT : Runtime}.

Lemma no_match_report_Ok df species_col master species :
  get_col df species_col = Ok species →
  no_match_report df species_col master =
    Ok (sorted (filter (λ s, s ≠ [] ∧ master !! s = None)
                  (elements (list_to_set (C := gset (list N))
                               (normalize_species <$> species))))).
Proof. intros Hs. unfold no_match_report. by rewrite Hs. Qed.

End Report.

(** ** The error monad *)

Lemma bind_Ok {A B} (m : result A) (k : A → result B) b :
  bind m k = Ok b ↔ ∃ a, m = Ok a ∧ k a = Ok b.
Proof.
  destruct m; simpl; split; try done.
  - intros Hk. eauto.
  - by intros (? & [= <-] & ?).
  - by intros (? & ? & _).
Qed.

(** ** [load_master] *)

Section LoadMaster.
Context {RT : Runtime}.

Lemma index_rows_lookup rows k cs :
  index_rows rows !! k = Some cs → cs ≠ [] ∧ ∀ c, c ∈ cs → (k, c) ∈ rows.
Proof.
  unfold index_rows.
  assert (∀ g, g ∈ groups (rows.*1) → g.2 = indices_of g.1 (rows.*1)) as Hgs.
  { intros [k' idx] Hg. by apply elem_of_groups in Hg as [_ ->]. }
  revert Hgs. generalize (groups (rows.*1)). intros gs.
  assert ((∅ : gmap (list N) (list (spec_float * spec_float))) !! k = Some cs →
          cs ≠ [] ∧ ∀ c, c ∈ cs → (k, c) ∈ rows) as Hinit by done.
  revert Hinit. generalize (∅ : gmap (list N) (list (spec_float * spec_float))).
  induction gs as [|g gs IH]; intros m Hm Hgs; [done|]. simpl.
  apply IH; [|intros g' Hg'; apply Hgs; by right].
  destruct (omap _ g.2) as [|c0 cs0] eqn:Hc; [done|].
  destruct (decide (g.1 = k)) as [<-|Hne]; [|by rewrite lookup_insert_ne].
  rewrite lookup_insert_eq. intros [= <-]. split; [done|].
  intros c. rewrite <- Hc, list_elem_of_omap. intros (i & Hi & Hr).
  rewrite Hgs in Hi by left. apply elem_of_indices_of in Hi.
  rewrite list_lookup_fmap in Hi.
  destruct (rows !! i) as [[k' c']|] eqn:Hrow; [|done]. simpl in *.
  simplify_eq. by eapply list_elem_of_lookup_2.
Qed.

Lemma load_master_lookup dfm master name cs :
  load_master dfm = Ok master → master !! name = Some cs →
  cs ≠ [] ∧ Forall (λ c, is_nan c.1 = false ∧ is_nan c.2 = false) cs.
Proof.
  unfold load_master. intros H Hcs.
  apply bind_Ok in H as (col_nombre & _ & H). apply bind_Ok in H as (col_lat & _ & H).
  apply bind_Ok in H as (col_lon & _ & H). apply bind_Ok in H as (nombres & _ & H).
  apply bind_Ok in H as (lats & _ & H). apply bind_Ok in H as (lons & _ & H).
  apply bind_Ok in H as (nombre_norm & Hn & H). apply bind_Ok in H as (lat & Hlat & H).
  apply bind_Ok in H as (lon & Hlon & H).
  unfold get_col, set_col in Hn, Hlat, Hlon. cbn [columns] in Hn, Hlat, Hlon.
  rewrite !find_column_set_ne, find_column_set_eq in Hn by done.
  rewrite find_column_set_ne, find_column_set_eq in Hlat by done.
  rewrite find_column_set_eq in Hlon. simplify_eq.
  apply index_rows_lookup in Hcs as [Hne Hin]. split; [done|].
  apply Forall_forall.
  intros c ([rn [ra rb]] & [= Hname Hc] & Hr%list_elem_of_filter)%Hin%list_elem_of_fmap.
  destruct Hr as [(_ & Hlat & Hlon) Hr]. simpl in *.
  pose proof Hr as Hr1%elem_of_zip_r. pose proof Hr1 as Hlat'%elem_of_zip_l.
  apply elem_of_zip_r in Hr1 as Hlon'.
  apply list_elem_of_fmap in Hlat' as (a & -> & _).
  apply list_elem_of_fmap in Hlon' as (b & -> & _).
  subst c. simpl. by destruct a, b.
Qed.

End LoadMaster.

(** ** [assign_coords] *)

Lemma mapM_app {A B} (f : A → result B) l1 l2 :
  mapM f (l1 ++ l2) = do a <- mapM f l1; do b <- mapM f l2; Ok (a ++ b).
Proof.
  induction l1 as [|x l1 IH]; simpl.
  - by destruct (mapM f l2).
  - destruct (f x); simpl; [|done]. rewrite IH.
    destruct (mapM f l1); simpl; [|done]. by destruct (mapM f l2).
Qed.

Lemma mapM_Ok {A B} (f : A → result B) l l' :
  mapM f l = Ok l' ↔ Forall2 (λ a b, f a = Ok b) l l'.
Proof.
  revert l'. induction l as [|a l IH]; intros l'; simpl.
  - split; [intros [= <-]; constructor|by intros ->%Forall2_nil_inv_l].
  - split.
    + intros (b & Hb & (bs & Hbs & [= <-])%bind_Ok)%bind_Ok.
      constructor; [done|by apply IH].
    + intros (b & bs & Hb & Hbs & ->)%Forall2_cons_inv_l.
      rewrite Hb. simpl. apply IH in Hbs as ->. done.
Qed.

Lemma place_all_app out pk1 pk2 :
  place_all out (pk1 ++ pk2) = place_all (place_all out pk1) pk2.
Proof. apply foldl_app. Qed.

Lemma py_index_Ok {A} (l : list A) i c : py_index l i = Ok c → c ∈ l.
Proof.
  unfold py_index.
  repeat case_match; try done;
    match goal with |- context [l !! ?j] => destruct (l !! j) eqn:Hl end;
    simpl; intros [= <-]; by eapply list_elem_of_lookup_2.
Qed.

Lemma py_index_in_range {A} (l : list A) i :
  (0 ≤ i < Z.of_nat (length l))%Z → ∃ c, py_index l i = Ok c.
Proof.
  intros Hi. unfold py_index. rewrite (proj2 (Z.leb_le _ _)) by lia.
  destruct (lookup_lt_is_Some_2 l (Z.to_nat i)) as [c Hc]; [lia|].
  exists c. by rewrite Hc.
Qed.

Section Assign.
Context {RT : Runtime} {G : Generator}.

Lemma assign_rows_schedule cands out idx choices :
  foldM (λ out rc, do c <- py_index cands rc.2; Ok (place out rc.1 c))
        out (zip idx choices)
  = do pk <- mapM pick (zip idx ((λ ch, (cands, ch)) <$> choices));
    Ok (place_all out pk).
Proof.
  revert out choices. induction idx as [|row idx IH]; intros out [|ch choices];
    try done. simpl. unfold pick at 1. simpl.
  destruct (py_index cands ch) as [c|]; simpl; [|done]. rewrite IH.
  by destruct (mapM pick _).
Qed.

Lemma assign_group_schedule master out g sp_idx :
  assign_group master (out, g) sp_idx
  = do pk <- mapM pick (schedule master g [sp_idx]).1;
    Ok (place_all out pk, (schedule master g [sp_idx]).2).
Proof.
  unfold assign_group. destruct sp_idx as [sp idx]. cbn [schedule fst snd].
  destruct (master !! sp) as [[|c0 cands]|]; [done| |done].
  destruct idx as [|row [|row' idx]]; cbn -[zip Z.of_nat mapM foldM].
  - done.
  - unfold pick. simpl. by destruct (py_index _ _).
  - rewrite app_nil_r.
    destruct (integers_n g 0 _ _) as [choices g'] eqn:Hd. cbn [fst snd].
    rewrite (assign_rows_schedule (c0 :: cands) out (row :: row' :: idx) choices).
    by destruct (mapM pick _).
Qed.

Lemma schedule_cons {A} master g (sp_idx : str * list A) gs :
  schedule master g (sp_idx :: gs)
  = let one := schedule master g [sp_idx] in
    let rest := schedule master one.2 gs in
    (one.1 ++ rest.1, rest.2).
Proof.
  simpl. destruct (master !! sp_idx.1) as [[|c0 cands]|]; simpl;
    try by destruct (schedule master g gs).
  by rewrite app_nil_r.
Qed.

Lemma assign_loop_schedule master out g gs :
  foldM (assign_group master) (out, g) gs
  = do pk <- mapM pick (schedule master g gs).1;
    Ok (place_all out pk, (schedule master g gs).2).
Proof.
  revert out g. induction gs as [|sp_idx gs IH]; intros out g; [done|].
  rewrite schedule_cons. cbn [foldM fst snd]. rewrite assign_group_schedule.
  rewrite mapM_app.
  destruct (mapM pick (schedule master g [sp_idx]).1) as [pk1|]; simpl; [|done].
  rewrite IH. destruct (mapM pick _) as [pk2|]; simpl; [|done].
  by rewrite place_all_app.
Qed.

End Assign.

(** *** The frame after the loop *)

Lemma length_write_label {A} idx l (x : A) v :
  length v = length idx → length (write_label idx l x v) = length idx.
Proof. intros Hv. unfold write_label. rewrite length_zip_with. lia. Qed.

Lemma write_label_lookup {A} idx l (x : A) v i l' y :
  idx !! i = Some l' → v !! i = Some y →
  write_label idx l x v !! i = Some (if decide (l' = l) then x else y).
Proof.
  intros Hi Hv. unfold write_label. apply lookup_zip_with_Some. by exists l', y.
Qed.

Lemma write_label_fmap {A B} (f : A → B) idx l x v :
  write_label idx l (f x) (f <$> v) = f <$> write_label idx l x v.
Proof.
  unfold write_label. revert v. induction idx as [|l' idx IH]; intros [|y v]; try done.
  cbn [fmap list_fmap zip_with]. fold (f <$> v). rewrite IH. f_equal.
  by case_decide.
Qed.

Lemma written_name idx pk p : (written idx pk p).1 = p.1.
Proof. unfold written. by repeat case_decide. Qed.

Lemma index_place_all out pk : index (place_all out pk) = index out.
Proof.
  revert out. induction pk as [|e pk IH]; intros out; [done|].
  unfold place_all in *. cbn [foldl]. by rewrite IH.
Qed.

Lemma columns_place_all out pk :
  columns (place_all out pk) = written (index out) pk <$> columns out.
Proof.
  revert out. induction pk as [|e pk IH]; intros out.
  - simpl. rewrite <- (list_fmap_id (columns out)) at 1.
    apply list_fmap_ext. intros _ [c v] _. unfold written, writes. simpl.
    by repeat case_decide.
  - unfold place_all in *. cbn [foldl]. rewrite IH. unfold place, loc_set.
    cbn [columns index]. rewrite <- !list_fmap_compose.
    apply list_fmap_ext. intros _ [c v] _. unfold written, compose, writes.
    cbn [fst snd foldl].
    repeat (case_decide; cbn [fst snd] in *); by simplify_eq.
Qed.

Lemma nrows_place_all out pk : nrows (place_all out pk) = nrows out.
Proof. unfold nrows. by rewrite index_place_all. Qed.

Lemma writes_assignment_lat idx pk a :
  writes fst idx pk (lat_cell <$> a)
  = lat_cell <$> foldl (λ a e, write_label idx e.1 (Some e.2) a) a pk.
Proof.
  revert a. induction pk as [|e pk IH]; intros a; [done|].
  unfold writes in *. cbn [foldl]. rewrite <- IH.
  by rewrite <- (write_label_fmap lat_cell).
Qed.

Lemma writes_assignment_lon idx pk a :
  writes snd idx pk (lon_cell <$> a)
  = lon_cell <$> foldl (λ a e, write_label idx e.1 (Some e.2) a) a pk.
Proof.
  revert a. induction pk as [|e pk IH]; intros a; [done|].
  unfold writes in *. cbn [foldl]. rewrite <- IH.
  by rewrite <- (write_label_fmap lon_cell).
Qed.

Lemma get_col_start_lat df norm :
  get_col (start df norm) (lit "lat") = Ok (replicate (nrows df) nan).
Proof.
  unfold get_col, start, set_col. cbn [columns].
  rewrite find_column_set_ne by done. apply find_column_set_eq.
Qed.

Lemma get_col_start_lon df norm :
  get_col (start df norm) (lit "lopnong") = Ok (replicate (nrows df) nan).
Proof. unfold get_col, start, set_col. cbn [columns]. apply find_column_set_eq. Qed.

Lemma get_col_placed_lat df norm pk :
  get_col (place_all (start df norm) pk) (lit "lat")
  = Ok (lat_cell <$> assignment (index df) pk).
Proof.
  unfold get_col. rewrite columns_place_all.
  rewrite find_column_fmap by apply written_name.
  fold (get_col (start df norm) (lit "lat")). rewrite get_col_start_lat.
  unfold written. cbn [fst snd]. rewrite decide_True by done. cbn [snd].
  change (index (start df norm)) with (index df).
  unfold assignment, nrows. rewrite <- writes_assignment_lat. by rewrite fmap_replicate.
Qed.

Lemma get_col_placed_lon df norm pk :
  get_col (place_all (start df norm) pk) (lit "lopnong")
  = Ok (lon_cell <$> assignment (index df) pk).
Proof.
  unfold get_col. rewrite columns_place_all.
  rewrite find_column_fmap by apply written_name.
  fold (get_col (start df norm) (lit "lopnong")). rewrite get_col_start_lon.
  unfold written. cbn [fst snd]. rewrite decide_False by done.
  rewrite decide_True by done. cbn [snd].
  change (index (start df norm)) with (index df).
  unfold assignment, nrows. rewrite <- writes_assignment_lon. by rewrite fmap_replicate.
Qed.

Section Finish.
Context {RT : Runtime}.

Lemma fmt_pair_cells o :
  Str (fmt_pair (lat_cell o) (lon_cell o)) = pair_text o.
Proof.
  destruct o as [[a b]|]; [|done]. unfold fmt_pair, pair_text. simpl.
  by destruct a, b.
Qed.

Lemma zip_with_fmt_pair a :
  Str <$> zip_with fmt_pair (lat_cell <$> a) (lon_cell <$> a) = pair_text <$> a.
Proof.
  induction a as [|o a IH]; [done|]. cbn [fmap list_fmap zip_with].
  f_equal; [apply fmt_pair_cells|apply IH].
Qed.

Lemma mapM_fmt_coord_lat a :
  mapM fmt_coord (lat_cell <$> a) = Ok (lat_text <$> a).
Proof.
  induction a as [|o a IH]; [done|]. cbn [fmap list_fmap mapM].
  fold (lat_cell <$> a). rewrite IH.
  destruct o as [[x y]|]; [|done]. unfold fmt_coord, lat_text, coord_text. simpl.
  by destruct x.
Qed.

Lemma mapM_fmt_coord_lon a :
  mapM fmt_coord (lon_cell <$> a) = Ok (lon_text <$> a).
Proof.
  induction a as [|o a IH]; [done|]. cbn [fmap list_fmap mapM].
  fold (lon_cell <$> a). rewrite IH.
  destruct o as [[x y]|]; [|done]. unfold fmt_coord, lon_text, coord_text. simpl.
  by destruct y.
Qed.

Context {G : Generator}.

(** [assign_coords] in one equation: it fails when the name column is
    missing or an index drawn is out of range, and otherwise writes what the
    schedule says and formats it. *)
Lemma assign_coords_unfold df species_col master g :
  assign_coords df species_col master g
  = do species <- get_col df species_col;
    let norm := normalize_species <$> species in
    let plan := schedule master g (label_groups (index df) norm) in
    do pk <- mapM pick plan.1;
    Ok (finish (place_all (start df norm) pk) (assignment (index df) pk), plan.2).
Proof.
  unfold assign_coords. destruct (get_col df species_col) as [species|]; [|done].
  cbn [bind]. cbv zeta.
  change (set_col (set_col (set_col df (lit "_species_norm") ?v) (lit "lat") _)
            (lit "lopnong") _) with (start df (normalize_species <$> species)).
  change (index (start df (normalize_species <$> species))) with (index df).
  rewrite assign_loop_schedule.
  destruct (mapM pick _) as [pk|]; [|done]. cbn [bind fst snd].
  rewrite get_col_placed_lat, get_col_placed_lon. cbn [bind].
  rewrite mapM_fmt_coord_lat, mapM_fmt_coord_lon. cbn [bind].
  by rewrite zip_with_fmt_pair.
Qed.

End Finish.
(** *** The frame at the end *)

Lemma get_col_finish_lat out a : get_col (finish out a) (lit "lat") = Ok (lat_text <$> a).
Proof.
  unfold get_col, finish, drop_col, set_col. cbn [columns].
  rewrite find_column_filter_ne by done. rewrite find_column_set_ne by done.
  apply find_column_set_eq.
Qed.

Lemma get_col_finish_lon out a :
  get_col (finish out a) (lit "lopnong") = Ok (lon_text <$> a).
Proof.
  unfold get_col, finish, drop_col, set_col. cbn [columns].
  rewrite find_column_filter_ne by done. apply find_column_set_eq.
Qed.

Lemma get_col_finish_pair out a :
  get_col (finish out a) (lit "lat_lon") = Ok (pair_text <$> a).
Proof.
  unfold get_col, finish, drop_col, set_col. cbn [columns].
  rewrite find_column_filter_ne by done. rewrite !find_column_set_ne by done.
  apply find_column_set_eq.
Qed.

Lemma not_reserved c :
  c ∉ reserved ↔
  c ≠ lit "_species_norm" ∧ c ≠ lit "lat" ∧ c ≠ lit "lopnong" ∧ c ≠ lit "lat_lon".
Proof. unfold reserved. rewrite !not_elem_of_cons. pose proof (not_elem_of_nil c). tauto. Qed.

Lemma get_col_finish_other df norm pk a c :
  c ∉ reserved →
  get_col (finish (place_all (start df norm) pk) a) c = get_col df c.
Proof.
  intros (Hsn & Hlat & Hlon & Hll)%not_reserved.
  unfold get_col, finish, drop_col, set_col. cbn [columns].
  rewrite find_column_filter_ne by done. rewrite !find_column_set_ne by done.
  rewrite columns_place_all. rewrite find_column_fmap by apply written_name.
  unfold start, set_col. cbn [columns]. rewrite !find_column_set_ne by done.
  destruct (find_column (columns df) c) as [v|]; [|done].
  unfold written. cbn [fst]. by rewrite !decide_False.
Qed.

Lemma index_finish df norm pk a :
  index (finish (place_all (start df norm) pk) a) = index df.
Proof. unfold finish. cbn [index drop_col set_col]. by rewrite index_place_all. Qed.

Lemma nrows_finish df norm pk a :
  nrows (finish (place_all (start df norm) pk) a) = nrows df.
Proof. unfold nrows. by rewrite index_finish. Qed.

Lemma names_place_all out pk : names (place_all out pk) = names out.
Proof.
  unfold names. rewrite columns_place_all, <- list_fmap_compose.
  apply list_fmap_ext. intros _ p _. apply written_name.
Qed.

Lemma names_drop_col out c : names (drop_col out c) = filter (λ c', c' ≠ c) (names out).
Proof.
  unfold names, drop_col. cbn [columns].
  induction (columns out) as [|[c' v] cols IH]; [done|].
  rewrite fmap_cons. cbn [fst]. destruct (decide (c' = c)) as [->|Hne].
  - rewrite !filter_cons_False by (cbn; tauto). apply IH.
  - rewrite !filter_cons_True by done. rewrite fmap_cons. by rewrite IH.
Qed.

Lemma species_norm_dropped out a : lit "_species_norm" ∉ names (finish out a).
Proof.
  unfold finish. rewrite names_drop_col. intros [Hne _]%list_elem_of_filter. done.
Qed.

Lemma written_other idx pk cols :
  lit "lat" ∉ cols.*1 → lit "lopnong" ∉ cols.*1 → written idx pk <$> cols = cols.
Proof.
  intros Hlat Hlon. rewrite <- (list_fmap_id cols) at 2.
  apply list_fmap_ext. intros i [c v] Hi. unfold written. cbn [fst].
  assert (c ∈ cols.*1) as Hc.
  { apply list_elem_of_fmap. exists (c, v). split; [done|by eapply list_elem_of_lookup_2]. }
  rewrite !decide_False; [done|by intros ->..].
Qed.

Lemma filter_drop_none (cols : list (str * list cell)) c :
  c ∉ cols.*1 → filter (λ p, p.1 ≠ c) cols = cols.
Proof.
  induction cols as [|[c' v] cols IH]; [done|]. rewrite fmap_cons, not_elem_of_cons.
  intros [Hne Hc]. rewrite filter_cons_True by (cbn; by intros ->). by rewrite IH.
Qed.

Lemma finish_fresh df norm pk a :
  (∀ c, c ∈ reserved → c ∉ names df) →
  columns (finish (place_all (start df norm) pk) a)
  = columns df ++ [(lit "lat", lat_text <$> a); (lit "lopnong", lon_text <$> a);
                   (lit "lat_lon", pair_text <$> a)].
Proof.
  intros Hfresh. unfold names in Hfresh.
  assert (lit "_species_norm" ∉ (columns df).*1) as Hsn by (apply Hfresh; set_solver).
  assert (lit "lat" ∉ (columns df).*1) as Hlat by (apply Hfresh; set_solver).
  assert (lit "lopnong" ∉ (columns df).*1) as Hlon by (apply Hfresh; set_solver).
  assert (lit "lat_lon" ∉ (columns df).*1) as Hll by (apply Hfresh; set_solver).
  unfold finish, drop_col, set_col. cbn [columns].
  rewrite columns_place_all. unfold start, set_col. cbn [columns].
  rewrite (set_column_fresh (columns df)) by done.
  rewrite (set_column_app_r (columns df)) by done.
  rewrite (set_column_app_r (columns df)) by done.
  rewrite fmap_app, written_other by done.
  rewrite (set_column_app_r (columns df) _ (lit "lat_lon")) by done.
  rewrite (set_column_app_r (columns df) _ (lit "lat")) by done.
  rewrite (set_column_app_r (columns df) _ (lit "lopnong")) by done.
  rewrite filter_app. f_equal. by apply filter_drop_none.
Qed.

Lemma names_set_col df c v : names (set_col df c v) = add_name c (names df).
Proof. apply names_set_column. Qed.

Lemma elem_of_add_name c c' l : c' ∈ add_name c l ↔ c' = c ∨ c' ∈ l.
Proof. unfold add_name. case_decide; set_solver. Qed.

Lemma filter_add_name (P : str → Prop) `{∀ c, Decision (P c)} c l :
  filter P (add_name c l) =
    filter P l ++ (if decide (c ∈ l) then [] else if decide (P c) then [c] else []).
Proof.
  unfold add_name. case_decide; [by rewrite app_nil_r|].
  by rewrite filter_app.
Qed.

Lemma add_name_elem c l : c ∈ l → add_name c l = l.
Proof. intros Hc. unfold add_name. by rewrite decide_True. Qed.

Lemma filter_new_name c (seen l : list str) :
  (c ∈ seen ↔ c ∈ l) → c ≠ lit "_species_norm" →
  (if decide (c ∈ seen) then []
   else if decide (c ≠ lit "_species_norm") then [c] else [])
  = filter (λ c, c ∉ l) [c].
Proof.
  intros Hseen Hc. rewrite filter_cons, filter_nil.
  destruct (decide (c ∈ seen)) as [Hin|Hin].
  - rewrite decide_False; [done|]. intros Hl. by apply Hl, Hseen.
  - rewrite decide_True by done. rewrite decide_True; [done|].
    intros Hl. by apply Hin, Hseen.
Qed.

Lemma filter_added_names (l : list str) :
  filter (λ c, c ≠ lit "_species_norm")
    (add_name (lit "lopnong")
       (add_name (lit "lat")
          (add_name (lit "lat_lon")
             (add_name (lit "lopnong")
                (add_name (lit "lat") (add_name (lit "_species_norm") l))))))
  = filter (λ c, c ≠ lit "_species_norm") l
    ++ filter (λ c, c ∉ l) [lit "lat"; lit "lopnong"; lit "lat_lon"].
Proof.
  rewrite (add_name_elem (lit "lat") (add_name (lit "lat_lon") _))
    by (rewrite !elem_of_add_name; tauto).
  rewrite (add_name_elem (lit "lopnong") (add_name (lit "lat_lon") _))
    by (rewrite !elem_of_add_name; tauto).
  rewrite !filter_add_name, <- !app_assoc. f_equal.
  change [lit "lat"; lit "lopnong"; lit "lat_lon"]
    with ([lit "lat"] ++ [lit "lopnong"] ++ [lit "lat_lon"]).
  rewrite !filter_app.
  rewrite (filter_new_name (lit "lat") _ l), (filter_new_name (lit "lopnong") _ l),
    (filter_new_name (lit "lat_lon") _ l); try done.
  - by destruct (decide (lit "_species_norm" ∈ l)).
  - rewrite !elem_of_add_name. split; [|tauto]. by intros [?|[?|[?|?]]].
  - rewrite !elem_of_add_name. split; [|tauto]. by intros [?|[?|?]].
  - rewrite !elem_of_add_name. split; [|tauto]. by intros [?|?].
Qed.

Lemma names_finish df norm pk a :
  names (finish (place_all (start df norm) pk) a)
  = filter (λ c, c ≠ lit "_species_norm") (names df)
    ++ filter (λ c, c ∉ names df) [lit "lat"; lit "lopnong"; lit "lat_lon"].
Proof.
  unfold finish. rewrite names_drop_col, !names_set_col, names_place_all.
  unfold start. rewrite !names_set_col. apply filter_added_names.
Qed.

(** *** What the rows hold *)

Lemma writes_length (idx : list label)
    (a : list (option (spec_float * spec_float))) pk :
  length a = length idx →
  length (foldl (λ a e, write_label idx e.1 (Some e.2) a) a pk) = length idx.
Proof.
  revert a. induction pk as [|e pk IH]; intros a Ha; [done|]. cbn [foldl].
  apply IH. by apply length_write_label.
Qed.

Lemma length_assignment idx pk : length (assignment idx pk) = length idx.
Proof. unfold assignment. apply writes_length. by rewrite length_replicate. Qed.

(** A row holds what the last write to its label left, and nothing when no
    write went to its label. *)
Lemma writes_lookup (idx : list label)
    (a : list (option (spec_float * spec_float))) pk i l o :
  idx !! i = Some l → a !! i = Some o →
  (foldl (λ a e, write_label idx e.1 (Some e.2) a) a pk !! i = Some o ∧ l ∉ pk.*1)
  ∨ ∃ c, (l, c) ∈ pk
         ∧ foldl (λ a e, write_label idx e.1 (Some e.2) a) a pk !! i = Some (Some c).
Proof.
  revert a o. induction pk as [|[l' c] pk IH]; intros a o Hi Ha.
  - left. split; [done|apply not_elem_of_nil].
  - cbn [foldl fst snd].
    pose proof (write_label_lookup idx l' (Some c) a i l o Hi Ha) as Hw.
    destruct (IH _ _ Hi Hw) as [[Heq Hnot]|(c' & Hin & Heq)].
    + destruct (decide (l = l')) as [->|Hne].
      * right. exists c. split; [left|]. by rewrite Heq.
      * left. rewrite Heq. split; [done|].
        rewrite fmap_cons, not_elem_of_cons. done.
    + right. exists c'. split; [by right|done].
Qed.

Lemma assignment_lookup idx pk i l :
  idx !! i = Some l →
  (assignment idx pk !! i = Some None ∧ l ∉ pk.*1)
  ∨ ∃ c, (l, c) ∈ pk ∧ assignment idx pk !! i = Some (Some c).
Proof.
  intros Hi. unfold assignment. apply writes_lookup; [done|].
  apply lookup_replicate_2. by eapply lookup_lt_Some.
Qed.

(** When several writes go to the label of a row, the last one stays. *)
Lemma writes_lookup_last (idx : list label)
    (a : list (option (spec_float * spec_float))) pk k i l c :
  length a = length idx →
  idx !! i = Some l → pk !! k = Some (l, c) →
  (∀ k' e, (k < k')%nat → pk !! k' = Some e → e.1 ≠ l) →
  foldl (λ a e, write_label idx e.1 (Some e.2) a) a pk !! i = Some (Some c).
Proof.
  revert a k. induction pk as [|[l' c'] pk IH]; intros a k Ha Hi Hk Hlast; [done|].
  cbn [foldl fst snd]. destruct k as [|k].
  - injection Hk as -> ->.
    destruct (lookup_lt_is_Some_2 a i) as [o Ho].
    { rewrite Ha. by eapply lookup_lt_Some. }
    pose proof (write_label_lookup idx l (Some c) a i l o Hi Ho) as Hw.
    rewrite decide_True in Hw by done.
    destruct (writes_lookup idx _ pk i l _ Hi Hw) as [[? _]|(c2 & Hin & _)]; [done|].
    apply list_elem_of_lookup in Hin as [k' Hk'].
    by destruct (Hlast (S k') (l, c2) ltac:(lia) Hk').
  - apply (IH _ k); [by rewrite length_write_label|done..|].
    intros k' e Hlt. apply (Hlast (S k')). lia.
Qed.

Lemma assignment_lookup_last idx pk k i l c :
  idx !! i = Some l → pk !! k = Some (l, c) →
  (∀ k' e, (k < k')%nat → pk !! k' = Some e → e.1 ≠ l) →
  assignment idx pk !! i = Some (Some c).
Proof.
  intros Hi Hk Hlast. unfold assignment.
  apply (writes_lookup_last _ _ _ k _ l); [by rewrite length_replicate|done..].
Qed.

(** Every row has a label, so every row holds a pair of [pk] or nothing. *)
Lemma assignment_row idx pk i :
  (i < length idx)%nat →
  assignment idx pk !! i = Some None
  ∨ ∃ l c, (l, c) ∈ pk ∧ assignment idx pk !! i = Some (Some c).
Proof.
  intros [l Hl]%lookup_lt_is_Some_2.
  destruct (assignment_lookup idx pk i l Hl) as [[? _]|(c & ? & ?)]; [by left|].
  right. by exists l, c.
Qed.

Lemma NoDup_fst_inj {A B} (l : list (A * B)) x y1 y2 :
  NoDup (l.*1) → (x, y1) ∈ l → (x, y2) ∈ l → y1 = y2.
Proof.
  induction l as [|[x' y'] l IH]; [by intros _ ?%elem_of_nil|].
  rewrite fmap_cons, NoDup_cons. cbn [fst]. intros [Hx Hnd].
  rewrite !elem_of_cons. intros [?|H1] [?|H2]; simplify_eq; try done.
  - destruct Hx. apply list_elem_of_fmap. by eexists (_, _).
  - destruct Hx. apply list_elem_of_fmap. by eexists (_, _).
  - by apply IH.
Qed.

Lemma assignment_lookup_NoDup idx pk i l c :
  NoDup (pk.*1) → (l, c) ∈ pk → idx !! i = Some l →
  assignment idx pk !! i = Some (Some c).
Proof.
  intros Hnd Hin Hi.
  destruct (assignment_lookup idx pk i l Hi) as [[_ Hnot]|(c' & Hin' & ->)].
  - destruct Hnot. apply list_elem_of_fmap. by exists (l, c).
  - do 2 f_equal. by eapply NoDup_fst_inj.
Qed.

Lemma mapM_pick_Ok {A} (es : list (A * (list (spec_float * spec_float) * Z))) pk :
  mapM pick es = Ok pk →
  Forall2 (λ e p, p.1 = e.1 ∧ py_index e.2.1 e.2.2 = Ok p.2) es pk.
Proof.
  intros H%mapM_Ok. eapply Forall2_impl; [done|].
  intros e p. unfold pick. intros (c & Hc & [= <-])%bind_Ok. done.
Qed.

Lemma mapM_pick_rows {A} (es : list (A * (list (spec_float * spec_float) * Z))) pk :
  mapM pick es = Ok pk → pk.*1 = es.*1.
Proof.
  intros H%mapM_pick_Ok. induction H as [|e p es pk [Hp _] _ IH]; [done|].
  by rewrite !fmap_cons, IH, Hp.
Qed.

Lemma mapM_pick_elem {A} (es : list (A * (list (spec_float * spec_float) * Z)))
    pk i c :
  mapM pick es = Ok pk → (i, c) ∈ pk →
  ∃ cands ch, (i, (cands, ch)) ∈ es ∧ py_index cands ch = Ok c.
Proof.
  intros H%mapM_pick_Ok Hin.
  apply list_elem_of_lookup in Hin as [k Hk].
  destruct (Forall2_lookup_r _ _ _ _ _ H Hk) as ([i' [cands ch]] & He & Hi & Hc).
  simpl in *. subst i'. exists cands, ch. split; [by eapply list_elem_of_lookup_2|done].
Qed.

Lemma mapM_pick_elem_inv {A} (es : list (A * (list (spec_float * spec_float) * Z)))
    pk i cands ch :
  mapM pick es = Ok pk → (i, (cands, ch)) ∈ es →
  ∃ c, (i, c) ∈ pk ∧ py_index cands ch = Ok c.
Proof.
  intros H%mapM_pick_Ok Hin.
  apply list_elem_of_lookup in Hin as [k Hk].
  destruct (Forall2_lookup_l _ _ _ _ _ H Hk) as ([i' c] & Hp & Hi & Hc).
  simpl in *. subst i'. exists c. split; [by eapply list_elem_of_lookup_2|done].
Qed.

Lemma elem_of_labels_of idx pos l :
  l ∈ labels_of idx pos ↔ ∃ i, i ∈ pos ∧ idx !! i = Some l.
Proof. unfold labels_of. apply list_elem_of_omap. Qed.

Lemma elem_of_label_groups idx keys k ls :
  (k, ls) ∈ label_groups idx keys
  ↔ k ∈ keys ∧ ls = labels_of idx (indices_of k keys).
Proof.
  unfold label_groups. rewrite list_elem_of_fmap. split.
  - intros ([k' pos] & [= -> ->] & [Hk ->]%elem_of_groups). done.
  - intros [Hk ->]. exists (k, indices_of k keys). split; [done|].
    by apply elem_of_groups.
Qed.

Section Rows.
Context {RT : Runtime} {G : Generator}.

Lemma schedule_elem {A} master g (gs : list (str * list A)) e :
  e ∈ (schedule master g gs).1 →
  ∃ sp idx, (sp, idx) ∈ gs ∧ e.1 ∈ idx ∧ master !! sp = Some e.2.1 ∧ e.2.1 ≠ [].
Proof.
  revert g. induction gs as [|[sp idx] gs IH]; intros g; [by intros ?%elem_of_nil|].
  cbn [schedule fst snd].
  destruct (master !! sp) as [[|c0 cands]|] eqn:Hm;
    try (intros (sp' & idx' & ? & ?)%IH; exists sp', idx'; split; [by right|done]).
  cbn [fst]. rewrite elem_of_app. intros [He|He].
  - exists sp, idx. split; [left|].
    destruct e as [i [cs ch]].
    pose proof He as Hi%elem_of_zip_l. apply elem_of_zip_r in He.
    apply list_elem_of_fmap in He as (ch' & [= -> ->] & _). done.
  - apply IH in He as (sp' & idx' & ? & ?). exists sp', idx'. split; [by right|done].
Qed.

Lemma schedule_groups_elem master g norm i cands ch :
  (i, (cands, ch)) ∈ (schedule master g (groups norm)).1 →
  ∃ sp, norm !! i = Some sp ∧ master !! sp = Some cands ∧ cands ≠ [].
Proof.
  intros (sp & idx & [_ ->]%elem_of_groups & Hi & Hm & Hne)%schedule_elem.
  simpl in *. exists sp. by apply elem_of_indices_of in Hi.
Qed.

(** An entry of the schedule of the loop belongs to a row that carries its
    label and whose name has its candidates. *)
Lemma schedule_labels_elem master g idx norm l cands ch :
  (l, (cands, ch)) ∈ (schedule master g (label_groups idx norm)).1 →
  ∃ i sp, idx !! i = Some l ∧ norm !! i = Some sp
          ∧ master !! sp = Some cands ∧ cands ≠ [].
Proof.
  intros (sp & ls & [_ ->]%elem_of_label_groups & Hl & Hm & Hne)%schedule_elem.
  cbn [fst snd] in *. apply elem_of_labels_of in Hl as (i & Hi & Hl).
  exists i, sp. by apply elem_of_indices_of in Hi.
Qed.

End Rows.
(** *** Under the promises of the generator *)

Lemma mapM_total {A B} (f : A → result B) l :
  (∀ a, a ∈ l → ∃ b, f a = Ok b) → ∃ l', mapM f l = Ok l'.
Proof.
  induction l as [|a l IH]; intros Hl; [by exists []|].
  destruct (Hl a) as [b Hb]; [left|].
  destruct IH as [l' Hl']; [intros a' Ha'; apply Hl; by right|].
  exists (b :: l'). simpl. by rewrite Hb, Hl'.
Qed.

Lemma mjoin_indices_NoDup (keys : list str) (ks : list str) :
  NoDup ks → NoDup (mjoin ((λ k, indices_of k keys) <$> ks)).
Proof.
  induction 1 as [|k ks Hk Hnd IH]; [constructor|].
  rewrite fmap_cons. cbn [mjoin list_join]. apply NoDup_app. split_and!.
  - apply StronglySorted_lt_NoDup, indices_of_sorted.
  - intros i Hi%elem_of_indices_of (l & Hil & (k' & -> & Hk')%list_elem_of_fmap)%list_elem_of_join.
    apply elem_of_indices_of in Hil. congruence.
  - apply IH.
Qed.

Lemma served_rows_NoDup master norm : NoDup (served_rows master norm).
Proof.
  apply mjoin_indices_NoDup, NoDup_filter, NoDup_sorted, NoDup_remove_dups.
Qed.

Lemma elem_of_served_rows master norm i :
  i ∈ served_rows master norm ↔
  ∃ sp, norm !! i = Some sp ∧ has_candidates master sp = true.
Proof.
  unfold served_rows. rewrite list_elem_of_join. split.
  - intros (l & Hil & (k & -> & Hk)%list_elem_of_fmap).
    apply list_elem_of_filter in Hk as [Hc _]. apply elem_of_indices_of in Hil. eauto.
  - intros (sp & Hi & Hc). exists (indices_of sp norm). split.
    + by apply elem_of_indices_of.
    + apply list_elem_of_fmap. exists sp. split; [done|].
      apply list_elem_of_filter. split; [done|].
      rewrite elem_of_sorted, elem_of_remove_dups. by eapply list_elem_of_lookup_2.
Qed.

Section Promises.
Context {RT : Runtime} {G : Generator}.
Hypothesis HG : generator_ok G.

Lemma draw_length g k n : length (draw g k n).1 = n.
Proof.
  unfold draw. destruct n as [|[|n]]; [| done |]; apply (integers_n_length G HG).
Qed.

Lemma draw_range g k n :
  (0 < k)%Z → Forall (λ i, (0 ≤ i < k)%Z) (draw g k n).1.
Proof.
  intros Hk. unfold draw.
  destruct n as [|[|n]]; [| |]; try by apply (integers_n_range G HG).
  cbn [fst]. constructor; [|constructor]. by apply (integers_range G HG).
Qed.

Lemma schedule_in_range {A} master g (gs : list (str * list A)) e :
  e ∈ (schedule master g gs).1 → (0 ≤ e.2.2 < Z.of_nat (length e.2.1))%Z.
Proof.
  revert g. induction gs as [|[sp idx] gs IH]; intros g; [by intros ?%elem_of_nil|].
  cbn [schedule fst snd].
  destruct (master !! sp) as [[|c0 cands]|] eqn:Hm; try apply IH.
  cbn [fst]. rewrite elem_of_app. intros [He|He]; [|by eapply IH].
  destruct e as [i [cs ch]]. apply elem_of_zip_r in He.
  apply list_elem_of_fmap in He as (ch' & [= -> ->] & Hch). cbn [fst snd].
  assert (0 < Z.of_nat (length (c0 :: cands)))%Z as Hk by (simpl; lia).
  pose proof (draw_range g _ (length idx) Hk) as Hr.
  rewrite Forall_forall in Hr. by apply Hr.
Qed.

Lemma schedule_picks {A} master g (gs : list (str * list A)) :
  ∃ pk, mapM pick (schedule master g gs).1 = Ok pk.
Proof.
  apply mapM_total. intros e He%schedule_in_range. unfold pick.
  destruct (py_index_in_range e.2.1 e.2.2 He) as [c ->]. by eexists.
Qed.

Lemma schedule_rows {A} master g (gs : list (str * list A)) :
  (schedule master g gs).1.*1
  = mjoin (snd <$> filter (λ sp_idx, has_candidates master sp_idx.1 = true) gs).
Proof.
  revert g. induction gs as [|[sp idx] gs IH]; intros g; [done|].
  rewrite filter_cons. cbn [schedule fst snd].
  destruct (decide (has_candidates master sp = true)) as [Hc|Hc];
    unfold has_candidates in Hc;
    destruct (master !! sp) as [[|c0 cands]|] eqn:Hm; try done; try apply IH.
  rewrite fmap_cons. cbn [mjoin list_join fst snd].
  rewrite fmap_app, IH. f_equal. apply fst_zip.
  by rewrite length_fmap, draw_length.
Qed.

Lemma schedule_groups_rows master g norm :
  (schedule master g (groups norm)).1.*1 = served_rows master norm.
Proof.
  rewrite schedule_rows. unfold served_rows, groups. f_equal.
  induction (sorted (remove_dups norm)) as [|k ks IH]; [done|].
  rewrite fmap_cons, !filter_cons. cbn [fst].
  destruct (decide (has_candidates master k = true)); [|done].
  rewrite !fmap_cons. by rewrite IH.
Qed.

(** The labels in the schedule are those of the served rows, in the order of
    the draws. *)
Lemma schedule_labels_rows master g idx norm :
  (schedule master g (label_groups idx norm)).1.*1
  = labels_of idx (served_rows master norm).
Proof.
  rewrite schedule_rows. unfold served_rows, label_groups, groups, labels_of.
  induction (sorted (remove_dups norm)) as [|k ks IH]; [done|].
  rewrite !fmap_cons, !filter_cons. cbn [fst snd].
  destruct (decide (has_candidates master k = true)); [|done].
  rewrite !fmap_cons. cbn [mjoin list_join fst snd]. rewrite omap_app.
  f_equal. exact IH.
Qed.

End Promises.

Lemma length_labels_of idx pos :
  Forall (λ i, (i < length idx)%nat) pos → length (labels_of idx pos) = length pos.
Proof.
  unfold labels_of. induction 1 as [|i pos Hi _ IH]; [done|]. cbn [omap list_omap].
  destruct (lookup_lt_is_Some_2 idx i Hi) as [l ->]. cbn [length].
  fold (omap (λ i, idx !! i) pos). by rewrite IH.
Qed.

Lemma NoDup_labels_of idx pos :
  NoDup idx → NoDup pos → NoDup (labels_of idx pos).
Proof.
  intros Hidx. induction 1 as [|i pos Hi Hpos IH]; [constructor|].
  unfold labels_of in *. cbn [omap list_omap].
  destruct (idx !! i) as [l|] eqn:Hl; [|done]. constructor; [|done].
  intros (j & Hj & Hlj)%list_elem_of_omap.
  by rewrite (NoDup_lookup idx i j l Hidx Hl Hlj) in Hi.
Qed.

(** ** The text of a float *)

Lemma is_digit_digit d : d < 10 → is_digit (digit d) = true.
Proof.
  intros Hd. unfold is_digit, digit. apply andb_true_iff.
  rewrite !N.leb_le. lia.
Qed.

Lemma uint_digits_digits u : Forall (λ c, is_digit c = true) (uint_digits u).
Proof. induction u; simpl; constructor; done. Qed.

Lemma uint_digits_nil u : uint_digits u = [] → u = Nil.
Proof. by destruct u. Qed.

Lemma decimal_nonempty n : decimal n ≠ [].
Proof.
  unfold decimal. intros Hn%uint_digits_nil. destruct n as [|p]; [done|].
  by apply DecimalPos.Unsigned.to_uint_nonnil in Hn.
Qed.

Lemma skip_digits_app ds p r :
  Forall (λ c, is_digit c = true) ds → is_digit p = false →
  skip_digits (ds ++ p :: r) = p :: r.
Proof.
  intros Hds Hp. induction Hds as [|c ds Hc _ IH]; simpl; [by rewrite Hp|].
  by rewrite Hc.
Qed.

Lemma six_digits_digits n : forallb is_digit (six_digits n) = true.
Proof.
  unfold six_digits. cbn [forallb].
  rewrite !is_digit_digit; [done|by apply N.mod_lt..].
Qed.

Lemma unsigned_fixed6_fixed6 n : unsigned_fixed6 (fixed6 n) = true.
Proof.
  unfold unsigned_fixed6, fixed6.
  pose proof (decimal_nonempty (n / 1000000)) as Hne.
  pose proof (uint_digits_digits (N.to_uint (n / 1000000))) as Hd.
  fold (decimal (n / 1000000)) in Hd.
  change (lit "." ++ six_digits (n mod 1000000))
    with (46 :: six_digits (n mod 1000000)).
  rewrite (skip_digits_app _ 46) by done.
  destruct (decimal (n / 1000000)) as [|c ds]; [done|]. cbn [app].
  apply Forall_cons in Hd as [-> _]. cbn [andb N.eqb Pos.eqb].
  by rewrite six_digits_digits.
Qed.

Lemma fixed6_head n : ∃ c r, fixed6 n = c :: r ∧ is_digit c = true.
Proof.
  unfold fixed6. pose proof (decimal_nonempty (n / 1000000)) as Hne.
  pose proof (uint_digits_digits (N.to_uint (n / 1000000))) as Hd.
  fold (decimal (n / 1000000)) in Hd.
  destruct (decimal (n / 1000000)) as [|c ds]; [done|].
  apply Forall_cons in Hd as [Hc _]. by exists c, (ds ++ lit "." ++ six_digits (n mod 1000000)).
Qed.

Lemma is_fixed6_signed s n : is_fixed6 (sign_str s ++ fixed6 n) = true.
Proof.
  destruct s; cbn [sign_str app].
  - apply unsigned_fixed6_fixed6.
  - destruct (fixed6_head n) as (c & r & Heq & Hc). pose proof (unsigned_fixed6_fixed6 n) as Hu.
    rewrite Heq in *. unfold is_fixed6.
    destruct (N.eqb_spec c 45) as [->|_]; [done|]. done.
Qed.

Lemma coordinate_text_format x : is_nan x = false → is_coordinate_text (format_6f x).
Proof.
  unfold is_coordinate_text. destruct x as [s|s| |s m e]; try done; intros _.
  - left. apply is_fixed6_signed.
  - right. by destruct s; [right|left].
  - left. apply is_fixed6_signed.
Qed.

Lemma coordinate_text_nonempty s : is_coordinate_text s → s ≠ [].
Proof. intros H ->. by destruct H as [H|[H|H]]. Qed.

(** ** The counting generator keeps the promises *)

Lemma counter_value_range g low high :
  (low < high)%Z → (low ≤ counter_value g low high < high)%Z.
Proof.
  intros Hlt. unfold counter_value.
  pose proof (Z.mod_pos_bound g (high - low)). lia.
Qed.

Lemma counter_rng_ok : generator_ok counter_rng.
Proof.
  split.
  - intros g low high Hlt. by apply counter_value_range.
  - intros g low high n. cbn. by rewrite length_fmap, length_seq.
  - intros g low high n Hlt. cbn. apply Forall_fmap, Forall_forall.
    intros i _. by apply counter_value_range.
Qed.

(** ** The whole of [assign_coords] and [main] *)

Section Whole.
Context {RT : Runtime} {G : Generator}.

Lemma assign_coords_Ok df species_col master g out g' :
  assign_coords df species_col master g = Ok (out, g') →
  ∃ species pk,
    get_col df species_col = Ok species
    ∧ mapM pick (schedule master g
                   (label_groups (index df) (normalize_species <$> species))).1
      = Ok pk
    ∧ out = finish (place_all (start df (normalize_species <$> species)) pk)
              (assignment (index df) pk)
    ∧ g' = (schedule master g
              (label_groups (index df) (normalize_species <$> species))).2.
Proof.
  rewrite assign_coords_unfold.
  intros (species & Hs & (pk & Hpk & [= <- <-])%bind_Ok)%bind_Ok. by exists species, pk.
Qed.

Lemma assign_coords_total df species_col master g species :
  generator_ok G → get_col df species_col = Ok species →
  ∃ pk,
    mapM pick (schedule master g
                 (label_groups (index df) (normalize_species <$> species))).1
    = Ok pk
    ∧ assign_coords df species_col master g
      = Ok (finish (place_all (start df (normalize_species <$> species)) pk)
              (assignment (index df) pk),
            (schedule master g
               (label_groups (index df) (normalize_species <$> species))).2).
Proof.
  intros HG Hs.
  destruct (schedule_picks HG master g
              (label_groups (index df) (normalize_species <$> species)))
    as [pk Hpk].
  exists pk. split; [done|]. rewrite assign_coords_unfold, Hs. cbn [bind]. cbv zeta.
  by rewrite Hpk.
Qed.

Lemma main_Ok df dfm seed out report :
  main df dfm seed = Ok (out, report) →
  ∃ species_col master g',
    find_col df species_candidates = Ok species_col
    ∧ load_master dfm = Ok master
    ∧ assign_coords df species_col master seed = Ok (out, g')
    ∧ no_match_report df species_col master = Ok report.
Proof.
  unfold main.
  intros (sc & Hsc & (master & Hm & ([out' g'] & Ha & (r & Hr & [= <- <-])%bind_Ok)
    %bind_Ok)%bind_Ok)%bind_Ok.
  by exists sc, master, g'.
Qed.

(** A pair that a row holds at the end is one of the candidates of the
    species of that row. *)
Lemma picked_is_candidate master g idx norm pk l c :
  mapM pick (schedule master g (label_groups idx norm)).1 = Ok pk → (l, c) ∈ pk →
  ∃ i sp cands,
    idx !! i = Some l ∧ norm !! i = Some sp ∧ master !! sp = Some cands ∧ c ∈ cands.
Proof.
  intros Hpk (cands & ch & (i & sp & Hl & Hsp & Hm & _)%schedule_labels_elem
              & Hc%py_index_Ok)%(mapM_pick_elem _ _ _ _ Hpk).
  by exists i, sp, cands.
Qed.

End Whole.

Lemma get_col_wf_length df c v : wf_frame df → get_col df c = Ok v → length v = nrows df.
Proof.
  intros [_ Hlen] Hv%find_column_Ok. rewrite Forall_forall in Hlen.
  by apply (Hlen (c, v)).
Qed.

(** ** The schedule of the counting generator *)

Lemma counter_draw g k n :
  draw (G := counter_rng) g k n
  = ((λ i : nat, counter_value (g + Z.of_nat i) 0 k) <$> seq 0 n, (g + Z.of_nat n)%Z).
Proof.
  unfold draw. destruct n as [|[|n]]; try done.
  cbn. by rewrite Z.add_0_r.
Qed.

(** With the counting generator, the k-th entry of the schedule holds the
    k-th value drawn. *)
Lemma counter_schedule {A} master g (gs : list (str * list A)) :
  (schedule (G := counter_rng) master g gs).2
  = (g + Z.of_nat (length (schedule (G := counter_rng) master g gs).1))%Z
  ∧ ∀ k e, (schedule (G := counter_rng) master g gs).1 !! k = Some e →
           e.2.2 = counter_value (g + Z.of_nat k) 0 (Z.of_nat (length e.2.1)).
Proof.
  revert g. induction gs as [|[sp idx] gs IH]; intros g.
  { split; [simpl; lia|done]. }
  cbn [schedule fst snd].
  destruct (master !! sp) as [[|c0 cands]|]; try apply IH.
  rewrite counter_draw. cbn [fst snd].
  set (K := Z.of_nat (length (c0 :: cands))).
  set (es := zip idx ((λ ch, (c0 :: cands, ch)) <$>
                        ((λ i : nat, counter_value (g + Z.of_nat i) 0 K)
                           <$> seq 0 (length idx)))).
  assert (length es = length idx) as Hlen.
  { unfold es. rewrite length_zip, !length_fmap, length_seq. lia. }
  destruct (IH (g + Z.of_nat (length idx))%Z) as [IH1 IH2]. split.
  - rewrite IH1, length_app, Hlen. lia.
  - intros k e. rewrite lookup_app_Some. intros [He|[Hk He]].
    + unfold es in He. apply lookup_zip_with_Some in He as (i & x & -> & Hi & Hx).
      rewrite !list_lookup_fmap in Hx.
      destruct (seq 0 (length idx) !! k) as [j|] eqn:Hj; [|done].
      apply lookup_seq in Hj as [-> _]. simpl in Hx. by simplify_eq.
    + rewrite Hlen in *. rewrite (IH2 _ _ He). f_equal. lia.
Qed.

(** ** Facts about the example tables *)

Lemma wf_sightings : wf_frame sightings.
Proof.
  split.
  - apply (bool_decide_unpack _). vm_compute. exact I.
  - repeat constructor.
Qed.

Lemma wf_herons_abc : wf_frame herons_abc.
Proof.
  split.
  - apply (bool_decide_unpack _). vm_compute. exact I.
  - repeat constructor.
Qed.


(** The index that [read_csv] builds by default has distinct labels. *)
Lemma NoDup_range_index n : NoDup (range_index n).
Proof.
  unfold range_index. apply NoDup_fmap_2; [|apply NoDup_seq].
  by intros i j [= ->].
Qed.

Lemma NoDup_sightings : NoDup (index sightings).
Proof. apply NoDup_range_index. Qed.

Lemma NoDup_herons_abc : NoDup (index herons_abc).
Proof. apply NoDup_range_index. Qed.
(** * The claims *)

(** C1, as the code has it: the report lists, in strictly ascending order
    and so without repetition, the normalized names of the table that are
    not empty and are not keys of the master index. *)
Theorem no_match_report_spec {RT : Runtime} (df : DataFrame) (species_col : str)
    (master : gmap (list N) (list (spec_float * spec_float)))
    (species : list cell) :
  get_col df species_col = Ok species →
  ∃ report,
    no_match_report df species_col master = Ok report
    ∧ StronglySorted str_lt report
    ∧ NoDup report
    ∧ ∀ s, s ∈ report ↔
           s ≠ [] ∧ s ∈ normalize_species <$> species ∧ s ∉ dom master.
Proof.
  intros Hs. eexists. split; [by apply no_match_report_Ok|].
  assert (NoDup (filter (λ s, s ≠ [] ∧ master !! s = None)
                   (elements (list_to_set (C := gset (list N))
                                (normalize_species <$> species))))) as Hnd.
  { apply NoDup_filter, NoDup_elements. }
  split_and!.
  - apply StronglySorted_lt; [by apply NoDup_sorted|apply sorted_sorted].
  - by apply NoDup_sorted.
  - intros s. rewrite elem_of_sorted, list_elem_of_filter, elem_of_elements,
      elem_of_list_to_set, not_elem_of_dom. tauto.
Qed.

(** The report of C1 for [sightings] and [heron_index]. *)
Lemma no_match_report_spec_witness :
  get_col sightings (lit "Species")
    = Ok [Str (lit "Heron"); Str (lit "dodo"); Str (lit "HERON (grey)"); nan]
  ∧ ∃ report,
      no_match_report (RT := text_runtime) sightings (lit "Species") heron_index
        = Ok report
      ∧ StronglySorted str_lt report
      ∧ NoDup report
      ∧ ∀ s, s ∈ report ↔
             s ≠ [] ∧
             s ∈ normalize_species (RT := text_runtime) <$>
                   [Str (lit "Heron"); Str (lit "dodo"); Str (lit "HERON (grey)"); nan]
             ∧ s ∉ dom heron_index.
Proof.
  split; [reflexivity|].
  apply (no_match_report_spec (RT := text_runtime) sightings (lit "Species")
           heron_index). reflexivity.
Defined.

(** C1 as stated fails: a row without a name has the empty normalized name,
    which is not a key of the index, and yet the report leaves it out. *)
Lemma no_match_report_omits_empty_name :
  no_match_report (RT := text_runtime) sightings (lit "Species") heron_index
    = Ok [lit "dodo"]
  ∧ [] ∈ normalize_species (RT := text_runtime) <$>
           [Str (lit "Heron"); Str (lit "dodo"); Str (lit "HERON (grey)"); nan]
  ∧ ([] ∉ dom heron_index)
  ∧ [] ∉ [lit "dodo"].
Proof.
  split_and!.
  - by vm_compute.
  - apply list_elem_of_fmap. exists nan. split; [done|]. set_solver.
  - unfold heron_index. rewrite dom_singleton_L. by intros ?%elem_of_singleton.
  - by intros [?|[]%elem_of_nil]%elem_of_cons.
Qed.
(** C6: the code is not idempotent on a name with a line feed between
    parentheses.  The dot of [\(.*?\)] does not match a line feed, so the
    first substitution leaves the parenthetical in place, against the
    comment of that line ("quitar paréntesis y contenido"); the second
    substitution turns the line feed into a space, and normalizing the
    result removes the parenthetical that the first pass left. *)
Lemma normalize_species_not_idempotent :
  normalize_species (RT := text_runtime) (Str [LPAREN; LF; RPAREN])
    = [LPAREN; SPACE; RPAREN]
  ∧ normalize_species (RT := text_runtime)
      (Str (normalize_species (RT := text_runtime) (Str [LPAREN; LF; RPAREN])))
    = []
  ∧ normalize_species (RT := text_runtime)
      (Str (lit "Heron (Ardea" ++ [LF] ++ lit "cinerea)"))
    = lit "heron (ardea cinerea)"
  ∧ normalize_species (RT := text_runtime)
      (Str (normalize_species (RT := text_runtime)
              (Str (lit "Heron (Ardea" ++ [LF] ++ lit "cinerea)"))))
    = lit "heron".
Proof. split_and!; vm_compute; reflexivity. Qed.

(** C7, as the code has it: [find_col] returns the first header, in header
    order, whose whitespace-collapsed, stripped and case-folded form is one
    of the case-folded candidates, and raises exactly when no header is;
    the error then carries the candidates that were tried and the headers
    of the table, and nothing else. *)
Theorem find_col_spec {RT : Runtime} (df : DataFrame) (candidates : list str) :
  let matches c := casefold (strip (sub_spaces c)) ∈ casefold <$> candidates in
  (∀ col, find_col df candidates = Ok col ↔
          ∃ i, names df !! i = Some col ∧ matches col
               ∧ ∀ j c, names df !! j = Some c → (j < i)%nat → ¬ matches c)
  ∧ ((∃ e, find_col df candidates = Raise e) ↔ ∀ c, c ∈ names df → ¬ matches c)
  ∧ (∀ e, find_col df candidates = Raise e →
          e = ColumnNotFound candidates (names df)).
Proof.
  split_and!.
  - intros col. apply find_col_Ok.
  - split.
    + intros [e [_ Hno]%find_col_Raise]. done.
    + intros Hno. eexists. apply find_col_Raise. done.
  - by intros e [-> _]%find_col_Raise.
Qed.

(** C7 on a table whose second header is [species] written with capitals,
    a long s and surplus whitespace, and on a table without a latitude. *)
Lemma find_col_spec_witness :
  find_col spaced_table species_candidates = Ok spaced_header
  ∧ find_col master_without_lat lat_candidates
    = Raise (ColumnNotFound lat_candidates (names master_without_lat)).
Proof.
  split.
  - apply (find_col_spec (RT := text_runtime) spaced_table species_candidates).
    exists 1%nat. split_and!.
    + reflexivity.
    + apply (bool_decide_unpack _). vm_compute. exact I.
    + intros [|j] c Hc Hj; [|lia]. injection Hc as <-.
      apply (bool_decide_unpack _). vm_compute. exact I.
  - destruct (find_col_spec (RT := text_runtime) master_without_lat lat_candidates)
      as (_ & Hraise & Herr).
    destruct (proj2 Hraise) as [e He].
    { intros c Hc. repeat (apply elem_of_cons in Hc as [->|Hc]);
        [apply (bool_decide_unpack _); vm_compute; exact I..|
         by apply elem_of_nil in Hc]. }
    by rewrite He, (Herr e He).
Defined.

(** C7 as stated fails: the message of the error is made of fixed words,
    the candidates and the headers; the words are the same whichever column
    is missing, and the column is not named.  Here the master table has no
    latitude. *)
Lemma find_col_message_names_no_column :
  find_col master_without_lat lat_candidates
    = Raise (ColumnNotFound [lit "latitud"; lit "lat"] [lit "nombre"; lit "lon"])
  ∧ load_master (RT := text_runtime) master_without_lat
    = Raise (ColumnNotFound [lit "latitud"; lit "lat"] [lit "nombre"; lit "lon"])
  ∧ message (ColumnNotFound [lit "latitud"; lit "lat"] [lit "nombre"; lit "lon"])
    = Some [Words (lit "No se encontr" ++ [243]
                   ++ lit " ninguna de las columnas esperadas: ");
            Listing [lit "latitud"; lit "lat"];
            Words (lit " en ");
            Listing [lit "nombre"; lit "lon"]].
Proof. split_and!; vm_compute; reflexivity. Qed.

(** C2: the code keeps what the claim excludes.  A master row without a
    name, or whose name is only a parenthesis, has the empty normalized
    name; that text is not a missing value, [dropna] keeps the row, and the
    empty text becomes a key of the index.  A sighting without a name then
    receives the coordinates of such a row. *)
Lemma load_master_keeps_unnamed_rows :
  load_master (RT := text_runtime) unnamed_master
    = Ok {[ [] := [(f10, f20); (f0_1, f10)] ]}
  ∧ ∃ out,
      main (RT := text_runtime) (G := counter_rng) sightings unnamed_master 0%Z
        = Ok (out, [lit "dodo"; lit "heron"])
      ∧ get_col out (lit "lat") = Ok [Str []; Str []; Str []; Str (lit "10.000000")].
Proof.
  split; [vm_compute; reflexivity|].
  eexists {| index := range_index 4; columns := _ |}. split; vm_compute; reflexivity.
Qed.

(** C5: every key of the index built by [load_master] has at least one
    candidate, and both numbers of every candidate are numbers that
    [to_numeric] produced, never [nan]. *)
Theorem load_master_candidates {RT : Runtime} (dfm : DataFrame)
    (master : gmap (list N) (list (spec_float * spec_float)))
    (name : str) (cs : list (spec_float * spec_float)) :
  load_master dfm = Ok master → master !! name = Some cs →
  cs ≠ [] ∧ Forall (λ c, is_nan c.1 = false ∧ is_nan c.2 = false) cs.
Proof. apply load_master_lookup. Qed.

(** C5 on [master_table], whose second heron has no latitude. *)
Lemma load_master_candidates_witness :
  load_master (RT := text_runtime) master_table = Ok master_table_index
  ∧ master_table_index !! lit "heron" = Some [(f10, f20)]
  ∧ [(f10, f20)] ≠ []
  ∧ Forall (λ c : spec_float * spec_float, is_nan c.1 = false ∧ is_nan c.2 = false)
      [(f10, f20)].
Proof.
  assert (load_master (RT := text_runtime) master_table = Ok master_table_index)
    as Hload by (vm_compute; reflexivity).
  assert (master_table_index !! lit "heron" = Some [(f10, f20)])
    as Hheron by (vm_compute; reflexivity).
  split; [exact Hload|]. split; [exact Hheron|].
  exact (load_master_candidates (RT := text_runtime) master_table master_table_index
           (lit "heron") [(f10, f20)] Hload Hheron).
Defined.
(** C3, as the code has it: in every row of the enriched output either
    [lat], [lopnong] and [lat_lon] are all empty, or [lat] and [lopnong] are
    each what [:.6f] prints for a float that is not [nan] (a numeral with
    exactly six digits after the point, or [inf] with its sign for an
    infinite coordinate) and [lat_lon] is the two joined by a comma; never
    both. *)
Theorem enriched_rows_shape {RT : Runtime} {G : Generator}
    (df dfm : DataFrame) (seed : rng) (out : DataFrame) (report : list str) :
  main df dfm seed = Ok (out, report) →
  ∃ lat lon lat_lon,
    get_col out (lit "lat") = Ok lat
    ∧ get_col out (lit "lopnong") = Ok lon
    ∧ get_col out (lit "lat_lon") = Ok lat_lon
    ∧ ∀ i, (i < nrows out)%nat →
        ∃ a b p,
          lat !! i = Some (Str a) ∧ lon !! i = Some (Str b)
          ∧ lat_lon !! i = Some (Str p)
          ∧ ((a = [] ∧ b = [] ∧ p = [])
             ∨ (is_coordinate_text a ∧ is_coordinate_text b
                ∧ p = a ++ lit "," ++ b))
          ∧ ¬ ((a = [] ∧ b = [] ∧ p = [])
               ∧ (is_coordinate_text a ∧ is_coordinate_text b
                  ∧ p = a ++ lit "," ++ b)).
Proof.
  intros (sc & master & g' & _ & Hload & Hassign & _)%main_Ok.
  apply assign_coords_Ok in Hassign as (species & pk & Hs & Hpk & -> & _).
  eexists _, _, _. split_and!;
    [apply get_col_finish_lat|apply get_col_finish_lon|apply get_col_finish_pair|].
  rewrite nrows_finish. intros i Hi. rewrite !list_lookup_fmap.
  destruct (assignment_row (index df) pk i Hi) as [->|(l & c & Hc & ->)].
  - exists [], [], []. split_and!; try done; [by left|].
    by intros [_ [?%coordinate_text_nonempty _]].
  - destruct (picked_is_candidate _ _ _ _ _ _ _ Hpk Hc)
      as (i' & sp & cands & _ & _ & Hm & Hin).
    destruct (load_master_lookup _ _ _ _ Hload Hm) as [_ Hnan].
    rewrite Forall_forall in Hnan. destruct (Hnan c Hin) as [H1 H2].
    exists (format_6f c.1), (format_6f c.2),
      (format_6f c.1 ++ lit "," ++ format_6f c.2).
    cbn [fmap option_fmap option_map].
    unfold lat_text, lon_text, pair_text, coord_text. rewrite H1, H2. cbn [orb]. split_and!; try done.
    + right. split_and!; [by apply coordinate_text_format..|done].
    + intros [[Hempty _] _].
      by apply (coordinate_text_nonempty (format_6f c.1));
        [apply coordinate_text_format|].
Qed.

(** C3 on [sightings] and [master_table]. *)
Lemma enriched_rows_shape_witness :
  main (RT := text_runtime) (G := counter_rng) sightings master_table 0%Z
    = Ok (enriched_sightings, [lit "dodo"])
  ∧ ∃ lat lon lat_lon,
      get_col enriched_sightings (lit "lat") = Ok lat
      ∧ get_col enriched_sightings (lit "lopnong") = Ok lon
      ∧ get_col enriched_sightings (lit "lat_lon") = Ok lat_lon
      ∧ ∀ i, (i < nrows enriched_sightings)%nat →
          ∃ a b p,
            lat !! i = Some (Str a) ∧ lon !! i = Some (Str b)
            ∧ lat_lon !! i = Some (Str p)
            ∧ ((a = [] ∧ b = [] ∧ p = [])
               ∨ (is_coordinate_text a ∧ is_coordinate_text b
                  ∧ p = a ++ lit "," ++ b))
            ∧ ¬ ((a = [] ∧ b = [] ∧ p = [])
                 ∧ (is_coordinate_text a ∧ is_coordinate_text b
                    ∧ p = a ++ lit "," ++ b)).
Proof.
  assert (main (RT := text_runtime) (G := counter_rng) sightings master_table 0%Z
            = Ok (enriched_sightings, [lit "dodo"])) as Hmain
    by (vm_compute; reflexivity).
  split; [exact Hmain|].
  exact (enriched_rows_shape (RT := text_runtime) (G := counter_rng)
           sightings master_table 0%Z enriched_sightings [lit "dodo"] Hmain).
Defined.

(** C3 as stated fails: pandas reads [inf] as a number, so it reaches the
    index; [:.6f] prints it as [inf], which has no digit after a point, and
    the row is neither empty nor made of six-digit numerals. *)
Lemma enriched_row_with_infinity :
  main (RT := text_runtime) (G := counter_rng) sightings polar_master 0%Z
    = Ok (polar_sightings, [lit "dodo"])
  ∧ get_col polar_sightings (lit "lat")
    = Ok [Str (lit "inf"); Str []; Str (lit "inf"); Str []]
  ∧ get_col polar_sightings (lit "lopnong")
    = Ok [Str (lit "20.000000"); Str []; Str (lit "20.000000"); Str []]
  ∧ get_col polar_sightings (lit "lat_lon")
    = Ok [Str (lit "inf,20.000000"); Str []; Str (lit "inf,20.000000"); Str []]
  ∧ is_fixed6 (lit "inf") = false
  ∧ bool_decide (lit "inf" = []) = false.
Proof. split_and!; vm_compute; reflexivity. Qed.

(** C4: the code gives a row a pair that is not a candidate of its species
    when two rows carry the same label.  [out.loc[row, "lat"] = lat] writes
    to every row labelled [row]: the egret is served first and its pair
    goes to both rows; the heron is served next and its pair replaces it in
    both rows.  The egret row ends with a pair of the heron, which is none
    of the candidates of the egret.  In the same way a row whose species has
    no candidate at all receives the pair of the heron that shares its
    label. *)
Lemma shared_label_takes_other_pair :
  assign_coords (RT := text_runtime) (G := counter_rng)
    shared_label_sightings (lit "species") two_species_index 0%Z
  = Ok ({| index := [Lbl 0; Lbl 0];
           columns :=
             [(lit "species", [Str (lit "Heron"); Str (lit "Egret")]);
              (lit "lat", [Str (lit "20.000000"); Str (lit "20.000000")]);
              (lit "lopnong", [Str (lit "10.000000"); Str (lit "10.000000")]);
              (lit "lat_lon", [Str (lit "20.000000,10.000000");
                               Str (lit "20.000000,10.000000")])] |}, 2%Z)
  ∧ two_species_index !! normalize_species (RT := text_runtime) (Str (lit "Egret"))
    = Some [(f0_1, f10); (f10, f0_1)]
  ∧ (λ c : spec_float * spec_float, (format_6f c.1, format_6f c.2))
      <$> [(f0_1, f10); (f10, f0_1)]
    = [(lit "0.100000", lit "10.000000"); (lit "10.000000", lit "0.100000")]
  ∧ assign_coords (RT := text_runtime) (G := counter_rng)
      shared_label_dodo (lit "species") heron_index 0%Z
    = Ok ({| index := [Lbl 0; Lbl 0];
             columns :=
               [(lit "species", [Str (lit "Heron"); Str (lit "Dodo")]);
                (lit "lat", [Str (lit "10.000000"); Str (lit "10.000000")]);
                (lit "lopnong", [Str (lit "20.000000"); Str (lit "20.000000")]);
                (lit "lat_lon", [Str (lit "10.000000,20.000000");
                                 Str (lit "10.000000,20.000000")])] |}, 1%Z)
  ∧ heron_index !! normalize_species (RT := text_runtime) (Str (lit "Dodo")) = None.
Proof. split_and!; vm_compute; reflexivity. Qed.

(** C8, as the code has it: the enriched output has the rows of the table
    in their order, and every column whose header is none of
    [_species_norm], [lat], [lopnong] and [lat_lon] is in it unchanged; its
    headers are those of the table without [_species_norm], in their order,
    followed by those of [lat], [lopnong] and [lat_lon] that the table did
    not have.  For a table with none of the four headers the output is the
    table with the three derived columns added. *)
Theorem assign_coords_frame {RT : Runtime} {G : Generator}
    (df : DataFrame) (species_col : str)
    (master : gmap (list N) (list (spec_float * spec_float))) (g g' : rng)
    (out : DataFrame) :
  assign_coords df species_col master g = Ok (out, g') →
  nrows out = nrows df
  ∧ (∀ c, c ∉ reserved → get_col out c = get_col df c)
  ∧ names out
    = filter (λ c, c ≠ lit "_species_norm") (names df)
      ++ filter (λ c, c ∉ names df) [lit "lat"; lit "lopnong"; lit "lat_lon"]
  ∧ ((∀ c, c ∈ reserved → c ∉ names df) →
     ∃ lat lon lat_lon,
       columns out
       = columns df
         ++ [(lit "lat", lat); (lit "lopnong", lon); (lit "lat_lon", lat_lon)]).
Proof.
  intros (species & pk & Hs & Hpk & -> & _)%assign_coords_Ok. split_and!.
  - apply nrows_finish.
  - intros c Hc. by apply get_col_finish_other.
  - apply names_finish.
  - intros Hfresh. eexists _, _, _. by apply finish_fresh.
Qed.

(** C8 on [sightings], which has none of the four headers. *)
Lemma assign_coords_frame_witness :
  assign_coords (RT := text_runtime) (G := counter_rng)
    sightings (lit "Species") master_table_index 0%Z = Ok (enriched_sightings, 2%Z)
  ∧ nrows enriched_sightings = nrows sightings
  ∧ (∀ c, c ∉ reserved → get_col enriched_sightings c = get_col sightings c)
  ∧ names enriched_sightings
    = filter (λ c, c ≠ lit "_species_norm") (names sightings)
      ++ filter (λ c, c ∉ names sightings) [lit "lat"; lit "lopnong"; lit "lat_lon"]
  ∧ ((∀ c, c ∈ reserved → c ∉ names sightings) →
     ∃ lat lon lat_lon,
       columns enriched_sightings
       = columns sightings
         ++ [(lit "lat", lat); (lit "lopnong", lon); (lit "lat_lon", lat_lon)]).
Proof.
  assert (assign_coords (RT := text_runtime) (G := counter_rng)
            sightings (lit "Species") master_table_index 0%Z
          = Ok (enriched_sightings, 2%Z)) as Hrun by (vm_compute; reflexivity).
  split; [exact Hrun|].
  exact (assign_coords_frame (RT := text_runtime) (G := counter_rng)
           sightings (lit "Species") master_table_index 0%Z 2%Z enriched_sightings
           Hrun).
Defined.

(** C8 as stated fails: the cells of a column that the table already calls
    [lat] are replaced. *)
Lemma assign_coords_replaces_lat :
  get_col sightings_with_lat (lit "lat") = Ok [Str (lit "north"); Str (lit "south")]
  ∧ ∃ out,
      assign_coords (RT := text_runtime) (G := counter_rng)
        sightings_with_lat (lit "species") heron_index 0%Z = Ok (out, 1%Z)
      ∧ get_col out (lit "lat") = Ok [Str (lit "10.000000"); Str []].
Proof.
  split; [reflexivity|].
  eexists {| index := range_index 2; columns := _ |}. split; vm_compute; reflexivity.
Qed.
(** C10: whatever the table holds under the headers [lat], [lopnong] and
    [lat_lon], the output holds the derived fields there: two tables with
    the same row index and the same column of names give the same three
    columns.  The header [_species_norm] is not in the output. *)
Theorem assign_coords_overwrites {RT : Runtime} {G : Generator}
    (df df' : DataFrame) (species_col : str)
    (master : gmap (list N) (list (spec_float * spec_float))) (g g1 g2 : rng)
    (out out' : DataFrame) :
  index df = index df' →
  get_col df species_col = get_col df' species_col →
  assign_coords df species_col master g = Ok (out, g1) →
  assign_coords df' species_col master g = Ok (out', g2) →
  (lit "_species_norm" ∉ names out)
  ∧ ∃ lat lon lat_lon,
      get_col out (lit "lat") = Ok lat ∧ get_col out' (lit "lat") = Ok lat
      ∧ get_col out (lit "lopnong") = Ok lon ∧ get_col out' (lit "lopnong") = Ok lon
      ∧ get_col out (lit "lat_lon") = Ok lat_lon
      ∧ get_col out' (lit "lat_lon") = Ok lat_lon.
Proof.
  intros Hn Hcol (species & pk & Hs & Hpk & -> & _)%assign_coords_Ok
    (species' & pk' & Hs' & Hpk' & -> & _)%assign_coords_Ok.
  assert (species' = species) as -> by congruence.
  rewrite <- Hn in Hpk' |- *.
  assert (pk' = pk) as -> by congruence.
  split; [apply species_norm_dropped|].
  eexists _, _, _.
  rewrite !get_col_finish_lat, !get_col_finish_lon, !get_col_finish_pair. done.
Qed.

(** C10 on a table with and without a column [lat]. *)
Lemma assign_coords_overwrites_witness :
  index sightings_with_lat = index sightings_without_lat
  ∧ get_col sightings_with_lat (lit "species")
    = get_col sightings_without_lat (lit "species")
  ∧ assign_coords (RT := text_runtime) (G := counter_rng)
      sightings_with_lat (lit "species") heron_index 0%Z = Ok (enriched_with_lat, 1%Z)
  ∧ assign_coords (RT := text_runtime) (G := counter_rng)
      sightings_without_lat (lit "species") heron_index 0%Z
    = Ok (enriched_without_lat, 1%Z)
  ∧ (lit "_species_norm" ∉ names enriched_with_lat)
  ∧ ∃ lat lon lat_lon,
      get_col enriched_with_lat (lit "lat") = Ok lat
      ∧ get_col enriched_without_lat (lit "lat") = Ok lat
      ∧ get_col enriched_with_lat (lit "lopnong") = Ok lon
      ∧ get_col enriched_without_lat (lit "lopnong") = Ok lon
      ∧ get_col enriched_with_lat (lit "lat_lon") = Ok lat_lon
      ∧ get_col enriched_without_lat (lit "lat_lon") = Ok lat_lon.
Proof.
  assert (assign_coords (RT := text_runtime) (G := counter_rng)
            sightings_with_lat (lit "species") heron_index 0%Z
          = Ok (enriched_with_lat, 1%Z)) as H1 by (vm_compute; reflexivity).
  assert (assign_coords (RT := text_runtime) (G := counter_rng)
            sightings_without_lat (lit "species") heron_index 0%Z
          = Ok (enriched_without_lat, 1%Z)) as H2 by (vm_compute; reflexivity).
  split; [reflexivity|]. split; [reflexivity|]. split; [exact H1|]. split; [exact H2|].
  exact (assign_coords_overwrites (RT := text_runtime) (G := counter_rng)
           sightings_with_lat sightings_without_lat (lit "species") heron_index
           0%Z 1%Z 1%Z enriched_with_lat enriched_without_lat
           eq_refl eq_refl H1 H2).
Defined.
(** C9: the names are visited in ascending order, each distinct name once,
    whatever the order of their first rows, and the rows of a name in row
    order; one index is drawn for every served row, in the order of
    [served_rows], and it is written under the label of that row.  A row
    holds the candidate at the index of the last draw written under its
    label; when the labels of the rows are distinct, as in a table read with
    the default index, that is the index drawn for the row itself.  With a
    generator that counts, the k-th row served gets the k-th value.  So the
    same rows in another order can give a row another candidate: the
    sighting [a] gets the second candidate of the heron when it is the first
    heron of the table, and the first candidate when it is the last. *)
Theorem draws_follow_sorted_groups {RT : Runtime} {G : Generator}
    (df : DataFrame) (species_col : str)
    (master : gmap (list N) (list (spec_float * spec_float))) (g : rng)
    (species : list cell) :
  generator_ok G → wf_frame df → get_col df species_col = Ok species →
  let norm := normalize_species <$> species in
  let plan := schedule master g (label_groups (index df) norm) in
  StronglySorted str_lt (groups norm).*1
  ∧ (∀ k, k ∈ (groups norm).*1 ↔ k ∈ norm)
  ∧ (∀ k idx, (k, idx) ∈ groups norm →
              StronglySorted lt idx ∧ ∀ i, i ∈ idx ↔ norm !! i = Some k)
  ∧ plan.1.*1 = labels_of (index df) (served_rows master norm)
  ∧ length plan.1 = length (served_rows master norm)
  ∧ (∃ out lat lon,
       assign_coords df species_col master g = Ok (out, plan.2)
       ∧ get_col out (lit "lat") = Ok lat
       ∧ get_col out (lit "lopnong") = Ok lon
       ∧ (∀ i l k cands ch,
            index df !! i = Some l → plan.1 !! k = Some (l, (cands, ch)) →
            (∀ k' e, (k < k')%nat → plan.1 !! k' = Some e → e.1 ≠ l) →
            ∃ c, py_index cands ch = Ok c
                 ∧ lat !! i = Some (Str (coord_text c.1))
                 ∧ lon !! i = Some (Str (coord_text c.2)))
       ∧ (NoDup (index df) →
          ∀ i l cands ch,
            index df !! i = Some l → (l, (cands, ch)) ∈ plan.1 →
            ∃ c, py_index cands ch = Ok c
                 ∧ lat !! i = Some (Str (coord_text c.1))
                 ∧ lon !! i = Some (Str (coord_text c.2))))
  ∧ (∀ (g0 : Z) k e,
       (schedule (G := counter_rng) master g0 (label_groups (index df) norm)).1 !! k
         = Some e →
       e.2.2 = counter_value (g0 + Z.of_nat k) 0 (Z.of_nat (length e.2.1)))
  ∧ (assign_coords (RT := text_runtime) (G := counter_rng)
       herons_abc (lit "species") two_species_index 0%Z = Ok (enriched_abc, 3%Z)
     ∧ assign_coords (RT := text_runtime) (G := counter_rng)
         herons_cba (lit "species") two_species_index 0%Z = Ok (enriched_cba, 3%Z)
     ∧ records herons_cba ≡ₚ records herons_abc
     ∧ [Some (Str (lit "a")); Some (Str (lit "Heron")); Some (Str (lit "20.000000"));
        Some (Str (lit "10.000000")); Some (Str (lit "20.000000,10.000000"))]
       ∈ records enriched_abc
     ∧ [Some (Str (lit "a")); Some (Str (lit "Heron")); Some (Str (lit "10.000000"));
        Some (Str (lit "20.000000")); Some (Str (lit "10.000000,20.000000"))]
       ∈ records enriched_cba).
Proof.
  intros HG Hwf Hs norm plan.
  assert (length norm = length (index df)) as Hlen.
  { unfold norm. rewrite length_fmap. by apply (get_col_wf_length df species_col). }
  assert (plan.1.*1 = labels_of (index df) (served_rows master norm)) as Hrows
    by (by apply schedule_labels_rows).
  split_and!.
  - apply groups_keys_sorted.
  - intros k. by rewrite groups_keys, elem_of_sorted, elem_of_remove_dups.
  - intros k idx [_ ->]%elem_of_groups. split; [apply indices_of_sorted|].
    intros i. apply elem_of_indices_of.
  - exact Hrows.
  - rewrite <- (length_fmap fst), Hrows. apply length_labels_of.
    apply Forall_forall. intros i (sp & Hi & _)%elem_of_served_rows.
    rewrite <- Hlen. by eapply lookup_lt_Some.
  - destruct (assign_coords_total df species_col master g species HG Hs)
      as (pk & Hpk & Hrun).
    eexists _, _, _. split_and!;
      [exact Hrun|apply get_col_finish_lat|apply get_col_finish_lon| |].
    { intros i l k cands ch Hl Hk Hlast.
      pose proof (mapM_pick_Ok _ _ Hpk) as Hall.
      destruct (Forall2_lookup_l _ _ _ _ _ Hall Hk) as ([l' c] & Hp & Hfst & Hc).
      cbn [fst snd] in Hfst, Hc. subst l'. exists c. split; [done|].
      assert (assignment (index df) pk !! i = Some (Some c)) as Ha.
      { apply (assignment_lookup_last _ _ k _ l); [done..|].
        intros k' e' Hlt Hk'.
        destruct (Forall2_lookup_r _ _ _ _ _ Hall Hk') as (e & He & Hfst & _).
        rewrite Hfst. by eapply Hlast. }
      by rewrite !list_lookup_fmap, Ha. }
    intros Hnd i l cands ch Hl He.
    destruct (mapM_pick_elem_inv _ _ _ _ _ Hpk He) as (c & Hc & Hidx).
    exists c. split; [done|].
    assert (assignment (index df) pk !! i = Some (Some c)) as Ha.
    { apply (assignment_lookup_NoDup _ _ _ l); [|done..].
      rewrite (mapM_pick_rows _ _ Hpk). fold norm. fold plan. rewrite Hrows.
      apply NoDup_labels_of; [done|apply served_rows_NoDup]. }
    by rewrite !list_lookup_fmap, Ha.
  - intros g0 k e. apply counter_schedule.
  - by vm_compute.
  - by vm_compute.
  - change (records herons_cba) with (reverse (records herons_abc)).
    apply reverse_Permutation.
  - apply list_elem_of_here.
  - do 2 apply list_elem_of_further. apply list_elem_of_here.
Qed.

(** C9 on [herons_abc] with the counting generator. *)
Lemma draws_follow_sorted_groups_witness :
  generator_ok counter_rng
  ∧ wf_frame herons_abc
  ∧ get_col herons_abc (lit "species")
    = Ok [Str (lit "Heron"); Str (lit "Egret"); Str (lit "Heron")]
  ∧ let norm := normalize_species (RT := text_runtime) <$>
                  [Str (lit "Heron"); Str (lit "Egret"); Str (lit "Heron")] in
    let plan := schedule (G := counter_rng) two_species_index 0%Z
                  (label_groups (index herons_abc) norm) in
    StronglySorted str_lt (groups norm).*1
    ∧ (∀ k, k ∈ (groups norm).*1 ↔ k ∈ norm)
    ∧ (∀ k idx, (k, idx) ∈ groups norm →
                StronglySorted lt idx ∧ ∀ i, i ∈ idx ↔ norm !! i = Some k)
    ∧ plan.1.*1 = labels_of (index herons_abc) (served_rows two_species_index norm)
    ∧ length plan.1 = length (served_rows two_species_index norm)
    ∧ (∃ out lat lon,
         assign_coords (RT := text_runtime) (G := counter_rng)
           herons_abc (lit "species") two_species_index 0%Z = Ok (out, plan.2)
         ∧ get_col out (lit "lat") = Ok lat
         ∧ get_col out (lit "lopnong") = Ok lon
         ∧ (∀ i l k cands ch,
              index herons_abc !! i = Some l →
              plan.1 !! k = Some (l, (cands, ch)) →
              (∀ k' e, (k < k')%nat → plan.1 !! k' = Some e → e.1 ≠ l) →
              ∃ c, py_index cands ch = Ok c
                   ∧ lat !! i = Some (Str (coord_text c.1))
                   ∧ lon !! i = Some (Str (coord_text c.2)))
         ∧ (NoDup (index herons_abc) →
            ∀ i l cands ch,
              index herons_abc !! i = Some l → (l, (cands, ch)) ∈ plan.1 →
              ∃ c, py_index cands ch = Ok c
                   ∧ lat !! i = Some (Str (coord_text c.1))
                   ∧ lon !! i = Some (Str (coord_text c.2))))
    ∧ (∀ (g0 : Z) k e,
         (schedule (G := counter_rng) two_species_index g0
            (label_groups (index herons_abc) norm)).1 !! k
           = Some e →
         e.2.2 = counter_value (g0 + Z.of_nat k) 0 (Z.of_nat (length e.2.1)))
    ∧ (assign_coords (RT := text_runtime) (G := counter_rng)
         herons_abc (lit "species") two_species_index 0%Z = Ok (enriched_abc, 3%Z)
       ∧ assign_coords (RT := text_runtime) (G := counter_rng)
           herons_cba (lit "species") two_species_index 0%Z = Ok (enriched_cba, 3%Z)
       ∧ records herons_cba ≡ₚ records herons_abc
       ∧ [Some (Str (lit "a")); Some (Str (lit "Heron"));
          Some (Str (lit "20.000000")); Some (Str (lit "10.000000"));
          Some (Str (lit "20.000000,10.000000"))]
         ∈ records enriched_abc
       ∧ [Some (Str (lit "a")); Some (Str (lit "Heron"));
          Some (Str (lit "10.000000")); Some (Str (lit "20.000000"));
          Some (Str (lit "10.000000,20.000000"))]
         ∈ records enriched_cba).
Proof.
  assert (get_col herons_abc (lit "species")
          = Ok [Str (lit "Heron"); Str (lit "Egret"); Str (lit "Heron")])
    as Hs by reflexivity.
  split; [exact counter_rng_ok|]. split; [exact wf_herons_abc|]. split; [exact Hs|].
  exact (draws_follow_sorted_groups (RT := text_runtime) (G := counter_rng)
           herons_abc (lit "species") two_species_index 0%Z _
           counter_rng_ok wf_herons_abc Hs).
Defined.
(** ** Rows with and without candidates *)

Lemma has_candidates_true master sp :
  has_candidates master sp = true ↔ ∃ cands, master !! sp = Some cands ∧ cands ≠ [].
Proof.
  unfold has_candidates. destruct (master !! sp) as [[|c cands]|]; split; try done.
  - by intros (? & [= <-] & ?).
  - intros _. by eexists.
  - by intros (? & ? & _).
Qed.

Section RowFacts.
Context {RT : Runtime} {G : Generator}.

(** On a table with distinct row labels, a row whose name has no candidates
    is never written. *)
Lemma unmatched_row_unwritten master g idx species pk i l name :
  NoDup idx →
  mapM pick (schedule master g
               (label_groups idx (normalize_species <$> species))).1 = Ok pk →
  idx !! i = Some l → species !! i = Some name →
  has_candidates master (normalize_species name) = false →
  assignment idx pk !! i = Some None.
Proof.
  intros Hnd Hpk Hl Hi Hnone.
  destruct (assignment_lookup idx pk i l Hl) as [[-> _]|(c & Hc & _)]; [done|].
  destruct (picked_is_candidate _ _ _ _ _ _ _ Hpk Hc)
    as (i' & sp & cands & Hl' & Hsp & Hm & Hin).
  rewrite (NoDup_lookup idx i' i l Hnd Hl' Hl) in Hsp.
  rewrite list_lookup_fmap, Hi in Hsp. injection Hsp as <-.
  assert (has_candidates master (normalize_species name) = true) as Ht.
  { apply has_candidates_true. exists cands. split; [exact Hm|].
    intros ->. by apply elem_of_nil in Hin. }
  congruence.
Qed.

(** Under the promises of the generator and on a table with distinct row
    labels, a row whose name has candidates holds one of them. *)
Lemma matched_row_written master g idx species pk i l name cands :
  generator_ok G → NoDup idx →
  mapM pick (schedule master g
               (label_groups idx (normalize_species <$> species))).1 = Ok pk →
  idx !! i = Some l → species !! i = Some name →
  master !! normalize_species name = Some cands → cands ≠ [] →
  ∃ c, c ∈ cands ∧ assignment idx pk !! i = Some (Some c).
Proof.
  intros HG Hnd Hpk Hl Hi Hm Hne.
  set (norm := normalize_species <$> species) in *.
  assert (norm !! i = Some (normalize_species name)) as Hnorm
    by (unfold norm; by rewrite list_lookup_fmap, Hi).
  assert (l ∈ (schedule master g (label_groups idx norm)).1.*1) as Hserved.
  { rewrite (schedule_labels_rows HG). apply elem_of_labels_of. exists i.
    split; [|done]. apply elem_of_served_rows.
    exists (normalize_species name). split; [done|].
    apply has_candidates_true. by exists cands. }
  apply list_elem_of_fmap in Hserved as ([l' [cands' ch]] & -> & He). cbn [fst] in *.
  destruct (mapM_pick_elem_inv _ _ _ _ _ Hpk He) as (c & Hc & Hidx).
  pose proof He as (i' & sp & Hl' & Hsp & Hm' & _)%schedule_labels_elem.
  rewrite (NoDup_lookup idx i' i l' Hnd Hl' Hl) in Hsp.
  assert (cands' = cands) as -> by congruence.
  exists c. split; [by eapply py_index_Ok|].
  apply (assignment_lookup_NoDup _ _ _ l'); [|done..].
  rewrite (mapM_pick_rows _ _ Hpk), (schedule_labels_rows HG).
  apply NoDup_labels_of; [done|apply served_rows_NoDup].
Qed.

Lemma schedule_unmatched {A} master g (gs : list (str * list A)) :
  (∀ sp_idx, sp_idx ∈ gs → has_candidates master sp_idx.1 = false) →
  schedule master g gs = ([], g).
Proof.
  induction gs as [|[sp idx] gs IH]; intros Hgs; [done|]. cbn [schedule fst snd].
  pose proof (Hgs (sp, idx) ltac:(left)) as Hsp. unfold has_candidates in Hsp.
  cbn [fst] in Hsp.
  destruct (master !! sp) as [[|c cands]|]; try done;
    apply IH; intros g' Hg'; apply Hgs; by right.
Qed.

End RowFacts.

Lemma elem_of_find_column (cols : list (str * list cell)) c v :
  NoDup (cols.*1) → (c, v) ∈ cols → find_column cols c = Ok v.
Proof.
  induction cols as [|[c' v'] cols IH]; [by intros _ ?%elem_of_nil|].
  rewrite fmap_cons, NoDup_cons, elem_of_cons, find_column_cons. cbn [fst].
  intros [Hc' Hnd] [[= -> ->]|Hin]; [by rewrite decide_True|].
  rewrite decide_False; [by apply IH|]. intros ->. apply Hc'.
  apply list_elem_of_fmap. by exists (c, v).
Qed.

Lemma find_column_in (cols : list (str * list cell)) c :
  c ∈ cols.*1 → ∃ v, find_column cols c = Ok v.
Proof.
  intros Hc. destruct (find_column cols c) as [v|e] eqn:Hf; [by exists v|].
  by apply find_column_Raise in Hf as [? _].
Qed.
Lemma has_candidates_false master sp :
  has_candidates master sp = false ↔ master !! sp = None ∨ master !! sp = Some [].
Proof.
  unfold has_candidates. destruct (master !! sp) as [[|c cands]|]; split; try done;
    auto; by intros [|].
Qed.

(** ** The index that [load_master] builds, key by key *)

Section IndexExact.
Context {RT : Runtime}.

Lemma omap_lookup_app {A B} (f : A → B) (l : list A) (x : A) (idx : list nat) :
  Forall (λ i, (i < length l)%nat) idx →
  omap (λ i, f <$> (l ++ [x]) !! i) idx = omap (λ i, f <$> l !! i) idx.
Proof.
  induction 1 as [|i idx Hi _ IH]; [done|]. cbn [omap list_omap].
  fold (omap (λ i, f <$> (l ++ [x]) !! i) idx). fold (omap (λ i, f <$> l !! i) idx).
  by rewrite IH, lookup_app_l.
Qed.

Lemma filter_ext_in {A} (P Q : A → Prop) `{∀ x, Decision (P x)} `{∀ x, Decision (Q x)}
    (l : list A) :
  Forall (λ x, P x ↔ Q x) l → filter P l = filter Q l.
Proof.
  induction 1 as [|x l Hx _ IH]; [done|]. rewrite !filter_cons, IH.
  repeat case_decide; naive_solver.
Qed.

Lemma indices_of_snoc k (keys : list str) k' :
  indices_of k (keys ++ [k'])
  = indices_of k keys ++ (if decide (k' = k) then [length keys] else []).
Proof.
  unfold indices_of. rewrite length_app. cbn [length].
  rewrite seq_app, filter_app. cbn [seq]. f_equal.
  - apply filter_ext_in. apply Forall_forall. intros i [_ Hi]%elem_of_seq.
    by rewrite lookup_app_l by lia.
  - rewrite filter_cons, filter_nil. cbn [Nat.add].
    rewrite lookup_app_r, Nat.sub_diag by lia. cbn [lookup list_lookup].
    repeat case_decide; by simplify_eq.
Qed.

Lemma indices_of_lt k (keys : list str) :
  Forall (λ i, (i < length keys)%nat) (indices_of k keys).
Proof.
  apply Forall_forall. intros i [_ [_ Hi]%elem_of_seq]%list_elem_of_filter. lia.
Qed.

(** The rows of a group, read back through their labels, are the rows with
    that key, in row order. *)
Lemma omap_indices_of {A} (rows : list (str * A)) k :
  omap (λ i, snd <$> rows !! i) (indices_of k (rows.*1))
  = (filter (λ r, r.1 = k) rows).*2.
Proof.
  induction rows as [|[k' c] rows IH] using rev_ind; [done|].
  rewrite fmap_app. change ([(k', c)].*1) with [k'].
  rewrite indices_of_snoc, omap_app, filter_app, fmap_app.
  rewrite omap_lookup_app by (rewrite <- (length_fmap fst); apply indices_of_lt).
  rewrite IH. f_equal. rewrite filter_cons, filter_nil. cbn [fst].
  case_decide; [|done]. cbn [omap list_omap].
  rewrite length_fmap, lookup_app_r, Nat.sub_diag by lia. done.
Qed.

Lemma index_rows_fold (rows : list (str * (spec_float * spec_float)))
    (ks : list str) (m : gmap (list N) (list (spec_float * spec_float))) k :
  NoDup ks →
  foldl (λ master g,
           let coords := omap (λ i, snd <$> rows !! i) g.2 in
           match coords with
           | [] => master
           | _ => <[g.1 := coords]> master
           end)
        m ((λ k, (k, indices_of k (rows.*1))) <$> ks) !! k
  = if decide (k ∈ ks) then
      match (filter (λ r, r.1 = k) rows).*2 with
      | [] => m !! k
      | cs => Some cs
      end
    else m !! k.
Proof.
  revert m. induction ks as [|k' ks IH]; intros m Hnd.
  { cbn. by rewrite decide_False by apply not_elem_of_nil. }
  apply NoDup_cons in Hnd as [Hk' Hnd]. cbn [fmap list_fmap foldl fst snd].
  fold ((λ k, (k, indices_of k (rows.*1))) <$> ks).
  rewrite IH by done. cbv zeta. rewrite omap_indices_of.
  destruct (decide (k = k')) as [->|Hne].
  - rewrite (decide_False (P := k' ∈ ks)) by done.
    rewrite (decide_True (P := k' ∈ k' :: ks)) by left.
    destruct ((filter _ rows).*2) as [|c cs]; [done|]. by rewrite lookup_insert_eq.
  - destruct ((filter (λ r : str * (spec_float * spec_float), r.1 = k') rows).*2)
      as [|c cs];
      rewrite ?lookup_insert_ne by done;
      destruct (decide (k ∈ ks)) as [Hks|Hks],
               (decide (k ∈ k' :: ks)) as [Hin|Hnin]; try done;
      try (destruct Hnin; by right);
      apply elem_of_cons in Hin as [?|?]; done.
Qed.

Lemma index_rows_exact (rows : list (str * (spec_float * spec_float))) k :
  index_rows rows !! k
  = match (filter (λ r, r.1 = k) rows).*2 with
    | [] => None
    | cs => Some cs
    end.
Proof.
  unfold index_rows, groups.
  rewrite (index_rows_fold rows (sorted (remove_dups (rows.*1))) ∅ k)
    by apply NoDup_sorted, NoDup_remove_dups.
  rewrite lookup_empty. case_decide as Hk; [done|].
  rewrite elem_of_sorted, elem_of_remove_dups in Hk.
  destruct (filter _ rows) as [|r rs] eqn:Hf; [done|]. destruct Hk.
  assert (r ∈ filter (λ r, r.1 = k) rows) as [<- Hr]%list_elem_of_filter
    by (rewrite Hf; left).
  apply list_elem_of_fmap. by exists r.
Qed.

Lemma kept_rows (nombres lats lons : list cell) :
  (λ r : cell * (cell * cell), (py_str r.1, (to_numeric r.2.1, to_numeric r.2.2)))
    <$> dropna (zip (Str <$> (normalize_species <$> nombres))
                  (zip (Num <$> (to_numeric <$> lats)) (Num <$> (to_numeric <$> lons))))
  = (λ r : cell * (cell * cell),
       (normalize_species r.1, (to_numeric r.2.1, to_numeric r.2.2)))
      <$> filter (λ r, is_nan (to_numeric r.2.1) = false
                       ∧ is_nan (to_numeric r.2.2) = false)
            (zip nombres (zip lats lons)).
Proof.
  unfold dropna. revert lats lons.
  induction nombres as [|n nombres IH]; intros [|a lats] [|b lons]; try done.
  cbn [fmap list_fmap zip zip_with].
  fold (normalize_species <$> nombres). fold (Str <$> (normalize_species <$> nombres)).
  fold (to_numeric <$> lats). fold (Num <$> (to_numeric <$> lats)).
  fold (to_numeric <$> lons). fold (Num <$> (to_numeric <$> lons)).
  fold (zip lats lons). fold (zip nombres (zip lats lons)).
  fold (zip (Num <$> (to_numeric <$> lats)) (Num <$> (to_numeric <$> lons))).
  fold (zip (Str <$> (normalize_species <$> nombres))
          (zip (Num <$> (to_numeric <$> lats)) (Num <$> (to_numeric <$> lons)))).
  rewrite !filter_cons. cbn [fst snd].
  assert (∀ x, isna (Num x) = is_nan x) as Hna by (by intros []).
  rewrite !Hna.
  repeat case_decide; cbn [fmap list_fmap fst snd py_str to_numeric];
    rewrite <- ?IH; try done; naive_solver.
Qed.

Lemma valid_pairs_rows (nombres lats lons : list cell) k :
  (filter (λ r, r.1 = k)
     ((λ r : cell * (cell * cell),
         (normalize_species r.1, (to_numeric r.2.1, to_numeric r.2.2)))
        <$> filter (λ r, is_nan (to_numeric r.2.1) = false
                         ∧ is_nan (to_numeric r.2.2) = false)
              (zip nombres (zip lats lons)))).*2
  = valid_pairs nombres lats lons k.
Proof.
  unfold valid_pairs. induction (zip nombres (zip lats lons)) as [|r l IH]; [done|].
  rewrite !filter_cons.
  repeat (case_decide; cbn [fmap list_fmap fst snd]; rewrite ?filter_cons);
    rewrite <- ?IH; try done; naive_solver.
Qed.

End IndexExact.
(** ** Case folding commutes with the other steps of the normalisation *)

Lemma lstrip_not_space l s :
  l ≠ [] → Forall (λ c, is_space c = false) l → lstrip (l ++ s) = l ++ s.
Proof. intros Hne Hl. destruct Hl as [|c l Hc _]; [done|]. simpl. by rewrite Hc. Qed.

Lemma casefold_char_plain c :
  is_space c = false →
  casefold_char c ≠ [] ∧ Forall (λ x, is_space x = false) (casefold_char c).
Proof.
  intros Hc. split; [apply casefold_char_nonempty|].
  apply Forall_forall. intros x. by apply casefold_char_not_space.
Qed.

Lemma casefold_lstrip s : casefold (lstrip s) = lstrip (casefold s).
Proof.
  induction s as [|c s IH]; [done|]. cbn [lstrip]. rewrite casefold_cons.
  destruct (is_space c) eqn:Hc.
  - rewrite casefold_char_space by done. cbn [app lstrip]. by rewrite Hc.
  - destruct (casefold_char_plain c Hc) as [Hne Hl].
    by rewrite lstrip_not_space, casefold_cons.
Qed.

Lemma casefold_spaces w : Forall (λ c, is_space c = true) w → casefold w = w.
Proof.
  induction 1 as [|c w Hc _ IH]; [done|].
  by rewrite casefold_cons, IH, casefold_char_space.
Qed.

Lemma lstrip_spaces_app ws v :
  Forall (λ c, is_space c = true) ws → lstrip (ws ++ v) = lstrip v.
Proof. induction 1 as [|c ws Hc _ IH]; [done|]. cbn [app lstrip]. by rewrite Hc. Qed.

Lemma rstrip_app_spaces u w :
  Forall (λ c, is_space c = true) w → rstrip (u ++ w) = rstrip u.
Proof.
  intros Hw. unfold rstrip. rewrite reverse_app, lstrip_spaces_app; [done|].
  by apply Forall_reverse.
Qed.

Lemma rstrip_id s : hd_space (reverse s) = false → rstrip s = s.
Proof. intros Hs. unfold rstrip. by rewrite lstrip_id, reverse_involutive. Qed.

(** The folding of the last character of a text is not whitespace unless
    the character is, so the same whitespace is stripped before and after
    the folding. *)
Lemma casefold_rstrip s : casefold (rstrip s) = rstrip (casefold s).
Proof.
  destruct (rstrip_prefix s) as (w & Hs & Hw).
  rewrite Hs at 2. rewrite casefold_app, (casefold_spaces w), rstrip_app_spaces by done.
  symmetry. apply rstrip_id, hd_space_reverse_casefold, hd_space_reverse_rstrip.
Qed.

Lemma casefold_strip s : casefold (strip s) = strip (casefold s).
Proof. unfold strip. by rewrite casefold_rstrip, casefold_lstrip. Qed.

Lemma sub_spaces_from_not_space b l s :
  l ≠ [] → Forall (λ c, is_space c = false) l →
  sub_spaces_from b (l ++ s) = l ++ sub_spaces_from false s.
Proof.
  intros Hne Hl. revert b. induction Hl as [|c l Hc Hl IH]; intros b; [done|].
  cbn [app sub_spaces_from]. rewrite Hc. f_equal.
  destruct l as [|c' l]; [done|]. by apply IH.
Qed.

Lemma casefold_sub_spaces_from b s :
  casefold (sub_spaces_from b s) = sub_spaces_from b (casefold s).
Proof.
  revert b. induction s as [|c s IH]; intros b; [done|].
  rewrite casefold_cons. cbn [sub_spaces_from]. destruct (is_space c) eqn:Hc.
  - rewrite casefold_char_space by done. cbn [app sub_spaces_from]. rewrite Hc.
    destruct b; [apply IH|]. rewrite casefold_cons, IH. done.
  - destruct (casefold_char_plain c Hc) as [Hne Hl].
    by rewrite sub_spaces_from_not_space, casefold_cons, IH.
Qed.

Lemma casefold_char_close c :
  c ≠ RPAREN → c ≠ LF → Forall (λ x, x ≠ RPAREN ∧ x ≠ LF) (casefold_char c).
Proof.
  intros Hp Hl. apply Forall_forall. intros x Hx.
  destruct (is_space c) eqn:Hc.
  - rewrite casefold_char_space in Hx by done.
    apply list_elem_of_singleton in Hx as ->. done.
  - pose proof (casefold_char_not_space c x Hc Hx) as Hsx.
    split; [|by intros ->].
    destruct (is_paren c) eqn:Hpc.
    + rewrite casefold_char_paren in Hx by done.
      apply list_elem_of_singleton in Hx as ->. done.
    + pose proof (casefold_char_not_paren c x Hpc Hx) as Hpx. by intros ->.
Qed.

Lemma find_close_plain l s :
  Forall (λ x, x ≠ RPAREN ∧ x ≠ LF) l → find_close (l ++ s) = find_close s.
Proof.
  induction 1 as [|x l [Hp Hl] _ IH]; [done|]. cbn [app find_close].
  apply N.eqb_neq in Hp, Hl. by rewrite Hp, Hl.
Qed.

Lemma find_close_casefold s : find_close (casefold s) = casefold <$> find_close s.
Proof.
  induction s as [|c s IH]; [done|]. rewrite casefold_cons. cbn [find_close].
  destruct (N.eqb_spec c RPAREN) as [->|Hp]; [done|].
  destruct (N.eqb_spec c LF) as [->|Hl]; [done|].
  by rewrite find_close_plain by (by apply casefold_char_close).
Qed.

Lemma match_parens_casefold s : match_parens (casefold s) = casefold <$> match_parens s.
Proof.
  unfold match_parens. rewrite <- casefold_lstrip.
  destruct (lstrip s) as [|c r]; [done|]. rewrite casefold_cons.
  destruct (N.eqb_spec c LPAREN) as [->|Hp].
  - cbn [casefold_char app]. change (casefold_char LPAREN) with [LPAREN].
    cbn [app]. change (LPAREN =? LPAREN) with true. cbv iota.
    rewrite find_close_casefold. destruct (find_close r) as [rest|]; [|done].
    cbn [fmap option_fmap option_map]. by rewrite casefold_lstrip.
  - destruct (is_paren c) eqn:Hpc.
    + rewrite casefold_char_paren by done. cbn [app].
      by apply N.eqb_neq in Hp as ->.
    + pose proof (casefold_char_nonempty c) as Hne.
      pose proof (casefold_char_not_paren c) as Hnp.
      destruct (casefold_char c) as [|x l]; [done|]. cbn [app].
      specialize (Hnp x Hpc ltac:(left)).
      unfold is_paren in Hnp. apply orb_false_iff in Hnp as [-> _]. done.
Qed.

Lemma sub_parens_plain l t :
  Forall (λ x, is_space x = false ∧ is_paren x = false) l →
  sub_parens (l ++ t) = l ++ sub_parens t.
Proof.
  induction 1 as [|x l [Hs Hp] _ IH]; [done|]. cbn [app].
  rewrite sub_parens_cons, IH. unfold match_parens. cbn [lstrip]. rewrite Hs.
  unfold is_paren in Hp. apply orb_false_iff in Hp as [-> _]. done.
Qed.

Lemma sub_parens_casefold s : sub_parens (casefold s) = casefold (sub_parens s).
Proof.
  remember (length s) as n eqn:Hn. revert s Hn.
  induction n as [n IH] using lt_wf_ind. intros [|c r] ->; [done|].
  rewrite (sub_parens_cons c r).
  destruct (match_parens (c :: r)) as [rest|] eqn:Hm.
  - pose proof Hm as (w & Hw & Hne & _)%match_parens_Some.
    assert (length rest < length (c :: r))%nat as Hlt.
    { rewrite Hw, length_app. destruct w; [done|]. simpl. lia. }
    pose proof (match_parens_casefold (c :: r)) as Hmc. rewrite Hm in Hmc.
    pose proof (casefold_char_nonempty c) as Hcne.
    rewrite casefold_cons in Hmc |- *.
    destruct (casefold_char c) as [|x l]; [done|]. cbn [app] in Hmc |- *.
    rewrite sub_parens_cons, Hmc. cbn [fmap option_fmap option_map].
    rewrite (IH _ Hlt rest eq_refl). done.
  - pose proof (match_parens_casefold (c :: r)) as Hmc. rewrite Hm in Hmc.
    rewrite casefold_cons in Hmc. rewrite (casefold_cons c r).
    rewrite (casefold_cons c (sub_parens r)).
    rewrite <- (IH (length r) (Nat.lt_succ_diag_r _) r eq_refl).
    destruct (is_space c) eqn:Hs.
    { rewrite casefold_char_space in Hmc |- * by done. cbn [app] in Hmc |- *.
      by rewrite sub_parens_cons, Hmc. }
    destruct (is_paren c) eqn:Hp.
    { rewrite casefold_char_paren in Hmc |- * by done. cbn [app] in Hmc |- *.
      by rewrite sub_parens_cons, Hmc. }
    apply sub_parens_plain. apply Forall_forall. intros x Hx. split.
    + by apply (casefold_char_not_space c).
    + by apply (casefold_char_not_paren c).
Qed.

Section CaseFacts.
Context {RT : Runtime}.

(** The normalisation reads its input only through its case folding. *)
Lemma normalize_text_casefold s :
  normalize_text s = strip (sub_spaces (sub_parens (casefold s))).
Proof.
  unfold normalize_text, sub_spaces.
  by rewrite casefold_strip, casefold_sub_spaces_from, sub_parens_casefold.
Qed.

End CaseFacts.
(** ** A parenthetical at the end of a name *)

Lemma match_parens_space c t : is_space c = true → match_parens (c :: t) = match_parens t.
Proof. intros Hc. unfold match_parens. cbn [lstrip]. by rewrite Hc. Qed.

Lemma find_close_group x :
  RPAREN ∉ x → LF ∉ x → find_close (x ++ [RPAREN]) = Some [].
Proof.
  intros Hp Hl. rewrite find_close_plain; [done|].
  apply Forall_forall. intros c Hc. split; by intros ->.
Qed.

Lemma match_parens_trailing s x :
  LPAREN ∉ s → RPAREN ∉ x → LF ∉ x →
  match_parens (s ++ LPAREN :: x ++ [RPAREN])
  = if forallb is_space s then Some [] else None.
Proof.
  intros Hs Hp Hl. induction s as [|c s IH].
  { cbn [app forallb]. unfold match_parens. cbn [lstrip].
    change (is_space LPAREN) with false. cbv iota.
    change (LPAREN =? LPAREN) with true. cbv iota.
    by rewrite find_close_group. }
  apply not_elem_of_cons in Hs as [Hc Hs]. cbn [app forallb].
  destruct (is_space c) eqn:Hsc.
  - rewrite match_parens_space by done. cbn [andb]. by apply IH.
  - cbn [andb]. unfold match_parens. cbn [lstrip]. rewrite Hsc.
    by apply not_eq_sym, N.eqb_neq in Hc as ->.
Qed.

Lemma sub_parens_trailing a x :
  LPAREN ∉ a → RPAREN ∉ x → LF ∉ x →
  ∃ a0 w,
    a = a0 ++ w ∧ Forall (λ c, is_space c = true) w
    ∧ sub_parens (a ++ LPAREN :: x ++ [RPAREN]) = a0 ++ [SPACE].
Proof.
  intros Ha Hp Hl. induction a as [|c a IH].
  { exists [], []. split_and!; [done..|]. cbn [app].
    pose proof (match_parens_trailing [] x Ha Hp Hl) as Hm. cbn [app forallb] in Hm.
    by rewrite sub_parens_cons, Hm. }
  pose proof Ha as [Hc Ha']%not_elem_of_cons.
  cbn [app]. rewrite sub_parens_cons.
  change (c :: a ++ LPAREN :: x ++ [RPAREN])
    with ((c :: a) ++ LPAREN :: x ++ [RPAREN]).
  rewrite match_parens_trailing by done.
  destruct (forallb is_space (c :: a)) eqn:Hall.
  - exists [], (c :: a). split_and!; [done| |done].
    apply Forall_forall. intros y Hy.
    rewrite forallb_forall in Hall. apply Hall. by apply list_elem_of_In.
  - destruct (IH Ha') as (a0 & w & -> & Hw & ->).
    by exists (c :: a0), w.
Qed.

Lemma lstrip_app_spaces t w :
  Forall (λ c, is_space c = true) w →
  ∃ w', lstrip (t ++ w) = lstrip t ++ w' ∧ Forall (λ c, is_space c = true) w'.
Proof.
  intros Hw. induction t as [|c t IH].
  - exists []. split; [|done]. cbn [app lstrip].
    rewrite <- (app_nil_r w). by rewrite lstrip_spaces_app.
  - cbn [app lstrip]. destruct (is_space c); [done|]. by exists w.
Qed.

Lemma strip_app_spaces t w :
  Forall (λ c, is_space c = true) w → strip (t ++ w) = strip t.
Proof.
  intros Hw. unfold strip. destruct (lstrip_app_spaces t w Hw) as (w' & -> & Hw').
  by apply rstrip_app_spaces.
Qed.

Lemma sub_spaces_from_spaces b w :
  Forall (λ c, is_space c = true) w →
  Forall (λ c, is_space c = true) (sub_spaces_from b w).
Proof.
  intros Hw. revert b. induction Hw as [|c w Hc _ IH]; intros b; [done|].
  cbn [sub_spaces_from]. rewrite Hc. destruct b; [apply IH|].
  constructor; [done|apply IH].
Qed.

Lemma sub_spaces_from_app_spaces b a0 w :
  Forall (λ c, is_space c = true) w →
  ∃ w', sub_spaces_from b (a0 ++ w) = sub_spaces_from b a0 ++ w'
        ∧ Forall (λ c, is_space c = true) w'.
Proof.
  intros Hw. revert b. induction a0 as [|c a0 IH]; intros b.
  - exists (sub_spaces_from b w). split; [done|]. by apply sub_spaces_from_spaces.
  - cbn [app sub_spaces_from]. destruct (is_space c).
    + destruct b.
      * apply IH.
      * destruct (IH true) as (w' & -> & Hw'). by exists w'.
    + destruct (IH false) as (w' & -> & Hw'). by exists w'.
Qed.

Lemma strip_sub_spaces_trailing a0 w :
  Forall (λ c, is_space c = true) w →
  strip (sub_spaces (a0 ++ w)) = strip (sub_spaces a0).
Proof.
  intros Hw. unfold sub_spaces.
  destruct (sub_spaces_from_app_spaces false a0 w Hw) as (w' & -> & Hw').
  by apply strip_app_spaces.
Qed.

Lemma has_group_no_open a : LPAREN ∉ a → has_group a = false.
Proof.
  induction a as [|c a IH]; [done|]. intros [Hc Ha]%not_elem_of_cons.
  cbn [has_group]. rewrite IH by done.
  by apply not_eq_sym, N.eqb_neq in Hc as ->.
Qed.
(** ** The shape of a normalized name *)

Lemma tidy_from_shape b t :
  tidy_from b t = true →
  (∀ c, c ∈ t → is_space c = true → c = SPACE)
  ∧ (∀ i, t !! i = Some SPACE → t !! S i ≠ Some SPACE)
  ∧ (b = true → head t ≠ Some SPACE).
Proof.
  revert b. induction t as [|c t IH]; intros b.
  { intros _. split_and!; [by intros c ?%elem_of_nil|done..]. }
  cbn [tidy_from]. destruct (is_space c) eqn:Hc.
  - rewrite !andb_true_iff, negb_true_iff, N.eqb_eq. intros [[-> ->] Ht].
    destruct (IH true Ht) as (Hsp & Hadj & Hhd). split_and!; [| |done].
    + intros c' [->|Hin]%elem_of_cons; [done|by apply Hsp].
    + intros [|i]; cbn [lookup list_lookup].
      * intros _ Ht0. destruct t as [|c' t]; [done|].
        injection Ht0 as ->. by destruct Hhd.
      * apply Hadj.
  - intros Ht. destruct (IH false Ht) as (Hsp & Hadj & _). split_and!.
    + intros c' [->|Hin]%elem_of_cons; [by rewrite Hc|by apply Hsp].
    + intros [|i]; cbn [lookup list_lookup]; [|apply Hadj].
      intros [= ->]. by vm_compute in Hc.
    + intros _ [= ->]. by vm_compute in Hc.
Qed.

Lemma shape_tidy_from b t :
  (∀ c, c ∈ t → is_space c = true → c = SPACE) →
  (∀ i, t !! i = Some SPACE → t !! S i ≠ Some SPACE) →
  (b = true → head t ≠ Some SPACE) →
  tidy_from b t = true.
Proof.
  revert b. induction t as [|c t IH]; intros b Hsp Hadj Hhd; [done|].
  cbn [tidy_from]. destruct (is_space c) eqn:Hc.
  - assert (c = SPACE) as -> by (apply Hsp; [left|done]).
    rewrite !andb_true_iff, negb_true_iff, N.eqb_eq. split_and!; [|done|].
    + destruct b; [|done]. by destruct Hhd.
    + apply IH.
      * intros c' Hin. apply Hsp. by right.
      * intros i. apply (Hadj (S i)).
      * intros _ Hh. apply (Hadj 0%nat); [done|]. by destruct t.
  - apply IH.
    + intros c' Hin. apply Hsp. by right.
    + intros i. apply (Hadj (S i)).
    + done.
Qed.

Lemma hd_space_head t :
  (∀ c, c ∈ t → is_space c = true → c = SPACE) →
  hd_space t = false ↔ head t ≠ Some SPACE.
Proof.
  intros Hsp. destruct t as [|c t]; [done|]. cbn [hd_space head]. split.
  - intros Hc [= ->]. by vm_compute in Hc.
  - intros Hne. destruct (is_space c) eqn:Hc; [|done].
    destruct Hne. f_equal. apply Hsp; [left|done].
Qed.

Lemma trimmed_single_spaced_iff t :
  trimmed_single_spaced t
  ↔ tidy_from false t = true ∧ hd_space t = false ∧ hd_space (reverse t) = false.
Proof.
  unfold trimmed_single_spaced. split.
  - intros (Hsp & Hadj & Hhd & Hlast). split_and!.
    + by apply shape_tidy_from.
    + by rewrite hd_space_head.
    + rewrite hd_space_head.
      * by rewrite head_reverse.
      * intros c Hc. apply Hsp. by apply elem_of_reverse.
  - intros (Ht & Hhd & Hlast).
    destruct (tidy_from_shape false t Ht) as (Hsp & Hadj & _). split_and!; [done..| |].
    + by rewrite <- hd_space_head.
    + rewrite <- head_reverse. rewrite <- hd_space_head; [done|].
      intros c Hc. apply Hsp. by apply elem_of_reverse.
Qed.

Section Shape.
Context {RT : Runtime}.

Lemma normalize_text_shape s :
  tidy_from false (normalize_text s) = true
  ∧ hd_space (normalize_text s) = false
  ∧ hd_space (reverse (normalize_text s)) = false.
Proof.
  unfold normalize_text. split_and!.
  - apply tidy_casefold, tidy_strip, tidy_sub_spaces_from.
  - apply hd_space_casefold, hd_space_rstrip, hd_space_lstrip.
  - apply hd_space_reverse_casefold, hd_space_reverse_rstrip.
Qed.

Lemma has_group_normalize_text s : LF ∉ s → has_group (normalize_text s) = false.
Proof.
  intros Hs. unfold normalize_text.
  rewrite <- has_group_parens, parens_casefold, parens_strip.
  unfold sub_spaces. rewrite parens_sub_spaces_from, has_group_parens.
  by apply has_group_sub_parens.
Qed.

End Shape.
(** ** Whitespace collapse and the removal of parentheticals *)

Lemma sub_spaces_from_hd b s : hd_space s = false → sub_spaces_from b s = sub_spaces s.
Proof. destruct s as [|c s]; [done|]. cbn. by intros ->. Qed.

Lemma hd_space_sub_spaces s : hd_space s = false → hd_space (sub_spaces s) = false.
Proof. destruct s as [|c s]; [done|]. cbn. intros Hc. rewrite Hc. cbn. done. Qed.

Lemma lstrip_sub_spaces_from b s :
  lstrip (sub_spaces_from b s) = sub_spaces (lstrip s).
Proof.
  revert b. induction s as [|c s IH]; intros b; [done|].
  cbn [sub_spaces_from lstrip]. destruct (is_space c) eqn:Hc.
  - destruct b; [apply IH|]. cbn [lstrip]. change (is_space SPACE) with true.
    cbv iota. apply IH.
  - cbn [lstrip]. rewrite Hc. unfold sub_spaces. cbn [sub_spaces_from]. by rewrite Hc.
Qed.

Lemma find_close_sub_spaces_from b s :
  LF ∉ s → find_close (sub_spaces_from b s) = sub_spaces <$> find_close s.
Proof.
  revert b. induction s as [|c s IH]; intros b Hlf; [done|].
  apply not_elem_of_cons in Hlf as [Hc Hlf].
  cbn [sub_spaces_from find_close]. destruct (is_space c) eqn:Hsc.
  - assert ((c =? RPAREN) = false) as Hp.
    { apply N.eqb_neq. intros ->. done. }
    assert ((c =? LF) = false) as Hl by (by apply N.eqb_neq, not_eq_sym).
    rewrite Hp, Hl. destruct b; [by apply IH|]. cbn [find_close].
    change (SPACE =? RPAREN) with false. change (SPACE =? LF) with false.
    cbv iota. by apply IH.
  - cbn [find_close]. destruct (c =? RPAREN); [done|].
    destruct (N.eqb_spec c LF) as [->|_]; [done|]. by apply IH.
Qed.

Lemma elem_of_lstrip x s : x ∈ lstrip s → x ∈ s.
Proof.
  destruct (lstrip_suffix s) as (w & Hw & _). intros Hx. rewrite Hw.
  apply elem_of_app. by right.
Qed.

Lemma match_parens_sub_spaces b s :
  LF ∉ s → match_parens (sub_spaces_from b s) = sub_spaces <$> match_parens s.
Proof.
  intros Hlf. unfold match_parens. rewrite lstrip_sub_spaces_from.
  pose proof (hd_space_lstrip s) as Hhd.
  assert (LF ∉ lstrip s) as Hlf' by (intros ?%elem_of_lstrip; done).
  destruct (lstrip s) as [|c r]; [done|]. cbn [hd_space] in Hhd.
  apply not_elem_of_cons in Hlf' as [_ Hlf'].
  unfold sub_spaces at 1. cbn [sub_spaces_from]. rewrite Hhd.
  destruct (c =? LPAREN); [|done].
  rewrite find_close_sub_spaces_from by done.
  destruct (find_close r) as [y|]; [|done]. cbn [fmap option_fmap option_map].
  by rewrite <- (lstrip_sub_spaces_from false y).
Qed.

(** Collapsing the whitespace before removing the parentheticals changes
    nothing once the whitespace is collapsed again. *)
Lemma sub_spaces_sub_parens b b' s :
  (b' = true → b = true) → LF ∉ s →
  sub_spaces_from b (sub_parens (sub_spaces_from b' s))
  = sub_spaces_from b (sub_parens s).
Proof.
  remember (length s) as n eqn:Hn. revert s Hn b b'.
  induction n as [n IH] using lt_wf_ind. intros [|c r] -> b b' Hb Hlf; [done|].
  pose proof (match_parens_sub_spaces b' (c :: r) Hlf) as Hm.
  pose proof Hlf as [Hc Hlf']%not_elem_of_cons.
  rewrite (sub_parens_cons c r).
  destruct (match_parens (c :: r)) as [rest|] eqn:Hmr.
  - pose proof Hmr as (w & Hw & Hne & _)%match_parens_Some.
    assert (length rest < length (c :: r))%nat as Hlt.
    { rewrite Hw, length_app. destruct w; [done|]. simpl. lia. }
    assert (LF ∉ rest) as Hlfr.
    { intros Hin. apply Hlf. rewrite Hw. apply elem_of_app. by right. }
    cbn [fmap option_fmap option_map] in Hm.
    destruct (sub_spaces_from b' (c :: r)) as [|c' r'] eqn:Hs; [done|].
    rewrite sub_parens_cons, Hm. cbn [sub_spaces_from].
    change (is_space SPACE) with true. cbv iota.
    assert (sub_spaces_from true (sub_parens (sub_spaces rest))
            = sub_spaces_from true (sub_parens rest)) as ->; [|done].
    by apply (IH _ Hlt rest eq_refl true false).
  - cbn [fmap option_fmap option_map] in Hm.
    cbn [sub_spaces_from] in Hm |- *. destruct (is_space c) eqn:Hsc.
    + destruct b'.
      * rewrite Hb by done.
        by apply (IH (length r) (Nat.lt_succ_diag_r _) r eq_refl true true).
      * rewrite sub_parens_cons, Hm. cbn [sub_spaces_from].
        change (is_space SPACE) with true. cbv iota.
        assert (sub_spaces_from true (sub_parens (sub_spaces_from true r))
                = sub_spaces_from true (sub_parens r)) as ->; [|done].
        by apply (IH (length r) (Nat.lt_succ_diag_r _) r eq_refl true true).
    + rewrite sub_parens_cons, Hm. cbn [sub_spaces_from]. rewrite Hsc. f_equal.
      by apply (IH (length r) (Nat.lt_succ_diag_r _) r eq_refl false false).
Qed.

(** *** Whitespace around a name *)

Lemma find_close_no_close w : RPAREN ∉ w → find_close w = None.
Proof.
  induction w as [|c w IH]; [done|]. intros [Hc Hw]%not_elem_of_cons.
  cbn [find_close]. apply not_eq_sym, N.eqb_neq in Hc as ->.
  destruct (c =? LF); [done|]. by apply IH.
Qed.

Lemma find_close_app_None r w :
  find_close r = None → RPAREN ∉ w → find_close (r ++ w) = None.
Proof.
  intros Hr Hw. induction r as [|c r IH]; [by apply find_close_no_close|].
  cbn [app find_close] in Hr |- *. destruct (c =? RPAREN); [done|].
  destruct (c =? LF); [done|]. by apply IH.
Qed.

Lemma find_close_app_Some r after w :
  find_close r = Some after → find_close (r ++ w) = Some (after ++ w).
Proof.
  induction r as [|c r IH]; [done|]. cbn [app find_close].
  destruct (c =? RPAREN); [by intros [= ->]|]. destruct (c =? LF); [done|]. apply IH.
Qed.

Lemma spaces_no_close w : Forall (λ c, is_space c = true) w → RPAREN ∉ w.
Proof. rewrite Forall_forall. intros Hw Hin. by apply Hw in Hin. Qed.

Lemma spaces_no_open w : Forall (λ c, is_space c = true) w → LPAREN ∉ w.
Proof. rewrite Forall_forall. intros Hw Hin. by apply Hw in Hin. Qed.

Lemma lstrip_spaces w : Forall (λ c, is_space c = true) w → lstrip w = [].
Proof. intros Hw. rewrite <- (app_nil_r w). by rewrite lstrip_spaces_app. Qed.

Lemma lstrip_app_cons t w c r : lstrip t = c :: r → lstrip (t ++ w) = c :: r ++ w.
Proof.
  induction t as [|c' t IH]; [done|]. cbn [app lstrip].
  destruct (is_space c'); [apply IH|]. by intros [= -> ->].
Qed.

Lemma match_parens_app_spaces t w :
  Forall (λ c, is_space c = true) w →
  match match_parens t with
  | Some rest =>
      ∃ w', match_parens (t ++ w) = Some (rest ++ w')
            ∧ Forall (λ c, is_space c = true) w'
  | None => match_parens (t ++ w) = None
  end.
Proof.
  intros Hw. unfold match_parens.
  destruct (lstrip t) as [|c r] eqn:Ht.
  { pose proof (hd_space_lstrip (t ++ w)) as Hhd.
    destruct (lstrip_app_spaces t w Hw) as (w' & Heq & Hw').
    rewrite Heq, Ht in Hhd |- *. cbn [app] in Hhd |- *.
    destruct w' as [|c' w']; [done|]. cbn [hd_space] in Hhd.
    apply Forall_cons in Hw' as [Hc' _]. congruence. }
  rewrite (lstrip_app_cons t w c r Ht). destruct (c =? LPAREN); [|done].
  destruct (find_close r) as [after|] eqn:Hr.
  - rewrite (find_close_app_Some r after w Hr). cbn [fmap option_fmap option_map].
    destruct (lstrip_app_spaces after w Hw) as (w' & -> & Hw'). by exists w'.
  - rewrite find_close_app_None by (by try apply spaces_no_close). done.
Qed.

Lemma sub_parens_app_spaces t w :
  Forall (λ c, is_space c = true) w →
  ∃ w', sub_parens (t ++ w) = sub_parens t ++ w'
        ∧ Forall (λ c, is_space c = true) w'.
Proof.
  remember (length t) as n eqn:Hn. revert t Hn w.
  induction n as [n IH] using lt_wf_ind. intros [|c r] -> w Hw.
  { exists w. split; [|done]. cbn [app].
    by apply sub_parens_id, has_group_no_open, spaces_no_open. }
  pose proof (match_parens_app_spaces (c :: r) w Hw) as Hm.
  cbn [app] in Hm |- *. rewrite !sub_parens_cons.
  destruct (match_parens (c :: r)) as [rest|] eqn:Hmr.
  - destruct Hm as (w' & -> & Hw').
    pose proof Hmr as (w0 & Hw0 & Hne & _)%match_parens_Some.
    assert (length rest < length (c :: r))%nat as Hlt.
    { rewrite Hw0, length_app. destruct w0; [done|]. simpl. lia. }
    destruct (IH _ Hlt rest eq_refl w' Hw') as (w'' & -> & Hw'').
    by exists w''.
  - rewrite Hm.
    destruct (IH (length r) (Nat.lt_succ_diag_r _) r eq_refl w Hw) as (w' & -> & Hw').
    by exists w'.
Qed.

Section Surrounding.
Context {RT : Runtime}.

Lemma normalize_text_app_spaces t w :
  Forall (λ c, is_space c = true) w → normalize_text (t ++ w) = normalize_text t.
Proof.
  intros Hw. unfold normalize_text.
  destruct (sub_parens_app_spaces t w Hw) as (w' & -> & Hw').
  by rewrite strip_sub_spaces_trailing.
Qed.

Lemma normalize_text_cons_space c s :
  is_space c = true → normalize_text (c :: s) = normalize_text s.
Proof.
  intros Hc. unfold normalize_text. rewrite sub_parens_cons, match_parens_space by done.
  destruct (match_parens s) as [rest|] eqn:Hm.
  - destruct s as [|c' r]; [done|]. by rewrite (sub_parens_cons c' r), Hm.
  - f_equal. unfold strip, sub_spaces. cbn [sub_spaces_from]. rewrite Hc.
    cbn [lstrip]. change (is_space SPACE) with true. cbv iota.
    by rewrite !lstrip_sub_spaces_from.
Qed.

Lemma normalize_text_spaces_app w t :
  Forall (λ c, is_space c = true) w → normalize_text (w ++ t) = normalize_text t.
Proof.
  induction 1 as [|c w Hc _ IH]; [done|]. cbn [app].
  by rewrite normalize_text_cons_space.
Qed.

Lemma normalize_text_strip s : normalize_text (strip s) = normalize_text s.
Proof.
  unfold strip.
  destruct (lstrip_suffix s) as (w1 & Hs & Hw1).
  destruct (rstrip_prefix (lstrip s)) as (w2 & Hl & Hw2).
  rewrite Hs at 2. rewrite normalize_text_spaces_app by done.
  rewrite Hl at 2. by rewrite normalize_text_app_spaces.
Qed.

Lemma LF_sub_spaces_from b s : LF ∉ sub_spaces_from b s.
Proof.
  revert b. induction s as [|c s IH]; intros b; [by intros ?%elem_of_nil|].
  cbn [sub_spaces_from]. destruct (is_space c) eqn:Hc.
  - destruct b; [apply IH|]. apply not_elem_of_cons. split; [done|apply IH].
  - apply not_elem_of_cons. split; [|apply IH]. intros <-. done.
Qed.

Lemma normalize_text_sub_spaces s :
  LF ∉ s → normalize_text (sub_spaces s) = normalize_text s.
Proof.
  intros Hlf. unfold normalize_text, sub_spaces.
  by rewrite (sub_spaces_sub_parens false false s).
Qed.

End Surrounding.
(** ** Rows of unknown species at the end of the table *)

Lemma StronglySorted_filter {A} (R : relation A) (P : A → Prop)
    `{∀ x, Decision (P x)} (l : list A) :
  StronglySorted R l → StronglySorted R (filter P l).
Proof.
  induction 1 as [|x l Hl IH Hx]; [constructor|]. rewrite filter_cons.
  case_decide; [|done]. constructor; [done|].
  apply Forall_forall. intros y [_ Hy]%list_elem_of_filter.
  by eapply Forall_forall in Hx.
Qed.

Lemma filter_sorted_keys (P : str → Prop) `{∀ k, Decision (P k)} (l1 l2 : list str) :
  (∀ k, P k → (k ∈ l1 ↔ k ∈ l2)) →
  filter P (sorted (remove_dups l1)) = filter P (sorted (remove_dups l2)).
Proof.
  intros Hk. apply (StronglySorted_unique str_le).
  - apply StronglySorted_filter, sorted_sorted.
  - apply StronglySorted_filter, sorted_sorted.
  - apply NoDup_Permutation.
    + apply NoDup_filter, NoDup_sorted, NoDup_remove_dups.
    + apply NoDup_filter, NoDup_sorted, NoDup_remove_dups.
    + intros k. rewrite !list_elem_of_filter, !elem_of_sorted, !elem_of_remove_dups.
      naive_solver.
Qed.

Lemma indices_of_app_absent k (l more : list str) :
  k ∉ more → indices_of k (l ++ more) = indices_of k l.
Proof.
  induction more as [|k' more IH] using rev_ind; [by rewrite app_nil_r|].
  rewrite not_elem_of_app, not_elem_of_cons. intros [Hmore [Hk' _]].
  rewrite app_assoc, indices_of_snoc, IH by done.
  rewrite decide_False by done. by rewrite app_nil_r.
Qed.

Lemma filter_fmap_ext {A B} (Q : B → Prop) `{∀ y, Decision (Q y)}
    (P : A → Prop) `{∀ x, Decision (P x)} (f f' : A → B) (l : list A) :
  (∀ x, x ∈ l → (Q (f x) ↔ P x) ∧ (Q (f' x) ↔ P x) ∧ (P x → f x = f' x)) →
  filter Q (f <$> l) = f' <$> filter P l.
Proof.
  induction l as [|x l IH]; intros Hx; [done|].
  rewrite fmap_cons, !filter_cons.
  destruct (Hx x ltac:(left)) as (Hq & Hq' & Hf).
  rewrite IH by (intros y Hy; apply Hx; by right).
  destruct (decide (Q (f x))) as [HQ|HQ], (decide (P x)) as [HP|HP].
  - rewrite fmap_cons. f_equal. by apply Hf.
  - by apply Hq in HQ.
  - by apply Hq in HP.
  - done.
Qed.

Lemma labels_of_app_l idx idx2 pos :
  Forall (λ i, (i < length idx)%nat) pos →
  labels_of (idx ++ idx2) pos = labels_of idx pos.
Proof.
  unfold labels_of. induction 1 as [|i pos Hi _ IH]; [done|]. cbn [omap list_omap].
  fold (omap (λ i, (idx ++ idx2) !! i) pos). fold (omap (λ i, idx !! i) pos).
  by rewrite IH, lookup_app_l.
Qed.

Lemma label_groups_keys idx keys :
  label_groups idx keys
  = (λ k, (k, labels_of idx (indices_of k keys))) <$> sorted (remove_dups keys).
Proof. unfold label_groups, groups. by rewrite <- list_fmap_compose. Qed.

Section Appended.
Context {G : Generator}.

Lemma schedule_filter {A} master g (gs : list (str * list A)) :
  schedule master g gs
  = schedule master g (filter (λ p, has_candidates master p.1 = true) gs).
Proof.
  revert g. induction gs as [|[sp idx] gs IH]; intros g; [done|].
  rewrite filter_cons. cbn [fst].
  destruct (decide (has_candidates master sp = true)) as [Hc|Hc].
  - cbn [schedule fst snd].
    destruct (master !! sp) as [[|c cands]|]; [apply IH| |apply IH]. by rewrite IH.
  - cbn [schedule fst snd]. unfold has_candidates in Hc.
    destruct (master !! sp) as [[|c cands]|]; [apply IH|done|apply IH].
Qed.

Lemma matched_groups_app master idx idx2 (norm more : list str) :
  length norm = length idx →
  (∀ k, k ∈ more → has_candidates master k = false) →
  filter (λ p, has_candidates master p.1 = true)
    (label_groups (idx ++ idx2) (norm ++ more))
  = filter (λ p, has_candidates master p.1 = true) (label_groups idx norm).
Proof.
  intros Hlen Hmore. rewrite !label_groups_keys.
  rewrite (filter_fmap_ext _ (λ k, has_candidates master k = true)
             _ (λ k, (k, labels_of idx (indices_of k norm)))).
  2:{ intros k _. split_and!; [done..|]. intros Hk. f_equal.
      rewrite indices_of_app_absent
        by (intros Hin; apply Hmore in Hin; congruence).
      apply labels_of_app_l. rewrite <- Hlen. apply indices_of_lt. }
  rewrite (filter_fmap_ext _ (λ k, has_candidates master k = true)
             _ (λ k, (k, labels_of idx (indices_of k norm)))
             (sorted (remove_dups norm))) by done.
  f_equal. apply filter_sorted_keys. intros k Hk. rewrite elem_of_app.
  split; [|by left]. intros [?|Hin]; [done|]. apply Hmore in Hin. congruence.
Qed.

Lemma schedule_app_unmatched master g idx idx2 (norm more : list str) :
  length norm = length idx →
  (∀ k, k ∈ more → has_candidates master k = false) →
  schedule master g (label_groups (idx ++ idx2) (norm ++ more))
  = schedule master g (label_groups idx norm).
Proof.
  intros Hlen Hmore.
  by rewrite schedule_filter, matched_groups_app, <- schedule_filter.
Qed.

End Appended.

Lemma write_label_absent {A} idx l (x : A) v :
  l ∉ idx → length v = length idx → write_label idx l x v = v.
Proof.
  unfold write_label. revert v. induction idx as [|l' idx IH]; intros [|y v]; try done.
  intros [Hl Hidx]%not_elem_of_cons [= Hv]. cbn [zip_with].
  rewrite decide_False by done. by rewrite IH.
Qed.

Lemma write_label_app {A} idx idx2 l (x : A) a b :
  length a = length idx →
  write_label (idx ++ idx2) l x (a ++ b)
  = write_label idx l x a ++ write_label idx2 l x b.
Proof. intros Ha. unfold write_label. by apply zip_with_app. Qed.

Lemma writes_app idx idx2 (a b : list (option (spec_float * spec_float))) pk :
  length a = length idx → length b = length idx2 →
  Forall (λ e : label * (spec_float * spec_float), e.1 ∉ idx2) pk →
  foldl (λ a e, write_label (idx ++ idx2) e.1 (Some e.2) a) (a ++ b) pk
  = foldl (λ a e, write_label idx e.1 (Some e.2) a) a pk ++ b.
Proof.
  intros Ha Hb Hpk. revert a Ha. induction Hpk as [|e pk He _ IH]; intros a Ha; [done|].
  cbn [foldl]. rewrite write_label_app, (write_label_absent idx2) by done.
  apply IH. by apply length_write_label.
Qed.

Lemma assignment_app idx idx2 pk :
  Forall (λ e : label * (spec_float * spec_float), e.1 ∉ idx2) pk →
  assignment (idx ++ idx2) pk = assignment idx pk ++ replicate (length idx2) None.
Proof.
  intros Hpk. unfold assignment. rewrite length_app, replicate_add.
  apply writes_app; by rewrite ?length_replicate.
Qed.
(** ** [load_master] as a whole *)

Section LoadMasterWhole.
Context {RT : Runtime}.

Lemma find_col_header df candidates col :
  find_col df candidates = Ok col →
  col ∈ names df ∧ casefold (strip (sub_spaces col)) ∈ casefold <$> candidates.
Proof.
  intros (i & Hi & Hc & _)%find_col_Ok. split; [|done].
  by eapply list_elem_of_lookup_2.
Qed.

Lemma find_col_cases df candidates :
  (∃ col, find_col df candidates = Ok col)
  ∨ find_col df candidates = Raise (ColumnNotFound candidates (names df)).
Proof.
  destruct (find_col df candidates) as [col|e] eqn:Hf; [left; eauto|right].
  by apply find_col_Raise in Hf as [-> _].
Qed.

(** The headers that [find_col] can return for the latitude and longitude
    are not the helper columns that [load_master] adds. *)
Lemma lat_header_not_helper df col :
  find_col df lat_candidates = Ok col → col ≠ lit "_nombre_norm".
Proof.
  intros [_ Hc]%find_col_header ->. revert Hc. apply (bool_decide_unpack _).
  by vm_compute.
Qed.

Lemma lon_header_not_helper df col :
  find_col df lon_candidates = Ok col →
  col ≠ lit "_nombre_norm" ∧ col ≠ lit "_lat".
Proof.
  intros [_ Hc]%find_col_header. split; intros ->; revert Hc;
    apply (bool_decide_unpack _); by vm_compute.
Qed.

Lemma load_master_unfold dfm cn cl co nombres lats lons :
  find_col dfm nombre_candidates = Ok cn →
  find_col dfm lat_candidates = Ok cl →
  find_col dfm lon_candidates = Ok co →
  get_col dfm cn = Ok nombres → get_col dfm cl = Ok lats → get_col dfm co = Ok lons →
  load_master dfm
  = Ok (index_rows
          ((λ r : cell * (cell * cell),
              (normalize_species r.1, (to_numeric r.2.1, to_numeric r.2.2)))
             <$> filter (λ r, is_nan (to_numeric r.2.1) = false
                              ∧ is_nan (to_numeric r.2.2) = false)
                   (zip nombres (zip lats lons)))).
Proof.
  intros Hcn Hcl Hco Hn Hlat Hlon. unfold load_master.
  rewrite Hcn, Hcl, Hco. cbn [bind]. rewrite Hn. cbn [bind]. cbv zeta.
  pose proof (lat_header_not_helper _ _ Hcl) as Hcl'.
  pose proof (lon_header_not_helper _ _ Hco) as [Hco' Hco''].
  unfold get_col, set_col in *. cbn [columns].
  rewrite (find_column_set_ne _ _ _ cl) by done. rewrite Hlat. cbn [bind].
  rewrite !(find_column_set_ne _ _ _ co) by done. rewrite Hlon. cbn [bind].
  rewrite !find_column_set_ne, find_column_set_eq by done. cbn [bind].
  rewrite find_column_set_ne, find_column_set_eq by done. cbn [bind].
  rewrite find_column_set_eq. cbn [bind].
  by rewrite kept_rows.
Qed.

Lemma load_master_total dfm cn cl co :
  find_col dfm nombre_candidates = Ok cn →
  find_col dfm lat_candidates = Ok cl →
  find_col dfm lon_candidates = Ok co →
  ∃ master, load_master dfm = Ok master.
Proof.
  intros Hcn Hcl Hco.
  destruct (find_col_header _ _ _ Hcn) as [[nombres Hn]%find_column_in _].
  destruct (find_col_header _ _ _ Hcl) as [[lats Hlat]%find_column_in _].
  destruct (find_col_header _ _ _ Hco) as [[lons Hlon]%find_column_in _].
  rewrite (load_master_unfold dfm cn cl co nombres lats lons) by done. eauto.
Qed.

Lemma load_master_Ok_cols dfm master :
  load_master dfm = Ok master →
  ∃ col_nombre col_lat col_lon,
    find_col dfm nombre_candidates = Ok col_nombre
    ∧ find_col dfm lat_candidates = Ok col_lat
    ∧ find_col dfm lon_candidates = Ok col_lon.
Proof.
  unfold load_master. intros H.
  apply bind_Ok in H as (cn & Hcn & H). apply bind_Ok in H as (cl & Hcl & H).
  apply bind_Ok in H as (co & Hco & _). by exists cn, cl, co.
Qed.

Lemma load_master_Raise dfm e :
  load_master dfm = Raise e →
  ∃ lc, lc ∈ [MasterName; MasterLat; MasterLon]
        ∧ e = ColumnNotFound (candidates_of lc) (names dfm).
Proof.
  intros He.
  destruct (find_col_cases dfm nombre_candidates) as [[cn Hcn]|Hcn].
  2:{ unfold load_master in He. rewrite Hcn in He. injection He as <-.
      exists MasterName. split; [|done]. left. }
  destruct (find_col_cases dfm lat_candidates) as [[cl Hcl]|Hcl].
  2:{ unfold load_master in He. rewrite Hcn, Hcl in He. injection He as <-.
      exists MasterLat. split; [|done]. right; left. }
  destruct (find_col_cases dfm lon_candidates) as [[co Hco]|Hco].
  2:{ unfold load_master in He. rewrite Hcn, Hcl, Hco in He. injection He as <-.
      exists MasterLon. split; [|done]. right; right; left. }
  destruct (load_master_total dfm cn cl co Hcn Hcl Hco) as [master Hm].
  congruence.
Qed.

End LoadMasterWhole.
(** ** Counting rows *)

Lemma length_filter_pointwise {A B} (P : A → Prop) (Q : B → Prop)
    `{∀ x, Decision (P x)} `{∀ y, Decision (Q y)} (l1 : list A) (l2 : list B) :
  length l1 = length l2 →
  (∀ i x y, l1 !! i = Some x → l2 !! i = Some y → (P x ↔ Q y)) →
  length (filter P l1) = length (filter Q l2).
Proof.
  revert l2. induction l1 as [|x l1 IH]; intros [|y l2] Hlen Hpq; try done.
  rewrite !filter_cons.
  assert (length (filter P l1) = length (filter Q l2)) as IH'.
  { apply IH; [by injection Hlen|]. intros i x' y' Hx Hy. by apply (Hpq (S i)). }
  pose proof (Hpq 0%nat x y eq_refl eq_refl) as Hxy.
  repeat case_decide; cbn [length]; try rewrite IH'; try done; naive_solver.
Qed.

Section MainFacts.
Context {RT : Runtime} {G : Generator}.

(** With an index that [load_master] built and distinct row labels, the
    [lat] field of a row is empty exactly when the name of the row is not a
    key of the index. *)
Lemma lat_empty_iff dfm master g idx species pk i l name :
  generator_ok G → NoDup idx → load_master dfm = Ok master →
  mapM pick (schedule master g
               (label_groups idx (normalize_species <$> species))).1 = Ok pk →
  idx !! i = Some l → species !! i = Some name →
  ∃ o, assignment idx pk !! i = Some o
       ∧ (lat_text o = Str [] ↔ master !! normalize_species name = None)
       ∧ (lon_text o = Str [] ↔ master !! normalize_species name = None)
       ∧ (pair_text o = Str [] ↔ master !! normalize_species name = None).
Proof.
  intros HG Hnd Hm Hpk Hl Hi.
  destruct (master !! normalize_species name) as [cands|] eqn:Hk.
  - destruct (load_master_lookup dfm master _ cands Hm Hk) as [Hne Hnan].
    destruct (matched_row_written master g idx species pk i l name cands
                HG Hnd Hpk Hl Hi Hk Hne) as (c & Hc & Ha).
    exists (Some c). split; [done|].
    rewrite Forall_forall in Hnan. destruct (Hnan c Hc) as [Hlat Hlon].
    unfold lat_text, lon_text, pair_text, coord_text. rewrite Hlat, Hlon. cbn [orb].
    pose proof (coordinate_text_nonempty _ (coordinate_text_format c.1 Hlat)) as H1.
    pose proof (coordinate_text_nonempty _ (coordinate_text_format c.2 Hlon)) as H2.
    split_and!; split; try done; intros [= Heq]; try done.
    by apply app_eq_nil in Heq as [? _].
  - exists None. split; [|done].
    apply (unmatched_row_unwritten master g idx species pk i l name); try done.
    unfold has_candidates. by rewrite Hk.
Qed.

End MainFacts.
(** ** Further properties of [assign_coords] *)

Section AssignMore.
Context {RT : Runtime} {G : Generator}.

(** X1: on a table whose row labels are distinct (the default index of
    [read_csv] is), a row whose normalized name is not a key of the index
    (or is a key with no candidate) has the three derived fields empty. *)
Theorem unmatched_rows_left_empty
    (df : DataFrame) (species_col : str)
    (master : gmap (list N) (list (spec_float * spec_float))) (g g' : rng)
    (out : DataFrame) (species : list cell) :
  NoDup (index df) →
  assign_coords df species_col master g = Ok (out, g') →
  get_col df species_col = Ok species →
  ∃ lat lon lat_lon,
    get_col out (lit "lat") = Ok lat
    ∧ get_col out (lit "lopnong") = Ok lon
    ∧ get_col out (lit "lat_lon") = Ok lat_lon
    ∧ ∀ i name,
        species !! i = Some name → (i < nrows df)%nat →
        master !! normalize_species name = None
        ∨ master !! normalize_species name = Some [] →
        lat !! i = Some (Str []) ∧ lon !! i = Some (Str [])
        ∧ lat_lon !! i = Some (Str []).
Proof.
  intros Hnd (species' & pk & Hs' & Hpk & -> & _)%assign_coords_Ok Hs.
  assert (species' = species) as -> by congruence.
  eexists _, _, _. split_and!;
    [apply get_col_finish_lat|apply get_col_finish_lon|apply get_col_finish_pair|].
  intros i name Hi [l Hl]%lookup_lt_is_Some_2 Hnone%has_candidates_false.
  rewrite !list_lookup_fmap.
  by rewrite (unmatched_row_unwritten master g (index df) species pk i l name).
Qed.

(** X2: when no name of the table has a candidate (an empty index, an empty
    table, or disjoint names), [assign_coords] returns whatever the generator
    does, leaves the generator as it was, and every derived field is
    empty. *)
Theorem no_candidates_no_draw
    (df : DataFrame) (species_col : str)
    (master : gmap (list N) (list (spec_float * spec_float))) (g : rng)
    (species : list cell) :
  get_col df species_col = Ok species →
  (∀ name, name ∈ species →
     master !! normalize_species name = None
     ∨ master !! normalize_species name = Some []) →
  ∃ out,
    assign_coords df species_col master g = Ok (out, g)
    ∧ get_col out (lit "lat") = Ok (replicate (nrows df) (Str []))
    ∧ get_col out (lit "lopnong") = Ok (replicate (nrows df) (Str []))
    ∧ get_col out (lit "lat_lon") = Ok (replicate (nrows df) (Str [])).
Proof.
  intros Hs Hnone.
  assert (schedule master g
            (label_groups (index df) (normalize_species <$> species)) = ([], g))
    as Hplan.
  { apply schedule_unmatched. intros [k idx] [Hin _]%elem_of_label_groups.
    apply list_elem_of_fmap in Hin as (name & -> & Hname).
    apply has_candidates_false. by apply Hnone. }
  eexists. rewrite assign_coords_unfold, Hs. cbn [bind]. cbv zeta.
  rewrite Hplan. cbn [fst snd mapM bind]. split; [reflexivity|].
  rewrite get_col_finish_lat, get_col_finish_lon, get_col_finish_pair.
  unfold assignment, nrows. cbn [foldl]. by rewrite !fmap_replicate.
Qed.

(** X3: with a generator that keeps numpy's promises, [assign_coords]
    fails exactly when the name column is not a header of the table, and
    the error is then the [KeyError] of that header. *)
Theorem assign_coords_returns_iff
    (df : DataFrame) (species_col : str)
    (master : gmap (list N) (list (spec_float * spec_float))) (g : rng) :
  generator_ok G →
  ((∃ st, assign_coords df species_col master g = Ok st) ↔ species_col ∈ names df)
  ∧ (species_col ∉ names df →
     assign_coords df species_col master g = Raise (KeyError species_col)).
Proof.
  intros HG. split; [split|].
  - intros [[out g'] (species & _ & Hs%find_column_Ok & _)%assign_coords_Ok].
    apply list_elem_of_fmap. by exists (species_col, species).
  - intros [species Hs]%find_column_in.
    destruct (assign_coords_total df species_col master g species HG Hs)
      as (pk & _ & ->). eauto.
  - intros Hno. rewrite assign_coords_unfold. unfold get_col.
    assert (find_column (columns df) species_col = Raise (KeyError species_col))
      as -> by (by apply find_column_Raise).
    done.
Qed.

(** X4: the output of [assign_coords] is again a well-formed frame: its
    headers are distinct and every column has one cell per row. *)
Theorem assign_coords_keeps_frame_shape
    (df : DataFrame) (species_col : str)
    (master : gmap (list N) (list (spec_float * spec_float))) (g g' : rng)
    (out : DataFrame) :
  wf_frame df →
  assign_coords df species_col master g = Ok (out, g') →
  wf_frame out ∧ nrows out = nrows df.
Proof.
  intros Hwf (species & pk & Hs & Hpk & -> & _)%assign_coords_Ok.
  set (norm := normalize_species <$> species).
  set (a := assignment (index df) pk).
  assert (NoDup (names (finish (place_all (start df norm) pk) a))) as Hnd.
  { rewrite names_finish. apply NoDup_app. split_and!.
    - apply NoDup_filter, Hwf.
    - intros c [_ Hc]%list_elem_of_filter [Hc' _]%list_elem_of_filter. done.
    - apply NoDup_filter. apply (bool_decide_unpack _). by vm_compute. }
  split; [|apply nrows_finish]. split; [done|].
  rewrite nrows_finish. apply Forall_forall. intros [c v] Hcv. cbn [snd].
  assert (get_col (finish (place_all (start df norm) pk) a) c = Ok v) as Hget.
  { by apply elem_of_find_column. }
  assert (length a = nrows df) as Ha by apply length_assignment.
  destruct (decide (c = lit "lat")) as [->|Hlat].
  { rewrite get_col_finish_lat in Hget. injection Hget as <-.
    by rewrite length_fmap. }
  destruct (decide (c = lit "lopnong")) as [->|Hlon].
  { rewrite get_col_finish_lon in Hget. injection Hget as <-.
    by rewrite length_fmap. }
  destruct (decide (c = lit "lat_lon")) as [->|Hpair].
  { rewrite get_col_finish_pair in Hget. injection Hget as <-.
    by rewrite length_fmap. }
  destruct (decide (c = lit "_species_norm")) as [->|Hsn].
  { destruct (species_norm_dropped (place_all (start df norm) pk) a).
    apply list_elem_of_fmap. by exists (lit "_species_norm", v). }
  rewrite get_col_finish_other in Hget by (by apply not_reserved).
  by apply (get_col_wf_length df c v).
Qed.

(** X5: on a table whose row labels are distinct, a species with a single
    candidate gives that candidate to every one of its rows, whatever the
    generator draws. *)
Theorem single_candidate_is_assigned
    (df : DataFrame) (species_col : str)
    (master : gmap (list N) (list (spec_float * spec_float))) (g g' : rng)
    (out : DataFrame) (species : list cell) :
  generator_ok G → NoDup (index df) →
  assign_coords df species_col master g = Ok (out, g') →
  get_col df species_col = Ok species →
  ∃ lat lon lat_lon,
    get_col out (lit "lat") = Ok lat
    ∧ get_col out (lit "lopnong") = Ok lon
    ∧ get_col out (lit "lat_lon") = Ok lat_lon
    ∧ ∀ i name c,
        species !! i = Some name → (i < nrows df)%nat →
        master !! normalize_species name = Some [c] →
        is_nan c.1 = false → is_nan c.2 = false →
        lat !! i = Some (Str (format_6f c.1))
        ∧ lon !! i = Some (Str (format_6f c.2))
        ∧ lat_lon !! i = Some (Str (format_6f c.1 ++ lit "," ++ format_6f c.2)).
Proof.
  intros HG Hnd (species' & pk & Hs' & Hpk & -> & _)%assign_coords_Ok Hs.
  assert (species' = species) as -> by congruence.
  eexists _, _, _. split_and!;
    [apply get_col_finish_lat|apply get_col_finish_lon|apply get_col_finish_pair|].
  intros i name c Hi [l Hl]%lookup_lt_is_Some_2 Hm Hlat Hlon.
  destruct (matched_row_written master g (index df) species pk i l name [c]
              HG Hnd Hpk Hl Hi Hm ltac:(done))
    as (c' & ->%list_elem_of_singleton & Ha).
  rewrite !list_lookup_fmap, Ha. cbn [fmap option_fmap option_map].
  unfold lat_text, lon_text, pair_text, coord_text. by rewrite Hlat, Hlon.
Qed.

End AssignMore.

(** X1 on the example table: the dodo and the unnamed row stay empty. *)
Lemma unmatched_rows_left_empty_witness :
  NoDup (index sightings)
  ∧ assign_coords (RT := text_runtime) (G := counter_rng)
    sightings (lit "Species") master_table_index 0%Z = Ok (enriched_sightings, 2%Z)
  ∧ get_col sightings (lit "Species")
    = Ok [Str (lit "Heron"); Str (lit "dodo"); Str (lit "HERON (grey)"); nan]
  ∧ ∃ lat lon lat_lon,
      get_col enriched_sightings (lit "lat") = Ok lat
      ∧ get_col enriched_sightings (lit "lopnong") = Ok lon
      ∧ get_col enriched_sightings (lit "lat_lon") = Ok lat_lon
      ∧ ∀ i name,
          [Str (lit "Heron"); Str (lit "dodo"); Str (lit "HERON (grey)"); nan] !! i
          = Some name →
          (i < nrows sightings)%nat →
          master_table_index !! normalize_species (RT := text_runtime) name = None
          ∨ master_table_index !! normalize_species (RT := text_runtime) name
            = Some [] →
          lat !! i = Some (Str []) ∧ lon !! i = Some (Str [])
          ∧ lat_lon !! i = Some (Str []).
Proof.
  assert (assign_coords (RT := text_runtime) (G := counter_rng)
            sightings (lit "Species") master_table_index 0%Z
          = Ok (enriched_sightings, 2%Z)) as Hrun by (vm_compute; reflexivity).
  assert (get_col sightings (lit "Species")
          = Ok [Str (lit "Heron"); Str (lit "dodo"); Str (lit "HERON (grey)"); nan])
    as Hs by reflexivity.
  split; [exact NoDup_sightings|]. split; [exact Hrun|]. split; [exact Hs|].
  exact (unmatched_rows_left_empty (RT := text_runtime) (G := counter_rng)
           sightings (lit "Species") master_table_index 0%Z 2%Z enriched_sightings
           _ NoDup_sightings Hrun Hs).
Defined.

(** X2 on the example table and an index of egrets only. *)
Lemma no_candidates_no_draw_witness :
  get_col sightings (lit "Species")
  = Ok [Str (lit "Heron"); Str (lit "dodo"); Str (lit "HERON (grey)"); nan]
  ∧ (∀ name,
       name ∈ [Str (lit "Heron"); Str (lit "dodo"); Str (lit "HERON (grey)"); nan] →
       egret_index !! normalize_species (RT := text_runtime) name = None
       ∨ egret_index !! normalize_species (RT := text_runtime) name = Some [])
  ∧ ∃ out,
      assign_coords (RT := text_runtime) (G := counter_rng)
        sightings (lit "Species") egret_index 7%Z = Ok (out, 7%Z)
      ∧ get_col out (lit "lat") = Ok (replicate (nrows sightings) (Str []))
      ∧ get_col out (lit "lopnong") = Ok (replicate (nrows sightings) (Str []))
      ∧ get_col out (lit "lat_lon") = Ok (replicate (nrows sightings) (Str [])).
Proof.
  assert (get_col sightings (lit "Species")
          = Ok [Str (lit "Heron"); Str (lit "dodo"); Str (lit "HERON (grey)"); nan])
    as Hs by reflexivity.
  assert (∀ name,
       name ∈ [Str (lit "Heron"); Str (lit "dodo"); Str (lit "HERON (grey)"); nan] →
       egret_index !! normalize_species (RT := text_runtime) name = None
       ∨ egret_index !! normalize_species (RT := text_runtime) name = Some [])
    as Hnone.
  { intros name Hin. left. repeat (apply elem_of_cons in Hin as [->|Hin]);
      [vm_compute; reflexivity..|by apply elem_of_nil in Hin]. }
  split; [exact Hs|]. split; [exact Hnone|].
  exact (no_candidates_no_draw (RT := text_runtime) (G := counter_rng)
           sightings (lit "Species") egret_index 7%Z _ Hs Hnone).
Defined.

(** X3 with the counting generator, for a header the example table does not
    have. *)
Lemma assign_coords_returns_iff_witness :
  generator_ok counter_rng
  ∧ ((∃ st, assign_coords (RT := text_runtime) (G := counter_rng)
              sightings (lit "species") heron_index 0%Z = Ok st)
     ↔ lit "species" ∈ names sightings)
  ∧ (lit "species" ∉ names sightings →
     assign_coords (RT := text_runtime) (G := counter_rng)
       sightings (lit "species") heron_index 0%Z = Raise (KeyError (lit "species"))).
Proof.
  split; [exact counter_rng_ok|].
  exact (assign_coords_returns_iff (RT := text_runtime) (G := counter_rng)
           sightings (lit "species") heron_index 0%Z counter_rng_ok).
Defined.

(** X4 on the example table. *)
Lemma assign_coords_keeps_frame_shape_witness :
  wf_frame sightings
  ∧ assign_coords (RT := text_runtime) (G := counter_rng)
      sightings (lit "Species") master_table_index 0%Z = Ok (enriched_sightings, 2%Z)
  ∧ wf_frame enriched_sightings
  ∧ nrows enriched_sightings = nrows sightings.
Proof.
  assert (assign_coords (RT := text_runtime) (G := counter_rng)
            sightings (lit "Species") master_table_index 0%Z
          = Ok (enriched_sightings, 2%Z)) as Hrun by (vm_compute; reflexivity).
  split; [exact wf_sightings|]. split; [exact Hrun|].
  exact (assign_coords_keeps_frame_shape (RT := text_runtime) (G := counter_rng)
           sightings (lit "Species") master_table_index 0%Z 2%Z enriched_sightings
           wf_sightings Hrun).
Defined.

(** X5 on the example table: the heron has one candidate. *)
Lemma single_candidate_is_assigned_witness :
  generator_ok counter_rng
  ∧ NoDup (index sightings)
  ∧ assign_coords (RT := text_runtime) (G := counter_rng)
      sightings (lit "Species") master_table_index 0%Z = Ok (enriched_sightings, 2%Z)
  ∧ get_col sightings (lit "Species")
    = Ok [Str (lit "Heron"); Str (lit "dodo"); Str (lit "HERON (grey)"); nan]
  ∧ ∃ lat lon lat_lon,
      get_col enriched_sightings (lit "lat") = Ok lat
      ∧ get_col enriched_sightings (lit "lopnong") = Ok lon
      ∧ get_col enriched_sightings (lit "lat_lon") = Ok lat_lon
      ∧ ∀ i name c,
          [Str (lit "Heron"); Str (lit "dodo"); Str (lit "HERON (grey)"); nan] !! i
          = Some name →
          (i < nrows sightings)%nat →
          master_table_index !! normalize_species (RT := text_runtime) name
          = Some [c] →
          is_nan c.1 = false → is_nan c.2 = false →
          lat !! i = Some (Str (format_6f c.1))
          ∧ lon !! i = Some (Str (format_6f c.2))
          ∧ lat_lon !! i = Some (Str (format_6f c.1 ++ lit "," ++ format_6f c.2)).
Proof.
  assert (assign_coords (RT := text_runtime) (G := counter_rng)
            sightings (lit "Species") master_table_index 0%Z
          = Ok (enriched_sightings, 2%Z)) as Hrun by (vm_compute; reflexivity).
  assert (get_col sightings (lit "Species")
          = Ok [Str (lit "Heron"); Str (lit "dodo"); Str (lit "HERON (grey)"); nan])
    as Hs by reflexivity.
  split; [exact counter_rng_ok|]. split; [exact NoDup_sightings|].
  split; [exact Hrun|]. split; [exact Hs|].
  exact (single_candidate_is_assigned (RT := text_runtime) (G := counter_rng)
           sightings (lit "Species") master_table_index 0%Z 2%Z enriched_sightings
           _ counter_rng_ok NoDup_sightings Hrun Hs).
Defined.
(** ** Further properties of [load_master] *)

Section LoadMasterMore.
Context {RT : Runtime}.

(** X6: the index that [load_master] returns, key by key: the candidates of
    a key are the numeric pairs of exactly the rows of the master table
    whose normalized name is the key and whose latitude and longitude both
    read as numbers, in the order of the rows; a key without such a row is
    not in the index. *)
Theorem load_master_index
    (dfm : DataFrame) (col_nombre col_lat col_lon : str)
    (nombres lats lons : list cell) :
  find_col dfm nombre_candidates = Ok col_nombre →
  find_col dfm lat_candidates = Ok col_lat →
  find_col dfm lon_candidates = Ok col_lon →
  get_col dfm col_nombre = Ok nombres →
  get_col dfm col_lat = Ok lats →
  get_col dfm col_lon = Ok lons →
  ∃ master,
    load_master dfm = Ok master
    ∧ ∀ k, (valid_pairs nombres lats lons k = [] → master !! k = None)
           ∧ (valid_pairs nombres lats lons k ≠ [] →
              master !! k = Some (valid_pairs nombres lats lons k)).
Proof.
  intros Hcn Hcl Hco Hn Hlat Hlon. eexists. split.
  { by apply (load_master_unfold dfm col_nombre col_lat col_lon nombres lats lons). }
  intros k. rewrite index_rows_exact, valid_pairs_rows.
  by destruct (valid_pairs nombres lats lons k).
Qed.

(** X7: [load_master] returns exactly when each of the three columns of the
    master table is found, and when it fails the error is the one of
    [find_col] for one of the three, with the headers of the master
    table. *)
Theorem load_master_returns_iff (dfm : DataFrame) :
  ((∃ master, load_master dfm = Ok master)
   ↔ ∃ col_nombre col_lat col_lon,
       find_col dfm nombre_candidates = Ok col_nombre
       ∧ find_col dfm lat_candidates = Ok col_lat
       ∧ find_col dfm lon_candidates = Ok col_lon)
  ∧ ∀ e, load_master dfm = Raise e →
         ∃ lc, lc ∈ [MasterName; MasterLat; MasterLon]
               ∧ e = ColumnNotFound (candidates_of lc) (names dfm).
Proof.
  split; [split|].
  - intros [master H]. by eapply load_master_Ok_cols.
  - intros (cn & cl & co & Hcn & Hcl & Hco). by eapply load_master_total.
  - apply load_master_Raise.
Qed.

End LoadMasterMore.

(** X6 on the example master table: the heron row whose latitude is not a
    number is left out. *)
Lemma load_master_index_witness :
  find_col master_table nombre_candidates = Ok (lit "Nombre de Ave")
  ∧ find_col master_table lat_candidates = Ok (lit "Lat")
  ∧ find_col master_table lon_candidates = Ok (lit "LON")
  ∧ get_col master_table (lit "Nombre de Ave")
    = Ok [Str (lit "Heron (Ardea)"); Str (lit "heron"); Str (lit "Egret")]
  ∧ get_col master_table (lit "Lat") = Ok [Num f10; Str (lit "N/A"); Num f0_1]
  ∧ get_col master_table (lit "LON") = Ok [Num f20; Num f20; Num f10]
  ∧ ∃ master,
      load_master (RT := text_runtime) master_table = Ok master
      ∧ ∀ k,
          (valid_pairs (RT := text_runtime)
             [Str (lit "Heron (Ardea)"); Str (lit "heron"); Str (lit "Egret")]
             [Num f10; Str (lit "N/A"); Num f0_1] [Num f20; Num f20; Num f10] k = [] →
           master !! k = None)
          ∧ (valid_pairs (RT := text_runtime)
               [Str (lit "Heron (Ardea)"); Str (lit "heron"); Str (lit "Egret")]
               [Num f10; Str (lit "N/A"); Num f0_1] [Num f20; Num f20; Num f10] k ≠ [] →
             master !! k
             = Some (valid_pairs (RT := text_runtime)
                       [Str (lit "Heron (Ardea)"); Str (lit "heron"); Str (lit "Egret")]
                       [Num f10; Str (lit "N/A"); Num f0_1]
                       [Num f20; Num f20; Num f10] k)).
Proof.
  assert (find_col master_table nombre_candidates = Ok (lit "Nombre de Ave"))
    as Hcn by (vm_compute; reflexivity).
  assert (find_col master_table lat_candidates = Ok (lit "Lat"))
    as Hcl by (vm_compute; reflexivity).
  assert (find_col master_table lon_candidates = Ok (lit "LON"))
    as Hco by (vm_compute; reflexivity).
  assert (get_col master_table (lit "Nombre de Ave")
          = Ok [Str (lit "Heron (Ardea)"); Str (lit "heron"); Str (lit "Egret")])
    as Hn by reflexivity.
  assert (get_col master_table (lit "Lat") = Ok [Num f10; Str (lit "N/A"); Num f0_1])
    as Hlat by reflexivity.
  assert (get_col master_table (lit "LON") = Ok [Num f20; Num f20; Num f10])
    as Hlon by reflexivity.
  split_and!; [exact Hcn|exact Hcl|exact Hco|exact Hn|exact Hlat|exact Hlon|].
  exact (load_master_index (RT := text_runtime) master_table _ _ _ _ _ _
           Hcn Hcl Hco Hn Hlat Hlon).
Defined.
(** ** Further properties of [main] *)

Section MainMore.
Context {RT : Runtime} {G : Generator}.

(** X8: with a generator that keeps numpy's promises, [main] returns
    exactly when the name column of the table is found and [load_master]
    returns; every failure is the error of [find_col] for one of the four
    logical columns, carrying the headers of the table it was looked up
    in. *)
Theorem main_returns_iff (df dfm : DataFrame) (seed : rng) :
  generator_ok G →
  ((∃ r, main df dfm seed = Ok r)
   ↔ ∃ species_col master,
       find_col df species_candidates = Ok species_col
       ∧ load_master dfm = Ok master)
  ∧ ∀ e, main df dfm seed = Raise e →
         ∃ lc, e = ColumnNotFound (candidates_of lc) (names (table_of lc df dfm)).
Proof.
  intros HG.
  assert (∀ sc master,
            find_col df species_candidates = Ok sc → load_master dfm = Ok master →
            ∃ r, main df dfm seed = Ok r) as Hrun.
  { intros sc master Hsc Hm.
    destruct (find_col_header _ _ _ Hsc) as [[species Hs]%find_column_in _].
    destruct (assign_coords_total df sc master seed species HG Hs) as (pk & _ & Ha).
    unfold main. rewrite Hsc, Hm. cbn [bind]. rewrite Ha. cbn [bind].
    rewrite (no_match_report_Ok df sc master species Hs). cbn [bind]. eauto. }
  split; [split|].
  - intros [[out report] (sc & master & g' & Hsc & Hm & _)%main_Ok]. eauto.
  - intros (sc & master & Hsc & Hm). eauto.
  - intros e He.
    destruct (find_col_cases df species_candidates) as [[sc Hsc]|Hsc].
    2:{ unfold main in He. rewrite Hsc in He. injection He as <-.
        by exists TableSpecies. }
    destruct (load_master dfm) as [master|e'] eqn:Hm.
    + destruct (Hrun sc master Hsc eq_refl) as [r Hr]. congruence.
    + unfold main in He. rewrite Hsc, Hm in He. injection He as <-.
      apply load_master_Raise in Hm as (lc & Hlc & ->). exists lc.
      repeat (apply elem_of_cons in Hlc as [->|Hlc]); try done.
      by apply elem_of_nil in Hlc.
Qed.

(** X9: the counts that [main] prints for a table whose row labels are
    distinct: the number of rows of the table, the number of rows whose
    normalized name is a key of the index (these are the rows whose [lat]
    is not empty), and the length of the report. *)
Theorem summary_counts
    (df dfm : DataFrame) (seed : rng) (out : DataFrame) (report : list str)
    (species_col : str) (species : list cell)
    (master : gmap (list N) (list (spec_float * spec_float))) :
  generator_ok G → wf_frame df → NoDup (index df) →
  main df dfm seed = Ok (out, report) →
  find_col df species_candidates = Ok species_col →
  get_col df species_col = Ok species →
  load_master dfm = Ok master →
  summary df out report
  = Ok (nrows df, length (matched_rows master species), length report)
  ∧ (length (matched_rows master species) ≤ nrows df)%nat.
Proof.
  intros HG Hwf Hnd (sc & master' & g' & Hsc & Hm & Ha & _)%main_Ok Hsc' Hs Hm'.
  assert (sc = species_col) as -> by congruence.
  assert (master' = master) as -> by congruence.
  apply assign_coords_Ok in Ha as (species' & pk & Hs' & Hpk & -> & _).
  assert (species' = species) as -> by congruence.
  pose proof (get_col_wf_length df species_col species Hwf Hs) as Hlen.
  split.
  2:{ rewrite <- Hlen. unfold matched_rows. apply length_filter. }
  unfold summary. rewrite get_col_finish_lat. cbn [bind]. do 3 f_equal.
  unfold matched_rows. apply length_filter_pointwise.
  { by rewrite length_fmap, length_assignment. }
  intros i c name Hc Hi.
  assert (i < nrows df)%nat as [l Hl]%lookup_lt_is_Some_2.
  { rewrite <- Hlen. by eapply lookup_lt_Some. }
  destruct (lat_empty_iff dfm master seed (index df) species pk i l name
              HG Hnd Hm Hpk Hl Hi) as (o & Ho & Hlat & _).
  rewrite list_lookup_fmap, Ho in Hc. injection Hc as <-.
  rewrite Hlat. unfold has_candidates.
  destruct (master !! normalize_species name) as [cands|] eqn:Hk; [|naive_solver].
  destruct (load_master_lookup dfm master _ cands Hm Hk) as [Hne _].
  destruct cands; naive_solver.
Qed.

(** X10: for a table whose row labels are distinct, the report and the
    enriched table agree: a row with a name has an empty [lat] exactly when
    its normalized name is in the report, and every entry of the report is
    the normalized name of some row with an empty [lat]. *)
Theorem report_covers_empty_rows
    (df dfm : DataFrame) (seed : rng) (out : DataFrame) (report : list str)
    (species_col : str) (species : list cell) :
  generator_ok G → wf_frame df → NoDup (index df) →
  main df dfm seed = Ok (out, report) →
  find_col df species_candidates = Ok species_col →
  get_col df species_col = Ok species →
  ∃ lat,
    get_col out (lit "lat") = Ok lat
    ∧ (∀ i name,
         species !! i = Some name → normalize_species name ≠ [] →
         (lat !! i = Some (Str []) ↔ normalize_species name ∈ report))
    ∧ ∀ s, s ∈ report →
           ∃ i name, species !! i = Some name ∧ normalize_species name = s
                     ∧ lat !! i = Some (Str []).
Proof.
  intros HG Hwf Hnd (sc & master & g' & Hsc & Hm & Ha & Hr)%main_Ok Hsc' Hs.
  assert (sc = species_col) as -> by congruence.
  apply assign_coords_Ok in Ha as (species' & pk & Hs' & Hpk & -> & _).
  assert (species' = species) as -> by congruence.
  pose proof (get_col_wf_length df species_col species Hwf Hs) as Hlen.
  rewrite (no_match_report_Ok df species_col master species Hs) in Hr.
  injection Hr as <-.
  assert (∀ s, s ∈ sorted (filter (λ s, s ≠ [] ∧ master !! s = None)
                  (elements (list_to_set (C := gset (list N))
                               (normalize_species <$> species))))
               ↔ s ≠ [] ∧ master !! s = None ∧ s ∈ normalize_species <$> species)
    as Hrep.
  { intros s. rewrite elem_of_sorted, list_elem_of_filter, elem_of_elements,
      elem_of_list_to_set. naive_solver. }
  assert (∀ i name, species !! i = Some name →
            (lat_text <$> assignment (index df) pk) !! i = Some (Str [])
            ↔ master !! normalize_species name = None) as Hrow.
  { intros i name Hi.
    assert (i < nrows df)%nat as [l Hl]%lookup_lt_is_Some_2.
    { rewrite <- Hlen. by eapply lookup_lt_Some. }
    destruct (lat_empty_iff dfm master seed (index df) species pk i l name
                HG Hnd Hm Hpk Hl Hi) as (o & Ho & Hlat & _).
    rewrite list_lookup_fmap, Ho. cbn [fmap option_fmap option_map].
    rewrite <- Hlat. split; [apply (inj Some)|by intros ->]. }
  eexists. split; [apply get_col_finish_lat|]. split.
  - intros i name Hi Hne. rewrite (Hrow i name Hi), Hrep. split; [|naive_solver].
    intros Hk. split_and!; [done..|].
    apply list_elem_of_fmap. exists name. split; [done|].
    by eapply list_elem_of_lookup_2.
  - intros s (Hne & Hk & (name & -> & [i Hi]%list_elem_of_lookup)%list_elem_of_fmap)%Hrep.
    exists i, name. split_and!; [done..|]. by apply (Hrow i name Hi).
Qed.

End MainMore.

(** X8 on the example tables. *)
Lemma main_returns_iff_witness :
  generator_ok counter_rng
  ∧ ((∃ r, main (RT := text_runtime) (G := counter_rng) sightings master_table 0%Z
           = Ok r)
     ↔ ∃ species_col master,
         find_col sightings species_candidates = Ok species_col
         ∧ load_master (RT := text_runtime) master_table = Ok master)
  ∧ ∀ e, main (RT := text_runtime) (G := counter_rng) sightings master_table 0%Z
         = Raise e →
         ∃ lc, e = ColumnNotFound (candidates_of lc)
                     (names (table_of lc sightings master_table)).
Proof.
  split; [exact counter_rng_ok|].
  exact (main_returns_iff (RT := text_runtime) (G := counter_rng)
           sightings master_table 0%Z counter_rng_ok).
Defined.

(** X9 on the example tables: four rows, two of them herons, one name in
    the report. *)
Lemma summary_counts_witness :
  generator_ok counter_rng
  ∧ wf_frame sightings
  ∧ NoDup (index sightings)
  ∧ main (RT := text_runtime) (G := counter_rng) sightings master_table 0%Z
    = Ok (enriched_sightings, [lit "dodo"])
  ∧ find_col sightings species_candidates = Ok (lit "Species")
  ∧ get_col sightings (lit "Species")
    = Ok [Str (lit "Heron"); Str (lit "dodo"); Str (lit "HERON (grey)"); nan]
  ∧ load_master (RT := text_runtime) master_table = Ok master_table_index
  ∧ summary sightings enriched_sightings [lit "dodo"] = Ok (4, 2, 1)%nat
  ∧ (2 ≤ 4)%nat.
Proof.
  assert (main (RT := text_runtime) (G := counter_rng) sightings master_table 0%Z
          = Ok (enriched_sightings, [lit "dodo"])) as Hmain
    by (vm_compute; reflexivity).
  assert (find_col sightings species_candidates = Ok (lit "Species")) as Hsc
    by (vm_compute; reflexivity).
  assert (get_col sightings (lit "Species")
          = Ok [Str (lit "Heron"); Str (lit "dodo"); Str (lit "HERON (grey)"); nan])
    as Hs by reflexivity.
  assert (load_master (RT := text_runtime) master_table = Ok master_table_index)
    as Hm by (vm_compute; reflexivity).
  split_and!; [exact counter_rng_ok|exact wf_sightings|exact NoDup_sightings|
               exact Hmain|exact Hsc|exact Hs|exact Hm|..];
    apply (summary_counts (RT := text_runtime) (G := counter_rng)
             sightings master_table 0%Z enriched_sightings [lit "dodo"]
             (lit "Species") _ master_table_index
             counter_rng_ok wf_sightings NoDup_sightings Hmain Hsc Hs Hm).
Defined.

(** X10 on the example tables. *)
Lemma report_covers_empty_rows_witness :
  generator_ok counter_rng
  ∧ wf_frame sightings
  ∧ NoDup (index sightings)
  ∧ main (RT := text_runtime) (G := counter_rng) sightings master_table 0%Z
    = Ok (enriched_sightings, [lit "dodo"])
  ∧ find_col sightings species_candidates = Ok (lit "Species")
  ∧ get_col sightings (lit "Species")
    = Ok [Str (lit "Heron"); Str (lit "dodo"); Str (lit "HERON (grey)"); nan]
  ∧ ∃ lat,
      get_col enriched_sightings (lit "lat") = Ok lat
      ∧ (∀ i name,
           [Str (lit "Heron"); Str (lit "dodo"); Str (lit "HERON (grey)"); nan] !! i
           = Some name →
           normalize_species (RT := text_runtime) name ≠ [] →
           (lat !! i = Some (Str [])
            ↔ normalize_species (RT := text_runtime) name ∈ [lit "dodo"]))
      ∧ ∀ s, s ∈ [lit "dodo"] →
             ∃ i name,
               [Str (lit "Heron"); Str (lit "dodo"); Str (lit "HERON (grey)"); nan] !! i
               = Some name
               ∧ normalize_species (RT := text_runtime) name = s
               ∧ lat !! i = Some (Str []).
Proof.
  assert (main (RT := text_runtime) (G := counter_rng) sightings master_table 0%Z
          = Ok (enriched_sightings, [lit "dodo"])) as Hmain
    by (vm_compute; reflexivity).
  assert (find_col sightings species_candidates = Ok (lit "Species")) as Hsc
    by (vm_compute; reflexivity).
  assert (get_col sightings (lit "Species")
          = Ok [Str (lit "Heron"); Str (lit "dodo"); Str (lit "HERON (grey)"); nan])
    as Hs by reflexivity.
  split_and!; [exact counter_rng_ok|exact wf_sightings|exact NoDup_sightings|
               exact Hmain|exact Hsc|exact Hs|].
  exact (report_covers_empty_rows (RT := text_runtime) (G := counter_rng)
           sightings master_table 0%Z enriched_sightings [lit "dodo"]
           (lit "Species") _ counter_rng_ok wf_sightings NoDup_sightings
           Hmain Hsc Hs).
Defined.
(** ** Further properties of [normalize_species] and [find_col] *)

Section NormalizeMore.
Context {RT : Runtime}.

(** X11: whatever the name, its normalized form has whitespace only as
    single spaces between other characters, is its own case folding, and,
    when the name has no line feed, has no parenthesis pair left. *)
Theorem normalized_name_shape (name : cell) :
  trimmed_single_spaced (normalize_species name)
  ∧ casefold (normalize_species name) = normalize_species name
  ∧ (LF ∉ py_str name → has_group (normalize_species name) = false).
Proof.
  unfold normalize_species. destruct (isna name).
  { split_and!; [|done..]. apply trimmed_single_spaced_iff. done. }
  split_and!.
  - apply trimmed_single_spaced_iff, normalize_text_shape.
  - unfold normalize_text. apply casefold_idem.
  - apply has_group_normalize_text.
Qed.

(** X12: the texts that normalisation leaves unchanged are exactly the
    texts of that shape (for a text without a line feed). *)
Theorem normalized_names_are_fixed_points (t : str) :
  LF ∉ t →
  normalize_species (Str t) = t
  ↔ trimmed_single_spaced t ∧ casefold t = t ∧ has_group t = false.
Proof.
  intros Hlf. change (normalize_species (Str t)) with (normalize_text t). split.
  - intros Ht. rewrite <- Ht. split_and!.
    + apply trimmed_single_spaced_iff, normalize_text_shape.
    + unfold normalize_text. apply casefold_idem.
    + by apply has_group_normalize_text.
  - intros ((Htidy & Hhd & Hlast)%trimmed_single_spaced_iff & Hc & Hg).
    by apply normalize_text_fixed.
Qed.


(** X14: a parenthetical at the end of a name, and the whitespace before
    it, do not count: the name normalizes as it does without them. *)
Theorem trailing_parenthetical_ignored (a x : str) :
  LPAREN ∉ a → RPAREN ∉ x → LF ∉ x →
  normalize_species (Str (a ++ LPAREN :: x ++ [RPAREN])) = normalize_species (Str a).
Proof.
  intros Ha Hp Hl.
  change (normalize_text (a ++ LPAREN :: x ++ [RPAREN]) = normalize_text a).
  unfold normalize_text.
  destruct (sub_parens_trailing a x Ha Hp Hl) as (a0 & w & -> & Hw & ->).
  rewrite (sub_parens_id (a0 ++ w)) by (by apply has_group_no_open).
  rewrite !strip_sub_spaces_trailing; [done..|].
  by repeat constructor.
Qed.

(** X15: [find_col] gives no priority among the candidates: two candidate
    lists with the same case-folded entries, in any order, find the same
    header. *)
Theorem find_col_candidate_order (df : DataFrame) (candidates1 candidates2 : list str) :
  (∀ t, t ∈ casefold <$> candidates1 ↔ t ∈ casefold <$> candidates2) →
  ∀ col, find_col df candidates1 = Ok col ↔ find_col df candidates2 = Ok col.
Proof.
  intros Hset col. rewrite !find_col_Ok.
  split; intros (i & Hi & Hc & Hfirst); exists i; (split_and!; [done|by apply Hset|]);
    intros j c Hj Hlt Hin; apply (Hfirst j c Hj Hlt); by apply Hset.
Qed.

End NormalizeMore.

(** X12 on a name in normal form. *)
Lemma normalized_names_are_fixed_points_witness :
  (LF ∉ lit "great egret")
  ∧ (normalize_species (RT := text_runtime) (Str (lit "great egret"))
     = lit "great egret"
     ↔ trimmed_single_spaced (lit "great egret")
       ∧ casefold (lit "great egret") = lit "great egret"
       ∧ has_group (lit "great egret") = false).
Proof.
  assert (LF ∉ lit "great egret") as Hlf
    by (apply (bool_decide_unpack _); vm_compute; exact I).
  split; [exact Hlf|].
  exact (normalized_names_are_fixed_points (RT := text_runtime) _ Hlf).
Defined.


(** X14 on a name followed by its scientific name. *)
Lemma trailing_parenthetical_ignored_witness :
  (LPAREN ∉ lit "Grey Heron ")
  ∧ (RPAREN ∉ lit "Ardea cinerea")
  ∧ (LF ∉ lit "Ardea cinerea")
  ∧ normalize_species (RT := text_runtime)
      (Str (lit "Grey Heron " ++ LPAREN :: lit "Ardea cinerea" ++ [RPAREN]))
    = normalize_species (RT := text_runtime) (Str (lit "Grey Heron ")).
Proof.
  assert (LPAREN ∉ lit "Grey Heron ") as Ha
    by (apply (bool_decide_unpack _); vm_compute; exact I).
  assert (RPAREN ∉ lit "Ardea cinerea") as Hp
    by (apply (bool_decide_unpack _); vm_compute; exact I).
  assert (LF ∉ lit "Ardea cinerea") as Hl
    by (apply (bool_decide_unpack _); vm_compute; exact I).
  split_and!; [exact Ha|exact Hp|exact Hl|].
  exact (trailing_parenthetical_ignored (RT := text_runtime) _ _ Ha Hp Hl).
Defined.

(** X15 on the latitude candidates in the other order and in capitals. *)
Lemma find_col_candidate_order_witness :
  (∀ t, t ∈ casefold <$> [lit "LAT"; lit "Latitud"] ↔ t ∈ casefold <$> lat_candidates)
  ∧ ∀ col, find_col master_table [lit "LAT"; lit "Latitud"] = Ok col
           ↔ find_col master_table lat_candidates = Ok col.
Proof.
  assert (∀ t, t ∈ casefold <$> [lit "LAT"; lit "Latitud"]
               ↔ t ∈ casefold <$> lat_candidates) as Hset.
  { intros t.
    change (casefold <$> [lit "LAT"; lit "Latitud"])
      with [lit "lat"; lit "latitud"].
    change (casefold <$> lat_candidates) with [lit "latitud"; lit "lat"].
    rewrite !elem_of_cons, !elem_of_nil. tauto. }
  split; [exact Hset|].
  exact (find_col_candidate_order master_table _ _ Hset).
Defined.
(** ** Spacing of names *)

Section SpacingMore.
Context {RT : Runtime}.

(** X16: whitespace before and after a name does not count. *)
Theorem surrounding_whitespace_ignored (w1 t w2 : str) :
  Forall (λ c, is_space c = true) w1 → Forall (λ c, is_space c = true) w2 →
  normalize_species (Str (w1 ++ t ++ w2)) = normalize_species (Str t).
Proof.
  intros Hw1 Hw2. change (normalize_text (w1 ++ t ++ w2) = normalize_text t).
  by rewrite normalize_text_spaces_app, normalize_text_app_spaces.
Qed.

(** X17: two names without line feed that agree after collapsing their
    whitespace, stripping and case folding (the form under which [find_col]
    compares headers) have the same normalized form.  With a line feed they
    need not: a parenthetical around a line feed and one around a space
    agree in that form, and only the second is removed. *)
Theorem names_match_ignoring_spacing :
  (∀ a b : str,
     LF ∉ a → LF ∉ b →
     casefold (strip (sub_spaces a)) = casefold (strip (sub_spaces b)) →
     normalize_species (Str a) = normalize_species (Str b))
  ∧ casefold (strip (sub_spaces [LPAREN; LF; RPAREN]))
    = casefold (strip (sub_spaces [LPAREN; SPACE; RPAREN]))
  ∧ normalize_species (Str [LPAREN; LF; RPAREN]) = [LPAREN; SPACE; RPAREN]
  ∧ normalize_species (Str [LPAREN; SPACE; RPAREN]) = [].
Proof.
  split_and!; [|vm_compute; reflexivity..].
  intros a b Ha Hb Hab. change (normalize_text a = normalize_text b).
  rewrite <- (normalize_text_sub_spaces a), <- (normalize_text_sub_spaces b) by done.
  rewrite <- (normalize_text_strip (sub_spaces a)),
    <- (normalize_text_strip (sub_spaces b)).
  by rewrite (normalize_text_casefold (strip (sub_spaces a))),
    (normalize_text_casefold (strip (sub_spaces b))), Hab.
Qed.

End SpacingMore.

(** X16 on a name between two spaces and a tab. *)
Lemma surrounding_whitespace_ignored_witness :
  Forall (λ c, is_space c = true) [SPACE; SPACE]
  ∧ Forall (λ c, is_space c = true) [9]
  ∧ normalize_species (RT := text_runtime)
      (Str ([SPACE; SPACE] ++ lit "Heron (grey)" ++ [9]))
    = normalize_species (RT := text_runtime) (Str (lit "Heron (grey)")).
Proof.
  assert (Forall (λ c, is_space c = true) [SPACE; SPACE]) as Hw1
    by (repeat constructor).
  assert (Forall (λ c, is_space c = true) [9]) as Hw2 by (repeat constructor).
  split_and!; [exact Hw1|exact Hw2|].
  exact (surrounding_whitespace_ignored (RT := text_runtime) _ _ _ Hw1 Hw2).
Defined.

(** X17 on two spellings of a name. *)
Lemma names_match_ignoring_spacing_witness :
  (LF ∉ lit "Great   Egret ")
  ∧ (LF ∉ lit " great egret")
  ∧ casefold (strip (sub_spaces (lit "Great   Egret ")))
    = casefold (strip (sub_spaces (lit " great egret")))
  ∧ normalize_species (RT := text_runtime) (Str (lit "Great   Egret "))
    = normalize_species (RT := text_runtime) (Str (lit " great egret")).
Proof.
  assert (LF ∉ lit "Great   Egret ") as Ha
    by (apply (bool_decide_unpack _); vm_compute; exact I).
  assert (LF ∉ lit " great egret") as Hb
    by (apply (bool_decide_unpack _); vm_compute; exact I).
  assert (casefold (strip (sub_spaces (lit "Great   Egret ")))
          = casefold (strip (sub_spaces (lit " great egret")))) as Hab
    by (vm_compute; reflexivity).
  split_and!; [exact Ha|exact Hb|exact Hab|].
  exact (proj1 (names_match_ignoring_spacing (RT := text_runtime)) _ _ Ha Hb Hab).
Defined.
(** ** Sightings of unknown species at the end of the table *)

Section AppendedMore.
Context {RT : Runtime} {G : Generator}.

(** X18: sightings of species without candidates, appended to the table
    under labels that no row of the table carries, change nothing for the
    rows before them: [assign_coords] returns for the longer table whenever
    it does for the shorter one, leaves the generator in the same state,
    and the derived columns are those of the shorter table followed by
    empty fields. *)
Theorem unknown_rows_appended
    (df df' : DataFrame) (species_col : str)
    (master : gmap (list N) (list (spec_float * spec_float))) (g g1 : rng)
    (out : DataFrame) (species more : list cell) (more_labels : list label) :
  get_col df species_col = Ok species → nrows df = length species →
  get_col df' species_col = Ok (species ++ more) →
  index df' = index df ++ more_labels → length more_labels = length more →
  (∀ l, l ∈ more_labels → l ∉ index df) →
  (∀ name, name ∈ more →
     master !! normalize_species name = None
     ∨ master !! normalize_species name = Some []) →
  assign_coords df species_col master g = Ok (out, g1) →
  ∃ out' lat lon lat_lon,
    assign_coords df' species_col master g = Ok (out', g1)
    ∧ get_col out (lit "lat") = Ok lat
    ∧ get_col out (lit "lopnong") = Ok lon
    ∧ get_col out (lit "lat_lon") = Ok lat_lon
    ∧ get_col out' (lit "lat") = Ok (lat ++ replicate (length more) (Str []))
    ∧ get_col out' (lit "lopnong") = Ok (lon ++ replicate (length more) (Str []))
    ∧ get_col out' (lit "lat_lon") = Ok (lat_lon ++ replicate (length more) (Str [])).
Proof.
  intros Hs Hn Hs' Hidx Hlen Hfresh Hmore
    (species0 & pk & Hs0 & Hpk & -> & ->)%assign_coords_Ok.
  assert (species0 = species) as -> by congruence.
  set (norm := normalize_species <$> species) in *.
  assert (schedule master g
            (label_groups (index df') (normalize_species <$> species ++ more))
          = schedule master g (label_groups (index df) norm)) as Hplan.
  { rewrite Hidx, fmap_app. apply schedule_app_unmatched.
    - unfold norm. by rewrite length_fmap, <- Hn.
    - intros k (name & -> & Hname)%list_elem_of_fmap.
      apply has_candidates_false. by apply Hmore. }
  assert (Forall (λ e : label * (spec_float * spec_float), e.1 ∉ more_labels) pk)
    as Hrows.
  { apply Forall_forall. intros [l c] Hin. cbn [fst].
    destruct (picked_is_candidate _ _ _ _ _ _ _ Hpk Hin) as (i & _ & _ & Hl & _).
    intros Hl'. apply (Hfresh l Hl'). by eapply list_elem_of_lookup_2. }
  assert (assignment (index df') pk
          = assignment (index df) pk ++ replicate (length more) None) as Ha.
  { rewrite Hidx, <- Hlen. by apply assignment_app. }
  eexists _, _, _, _. split.
  { rewrite assign_coords_unfold, Hs'. cbn [bind]. cbv zeta.
    rewrite Hplan, Hpk. cbn [bind]. reflexivity. }
  rewrite !get_col_finish_lat, !get_col_finish_lon, !get_col_finish_pair, Ha.
  rewrite !fmap_app, !fmap_replicate. done.
Qed.

End AppendedMore.

(** X18 on the example table and the same table with two more sightings. *)
Lemma unknown_rows_appended_witness :
  get_col sightings (lit "Species")
  = Ok [Str (lit "Heron"); Str (lit "dodo"); Str (lit "HERON (grey)"); nan]
  ∧ nrows sightings
    = length [Str (lit "Heron"); Str (lit "dodo"); Str (lit "HERON (grey)"); nan]
  ∧ get_col sightings_more (lit "Species")
    = Ok ([Str (lit "Heron"); Str (lit "dodo"); Str (lit "HERON (grey)"); nan]
          ++ [Str (lit "Moa"); Str (lit "dodo")])
  ∧ index sightings_more = index sightings ++ [Lbl 4; Lbl 5]
  ∧ length [Lbl 4; Lbl 5] = length [Str (lit "Moa"); Str (lit "dodo")]
  ∧ (∀ l, l ∈ [Lbl 4; Lbl 5] → l ∉ index sightings)
  ∧ (∀ name, name ∈ [Str (lit "Moa"); Str (lit "dodo")] →
       master_table_index !! normalize_species (RT := text_runtime) name = None
       ∨ master_table_index !! normalize_species (RT := text_runtime) name = Some [])
  ∧ assign_coords (RT := text_runtime) (G := counter_rng)
      sightings (lit "Species") master_table_index 0%Z = Ok (enriched_sightings, 2%Z)
  ∧ ∃ out' lat lon lat_lon,
      assign_coords (RT := text_runtime) (G := counter_rng)
        sightings_more (lit "Species") master_table_index 0%Z = Ok (out', 2%Z)
      ∧ get_col enriched_sightings (lit "lat") = Ok lat
      ∧ get_col enriched_sightings (lit "lopnong") = Ok lon
      ∧ get_col enriched_sightings (lit "lat_lon") = Ok lat_lon
      ∧ get_col out' (lit "lat")
        = Ok (lat ++ replicate (length [Str (lit "Moa"); Str (lit "dodo")]) (Str []))
      ∧ get_col out' (lit "lopnong")
        = Ok (lon ++ replicate (length [Str (lit "Moa"); Str (lit "dodo")]) (Str []))
      ∧ get_col out' (lit "lat_lon")
        = Ok (lat_lon
              ++ replicate (length [Str (lit "Moa"); Str (lit "dodo")]) (Str [])).
Proof.
  assert (get_col sightings (lit "Species")
          = Ok [Str (lit "Heron"); Str (lit "dodo"); Str (lit "HERON (grey)"); nan])
    as Hs by reflexivity.
  assert (nrows sightings
          = length [Str (lit "Heron"); Str (lit "dodo"); Str (lit "HERON (grey)"); nan])
    as Hn by reflexivity.
  assert (get_col sightings_more (lit "Species")
          = Ok ([Str (lit "Heron"); Str (lit "dodo"); Str (lit "HERON (grey)"); nan]
                ++ [Str (lit "Moa"); Str (lit "dodo")])) as Hs' by reflexivity.
  assert (index sightings_more = index sightings ++ [Lbl 4; Lbl 5]) as Hidx
    by reflexivity.
  assert (length [Lbl 4; Lbl 5] = length [Str (lit "Moa"); Str (lit "dodo")])
    as Hlen by reflexivity.
  assert (∀ l, l ∈ [Lbl 4; Lbl 5] → l ∉ index sightings) as Hfresh.
  { intros l Hin. repeat (apply elem_of_cons in Hin as [->|Hin]);
      [apply (bool_decide_unpack _); vm_compute; exact I..|by apply elem_of_nil in Hin]. }
  assert (∀ name, name ∈ [Str (lit "Moa"); Str (lit "dodo")] →
       master_table_index !! normalize_species (RT := text_runtime) name = None
       ∨ master_table_index !! normalize_species (RT := text_runtime) name = Some [])
    as Hmore.
  { intros name Hin. left. repeat (apply elem_of_cons in Hin as [->|Hin]);
      [vm_compute; reflexivity..|by apply elem_of_nil in Hin]. }
  assert (assign_coords (RT := text_runtime) (G := counter_rng)
            sightings (lit "Species") master_table_index 0%Z
          = Ok (enriched_sightings, 2%Z)) as Hrun by (vm_compute; reflexivity).
  split_and!; [exact Hs|exact Hn|exact Hs'|exact Hidx|exact Hlen|exact Hfresh|
               exact Hmore|exact Hrun|].
  exact (unknown_rows_appended (RT := text_runtime) (G := counter_rng)
           sightings sightings_more (lit "Species") master_table_index 0%Z 2%Z
           enriched_sightings _ _ _ Hs Hn Hs' Hidx Hlen Hfresh Hmore Hrun).
Defined.
(** ** Rows with distinct labels, and normalizing twice *)

Section LabelsMore.
Context {RT : Runtime} {G : Generator}.

(** X19: when the generator keeps numpy's promise that a draw lies in
    [[low, high)], every index of the schedule lies in [[0, K)] for the [K]
    candidates it indexes and [assign_coords] returns (no index is out of
    range); on a table whose row labels are distinct, every row whose
    normalized name is a key of the index with at least one candidate holds
    one of these candidates. *)
Theorem matched_row_pair_is_candidate
    (df : DataFrame) (species_col : str)
    (master : gmap (list N) (list (spec_float * spec_float))) (g : rng)
    (species : list cell) :
  generator_ok G → wf_frame df → get_col df species_col = Ok species →
  (∀ e, e ∈ (schedule master g
               (label_groups (index df) (normalize_species <$> species))).1 →
        (0 ≤ e.2.2 < Z.of_nat (length e.2.1))%Z)
  ∧ ∃ out g' lat lon,
      assign_coords df species_col master g = Ok (out, g')
      ∧ get_col out (lit "lat") = Ok lat
      ∧ get_col out (lit "lopnong") = Ok lon
      ∧ (NoDup (index df) →
         ∀ i name cands,
           species !! i = Some name →
           master !! normalize_species name = Some cands → cands ≠ [] →
           ∃ c, c ∈ cands
                ∧ lat !! i = Some (Str (coord_text c.1))
                ∧ lon !! i = Some (Str (coord_text c.2))).
Proof.
  intros HG Hwf Hs. split; [intros e; by apply schedule_in_range|].
  destruct (assign_coords_total df species_col master g species HG Hs)
    as (pk & Hpk & Hrun).
  eexists _, _, _, _. split_and!;
    [exact Hrun|apply get_col_finish_lat|apply get_col_finish_lon|].
  intros Hnd i name cands Hi Hm Hne.
  assert (i < length (index df))%nat as [l Hl]%lookup_lt_is_Some_2.
  { change (length (index df)) with (nrows df).
    rewrite <- (get_col_wf_length df species_col species) by done.
    by eapply lookup_lt_Some. }
  destruct (matched_row_written master g (index df) species pk i l name cands
              HG Hnd Hpk Hl Hi Hm Hne) as (c & Hc & Ha).
  exists c. split; [done|].
  by rewrite !list_lookup_fmap, Ha.
Qed.

(** X20: normalizing a normalized name returns it unchanged exactly when
    the normalized name has no parenthetical left, which is so for every
    name without a line feed. *)
Theorem normalize_species_idempotent (name : cell) :
  (normalize_species (Str (normalize_species name)) = normalize_species name
   ↔ has_group (normalize_species name) = false)
  ∧ (LF ∉ py_str name →
     normalize_species (Str (normalize_species name)) = normalize_species name).
Proof.
  assert (tidy_from false (normalize_species name) = true
          ∧ hd_space (normalize_species name) = false
          ∧ hd_space (reverse (normalize_species name)) = false
          ∧ casefold (normalize_species name) = normalize_species name)
    as (Ht & Hh & Hr & Hc).
  { unfold normalize_species. destruct (isna name); [done|].
    destruct (normalize_text_shape (py_str name)) as (? & ? & ?).
    split_and!; [done..|]. unfold normalize_text. apply casefold_idem. }
  assert (LF ∉ py_str name → has_group (normalize_species name) = false) as Hlf.
  { unfold normalize_species. destruct (isna name); [done|].
    apply has_group_normalize_text. }
  revert Ht Hh Hr Hc Hlf. generalize (normalize_species name). intros t Ht Hh Hr Hc Hlf.
  change (normalize_species (Str t)) with (normalize_text t).
  split.
  - split.
    + intros Heq. rewrite <- Heq. apply has_group_normalize_text.
      destruct (tidy_from_shape false _ Ht) as (Hsp & _ & _).
      intros Hin. by specialize (Hsp LF Hin eq_refl).
    + intros Hg. by apply normalize_text_fixed.
  - intros Hn. apply normalize_text_fixed; try done. by apply Hlf.
Qed.

End LabelsMore.

(** X19 on three sightings of two species with two candidates each. *)
Lemma matched_row_pair_is_candidate_witness :
  generator_ok counter_rng
  ∧ wf_frame herons_abc
  ∧ get_col herons_abc (lit "species")
    = Ok [Str (lit "Heron"); Str (lit "Egret"); Str (lit "Heron")]
  ∧ (∀ e, e ∈ (schedule (G := counter_rng) two_species_index 0%Z
                 (label_groups (index herons_abc)
                    (normalize_species (RT := text_runtime) <$>
                       [Str (lit "Heron"); Str (lit "Egret"); Str (lit "Heron")]))).1 →
          (0 ≤ e.2.2 < Z.of_nat (length e.2.1))%Z)
  ∧ ∃ out g' lat lon,
      assign_coords (RT := text_runtime) (G := counter_rng)
        herons_abc (lit "species") two_species_index 0%Z = Ok (out, g')
      ∧ get_col out (lit "lat") = Ok lat
      ∧ get_col out (lit "lopnong") = Ok lon
      ∧ NoDup (index herons_abc)
      ∧ ∀ i name cands,
          [Str (lit "Heron"); Str (lit "Egret"); Str (lit "Heron")] !! i
            = Some name →
          two_species_index !! normalize_species (RT := text_runtime) name
            = Some cands →
          cands ≠ [] →
          ∃ c, c ∈ cands
               ∧ lat !! i = Some (Str (coord_text c.1))
               ∧ lon !! i = Some (Str (coord_text c.2)).
Proof.
  assert (get_col herons_abc (lit "species")
          = Ok [Str (lit "Heron"); Str (lit "Egret"); Str (lit "Heron")])
    as Hs by reflexivity.
  split; [exact counter_rng_ok|]. split; [exact wf_herons_abc|]. split; [exact Hs|].
  destruct (matched_row_pair_is_candidate (RT := text_runtime) (G := counter_rng)
              herons_abc (lit "species") two_species_index 0%Z _
              counter_rng_ok wf_herons_abc Hs)
    as (Hrange & out & g' & lat & lon & Hrun & Hlat & Hlon & Hrows).
  split; [exact Hrange|]. exists out, g', lat, lon.
  split; [exact Hrun|]. split; [exact Hlat|]. split; [exact Hlon|].
  split; [exact NoDup_herons_abc|]. exact (Hrows NoDup_herons_abc).
Defined.
